(** * Golden-Lines: ingestion, pagination and windowed loading

    A shallow embedding of the core of the reading application:
    - [resolvePath], [parseEpub], [extractParagraphs], [formatId] and
      [getNextId] of [src/utils.ts];
    - [findSplitPoint], [paginateParagraphs] and the scroll-window updates of
      the [Reader] component.

    JavaScript strings are sequences of UTF-16 code units; they are modelled
    as lists of code units, so that [length], [substring] and the comparison
    of strings mean what they mean in the source. *)

From Stdlib Require Import List Bool Arith ZArith NArith QArith Qround Lia String Ascii.
From Stdlib Require Import Permutation Sorted.
Import ListNotations.

Set Implicit Arguments.

(* ================================================================== *)
(** * The JavaScript values used by the program *)
(* ================================================================== *)

Module JS.

Local Open Scope N_scope.

(** A string is its sequence of UTF-16 code units. *)
Definition jsstring := list N.

(** ASCII literals of the source. *)
Definition js (s : string) : jsstring :=
  map N_of_ascii (list_ascii_of_string s).

Fixpoint jseqb (a b : jsstring) : bool :=
  match a, b with
  | [], [] => true
  | x :: a', y :: b' => (x =? y) && jseqb a' b'
  | _, _ => false
  end.

(** [s.length] as a JavaScript number. *)
Definition jslength (s : jsstring) : Z := Z.of_nat (List.length s).

(** A string is falsy exactly when it is empty. *)
Definition truthy (s : jsstring) : bool :=
  match s with [] => false | _ :: _ => true end.

(** [a || b] on strings. *)
Definition or_else (a b : jsstring) : jsstring := if truthy a then a else b.

(** [s.startsWith(p)]. *)
Fixpoint startsWith (s p : jsstring) {struct p} : bool :=
  match p, s with
  | [], _ => true
  | y :: p', x :: s' => (x =? y) && startsWith s' p'
  | _ :: _, [] => false
  end.

(** [s.includes(p)]. *)
Fixpoint includes (s p : jsstring) : bool :=
  startsWith s p ||
  match s with
  | [] => false
  | _ :: s' => includes s' p
  end.

(** [s.substring(start, end)]: both indices are clamped to [0, length] and
    swapped when [start > end]. *)
Definition clamp (s : jsstring) (i : Z) : nat :=
  Z.to_nat (Z.min (Z.max i 0) (jslength s)).

Definition substring (s : jsstring) (i j : Z) : jsstring :=
  let a := clamp s i in
  let b := clamp s j in
  firstn (Nat.max a b - Nat.min a b) (skipn (Nat.min a b) s).

(** [s.substring(start)]. *)
Definition substring_from (s : jsstring) (i : Z) : jsstring :=
  skipn (clamp s i) s.

(** [s.split(sep)] for a one-unit separator; never the empty array. *)
Fixpoint split (sep : N) (s : jsstring) : list jsstring :=
  match s with
  | [] => [[]]
  | c :: r =>
      if c =? sep then [] :: split sep r
      else match split sep r with
           | seg :: segs => (c :: seg) :: segs
           | [] => [[c]]
           end
  end.

(** [parts.join(sep)]. *)
Fixpoint join (sep : jsstring) (parts : list jsstring) : jsstring :=
  match parts with
  | [] => []
  | [x] => x
  | x :: rest => x ++ sep ++ join sep rest
  end.

(** [Array.prototype.pop], for its effect on the array: the last element is
    removed, and popping the empty array leaves it empty. *)
Definition pop (A : Type) (l : list A) : list A := removelast l.

(** [Array.prototype.push] of one element. *)
Definition push (A : Type) (l : list A) (x : A) : list A := l ++ [x].

(** White space and line terminators: the units removed by [trim] and
    matched by the regular expression class [\s]. *)
Definition is_space (c : N) : bool :=
  ((9 <=? c) && (c <=? 13)) || (c =? 32) || (c =? 160) || (c =? 5760)
  || ((8192 <=? c) && (c <=? 8202)) || (c =? 8232) || (c =? 8233)
  || (c =? 8239) || (c =? 8287) || (c =? 12288) || (c =? 65279).

Fixpoint trimStart (s : jsstring) : jsstring :=
  match s with
  | c :: r => if is_space c then trimStart r else s
  | [] => []
  end.

Definition trimEnd (s : jsstring) : jsstring := rev (trimStart (rev s)).

Definition trim (s : jsstring) : jsstring := trimEnd (trimStart s).

(** ** Exceptions *)

Inductive exn : Type :=
  | URIError
  | RangeError
  | Error (message : string).

Inductive result (A : Type) : Type :=
  | Ok (a : A)
  | Throw (e : exn).
Arguments Ok {A} a.
Arguments Throw {A} e.

Definition bind (A B : Type) (m : result A) (k : A -> result B) : result B :=
  match m with
  | Ok a => k a
  | Throw e => Throw e
  end.

(** ** [decodeURIComponent]

    ECMA-262 [Decode] with an empty set of preserved escapes: every [%XX] is
    an octet, an octet below 128 is a code unit, and a larger one starts a
    UTF-8 sequence whose continuation octets must be escapes as well and
    which must be a well-formed encoding of a code point; anything else is a
    [URIError].  The octets are collected first, then decoded: a string is
    rejected by one pass exactly when it is rejected by the other. *)

Definition hexval (c : N) : option N :=
  if (48 <=? c) && (c <=? 57) then Some (c - 48)
  else if (65 <=? c) && (c <=? 70) then Some (c - 55)
  else if (97 <=? c) && (c <=? 102) then Some (c - 87)
  else None.

Inductive item : Type :=
  | Unit (c : N)
  | Octet (b : N).

Fixpoint unescape (s : jsstring) : option (list item) :=
  match s with
  | [] => Some []
  | c :: rest =>
      if c =? 37 then
        match rest with
        | h :: l :: rest' =>
            match hexval h, hexval l with
            | Some a, Some b =>
                option_map (cons (Octet (16 * a + b))) (unescape rest')
            | _, _ => None
            end
        | _ => None
        end
      else option_map (cons (Unit c)) (unescape rest)
  end.

Definition between (lo hi b : N) : bool := (lo <=? b) && (b <=? hi).

(** [CodePointToString]: one unit, or a surrogate pair. *)
Definition utf16 (cp : N) : jsstring :=
  if cp <? 65536 then [cp]
  else [55296 + (cp - 65536) / 1024; 56320 + (cp - 65536) mod 1024].

(** The allowed range of the second octet depends on the first
    (Unicode, table 3-7): no overlong form, no surrogate, nothing above
    U+10FFFF. *)
Definition second_ok (b b1 : N) : bool :=
  if b =? 224 then between 160 191 b1
  else if b =? 237 then between 128 159 b1
  else if b =? 240 then between 144 191 b1
  else if b =? 244 then between 128 143 b1
  else between 128 191 b1.

Fixpoint utf8 (l : list item) : option jsstring :=
  match l with
  | [] => Some []
  | Unit c :: r => option_map (cons c) (utf8 r)
  | Octet b :: r =>
      if b <? 128 then option_map (cons b) (utf8 r)
      else if between 194 223 b then
        match r with
        | Octet b1 :: r1 =>
            if second_ok b b1
            then option_map (app (utf16 ((b - 192) * 64 + (b1 - 128))))
                            (utf8 r1)
            else None
        | _ => None
        end
      else if between 224 239 b then
        match r with
        | Octet b1 :: Octet b2 :: r2 =>
            if second_ok b b1 && between 128 191 b2
            then option_map
                   (app (utf16 ((b - 224) * 4096 + (b1 - 128) * 64
                                + (b2 - 128))))
                   (utf8 r2)
            else None
        | _ => None
        end
      else if between 240 244 b then
        match r with
        | Octet b1 :: Octet b2 :: Octet b3 :: r3 =>
            if second_ok b b1 && between 128 191 b2 && between 128 191 b3
            then option_map
                   (app (utf16 ((b - 240) * 262144 + (b1 - 128) * 4096
                                + (b2 - 128) * 64 + (b3 - 128))))
                   (utf8 r3)
            else None
        | _ => None
        end
      else None
  end.

Definition decodeURIComponent (s : jsstring) : result jsstring :=
  match unescape s with
  | Some items =>
      match utf8 items with
      | Some r => Ok r
      | None => Throw URIError
      end
  | None => Throw URIError
  end.

(** ** Numbers

    A number is a double.  Those that occur here are the integers among the
    doubles, [NaN] (what [parseInt] gives for a string without digits) and
    the two infinities ([-Infinity] is the maximum of no number).  Every
    integer up to 2^53 in absolute value is a double; above, a double keeps
    53 bits, and the result of every operation is rounded to the nearest
    double, to the one with the even significand when two are as near.
    [Int z] is used with [z] a double. *)
Inductive number : Type :=
  | NaN
  | NegInfinity
  | PosInfinity
  | Int (z : Z).

(** [Number.MAX_SAFE_INTEGER]. *)
Definition max_safe : Z := (2 ^ 53 - 1)%Z.

(** The integer double nearest to the integer [z], were the exponent
    without bound. *)
Definition nearest (z : Z) : Z :=
  let a := Z.abs z in
  let e := (Z.log2 a - 52)%Z in
  if (e <=? 0)%Z then z
  else
    let q := (a / 2 ^ e)%Z in
    let r := (a mod 2 ^ e)%Z in
    let half := (2 ^ (e - 1))%Z in
    let up := (half <? r)%Z || ((half =? r)%Z && Z.odd q) in
    (Z.sgn z * ((if up then q + 1 else q) * 2 ^ e))%Z.

(** The double for the integer [z]: what is nearest to 2^1024 or beyond is
    infinite. *)
Definition double (z : Z) : number :=
  let r := nearest z in
  if (2 ^ 1024 <=? r)%Z then PosInfinity
  else if (r <=? - 2 ^ 1024)%Z then NegInfinity
  else Int r.

(** Decimal digits of a natural number, most significant first. *)
Fixpoint digits_from (fuel : nat) (n : N) (acc : jsstring) : jsstring :=
  let acc' := (48 + n mod 10)%N :: acc in
  match fuel with
  | O => acc'
  | S fuel' => if (n <? 10)%N then acc' else digits_from fuel' (n / 10)%N acc'
  end.

Definition digits (n : N) : jsstring := digits_from (N.size_nat n) n [].

(** [Number::toString] writes the decimal with the fewest digits that is
    read back as the number, and the one nearest to the number when several
    have as few (the even one of two as near).  For the double [a] and the
    power [10 ^ e], the two multiples of the power around [a] are tried. *)
Definition candidate (a e : Z) : option Z :=
  let unit := (10 ^ e)%Z in
  let lo := (a / unit * unit)%Z in
  let hi := (lo + unit)%Z in
  match (nearest lo =? a)%Z, (nearest hi =? a)%Z with
  | true, true =>
      Some (if (a - lo <? hi - a)%Z then lo
            else if (hi - a <? a - lo)%Z then hi
            else if Z.even (lo / unit) then lo else hi)
  | true, false => Some lo
  | false, true => Some hi
  | false, false => None
  end.

(** One digit, then two, and so on: [e] goes down from the length of [a]
    less one.  Seventeen digits are enough for every double. *)
Fixpoint shortest (fuel : nat) (a e : Z) : Z :=
  match fuel with
  | O => a
  | S fuel' =>
      if (e <=? 0)%Z then a
      else match candidate a e with
           | Some v => v
           | None => shortest fuel' a (e - 1)%Z
           end
  end.

Fixpoint strip_zeros (reversed : jsstring) : jsstring :=
  match reversed with
  | 48 :: r => strip_zeros r
  | _ => reversed
  end.

(** The text for a positive double above 2^53: the digits of the decimal
    when they are at most 21, and otherwise its first digit, a point and the
    other digits up to the last that is not 0, then [e+] and the exponent. *)
Definition large_text (a : Z) : jsstring :=
  let d := Z.of_nat (List.length (digits (Z.to_N a))) in
  let v := digits (Z.to_N (shortest 17 a (d - 1))) in
  if (List.length v <=? 21)%nat then v
  else
    let exponent := [101; 43] ++ digits (N.of_nat (List.length v - 1)) in
    match rev (strip_zeros (rev v)) with
    | [] => v
    | [c] => c :: exponent
    | c :: r => c :: 46 :: r ++ exponent
    end.

(** [String(num)].  Up to 2^53 every integer is a double and its decimal is
    the number itself. *)
Definition positive_text (a : Z) : jsstring :=
  if (a <=? 2 ^ 53)%Z then digits (Z.to_N a) else large_text a.

Definition String_ (num : number) : jsstring :=
  match num with
  | NaN => js "NaN"
  | NegInfinity => js "-Infinity"
  | PosInfinity => js "Infinity"
  | Int z =>
      match double z with
      | Int a =>
          if (a <? 0)%Z then 45%N :: positive_text (- a)
          else positive_text a
      | PosInfinity => js "Infinity"
      | NegInfinity => js "-Infinity"
      | NaN => js "NaN"
      end
  end.

End JS.

Import JS.

Declare Scope js_scope.
Delimit Scope js_scope with js.
Notation "x <- m ;; k" := (JS.bind m (fun x => k))
  (at level 61, m at next level, right associativity) : js_scope.

(* ================================================================== *)
(** * Path resolution *)
(* ================================================================== *)

Module Path.

Local Open Scope js_scope.

(** One turn of the loop over [relParts]. *)
Definition visit (baseParts : list jsstring) (part : jsstring)
  : list jsstring :=
  if jseqb part (js "..") then pop baseParts
  else if negb (jseqb part (js ".")) then push baseParts part
  else baseParts.

Definition resolvePath (base relative : jsstring) : result jsstring :=
  if startsWith relative (js "/") then Ok (substring_from relative 1)
  else
    decoded <- decodeURIComponent relative ;;
    let baseParts := split 47 base in
    let baseParts := pop baseParts in
    let relParts := split 47 decoded in
    let baseParts := fold_left visit relParts baseParts in
    Ok (join (js "/") baseParts).

(** The resolver in the words of its description.  The accumulated segments
    are a stack, last segment on top. *)
Definition is_rooted (relativeRef : jsstring) : option jsstring :=
  match relativeRef with
  | 47 :: remainder => Some remainder
  | _ => None
  end%N.

(** Drop the final (file) segment of the base path. *)
Definition directory_of (basePath : jsstring) : list jsstring :=
  tl (rev (split 47 basePath)).

(** Process each segment of the reference in order. *)
Fixpoint process (accumulated : list jsstring) (segments : list jsstring)
  : list jsstring :=
  match segments with
  | [] => accumulated
  | seg :: rest =>
      if jseqb seg (js "..") then process (tl accumulated) rest
      else if jseqb seg (js ".") then process accumulated rest
      else process (seg :: accumulated) rest
  end.

Definition resolve_described (basePath relativeRef : jsstring)
  : result jsstring :=
  match is_rooted relativeRef with
  | Some remainder => Ok remainder
  | None =>
      match decodeURIComponent relativeRef with
      | Throw e => Throw e
      | Ok decoded =>
          Ok (join (js "/")
                (rev (process (directory_of basePath) (split 47 decoded))))
      end
  end.

End Path.


(* ================================================================== *)
(** * Quote identifiers *)
(* ================================================================== *)

Module Ids.

(** [s.padStart(targetLength, pad)] for a one-unit pad. *)
Definition padStart (s : jsstring) (targetLength : nat) (pad : N) : jsstring :=
  repeat pad (targetLength - List.length s) ++ s.

Definition formatId (num : number) : jsstring :=
  padStart (String_ num) 3 48%N.

Definition is_digit (c : N) : bool := ((48 <=? c) && (c <=? 57))%N.

Fixpoint takeWhile (A : Type) (p : A -> bool) (l : list A) : list A :=
  match l with
  | x :: r => if p x then x :: takeWhile p r else []
  | [] => []
  end.

Definition digits_value (ds : jsstring) : N :=
  fold_left (fun acc d => (10 * acc + (d - 48))%N) ds 0%N.

(** [parseInt(s, 10)]: leading white space is skipped, then an optional sign,
    then the longest run of decimal digits; no digit gives [NaN].  The number
    is the double nearest to what the digits write (the standard lets an
    engine take the digits after the twentieth for zeros). *)
Definition parseInt10 (s : jsstring) : number :=
  let s := trimStart s in
  let '(negative, s) :=
    match s with
    | 45 :: r => (true, r)
    | 43 :: r => (false, r)
    | _ => (false, s)
    end%N in
  match takeWhile is_digit s with
  | [] => NaN
  | ds =>
      let v := Z.of_N (digits_value ds) in
      double (if negative then (- v)%Z else v)
  end.

(** [Math.max] of two numbers, and of the numbers of an array. *)
Definition max2 (a b : number) : number :=
  match a, b with
  | NaN, _ | _, NaN => NaN
  | PosInfinity, _ | _, PosInfinity => PosInfinity
  | NegInfinity, x | x, NegInfinity => x
  | Int x, Int y => Int (Z.max x y)
  end.

Definition Math_max (l : list number) : number :=
  fold_left max2 l NegInfinity.

(** [x + 1]. *)
Definition succ (x : number) : number :=
  match x with
  | Int z => double (z + 1)
  | other => other
  end.

Record QuoteItem : Type := {
  id : jsstring;
  text : jsstring;
  author : option jsstring;
  source : option jsstring;
  tags : option (list jsstring);
  chapterIndex : Z;
  chapterTitle : jsstring
}.

Section WithEngine.

(** The most arguments that a call can take.  The standard sets no limit and
    every engine has one: the elements of a spread array are pushed as
    arguments, and the call throws a [RangeError] when they are too many. *)
Variable max_arguments : Z.

(** [Math.max(...array)]. *)
Definition Math_max_spread (array : list number) : result number :=
  if (Z.of_nat (List.length array) <=? max_arguments)%Z
  then Ok (Math_max array)
  else Throw RangeError.

Definition getNextId (quotes : list QuoteItem) (startingId : number)
  : result jsstring :=
  if (List.length quotes =? 0)%nat then Ok (formatId startingId)
  else
    match Math_max_spread (map (fun q => parseInt10 (id q)) quotes) with
    | Ok maxId => Ok (formatId (max2 (succ maxId) startingId))
    | Throw e => Throw e
    end.

End WithEngine.

(** A quote of which only the identifier matters. *)
Definition quote_with_id (i : jsstring) : QuoteItem :=
  {| id := i; text := []; author := None; source := None; tags := None;
     chapterIndex := 0; chapterTitle := [] |}.

End Ids.


(* ================================================================== *)
(** * Archive ingestion *)
(* ================================================================== *)

Module Epub.

Local Open Scope js_scope.

(** The selectors handed to [querySelectorAll] and [querySelector]. *)
Inductive selector : Type :=
  | sel_p            (* p *)
  | sel_div          (* div *)
  | sel_headings     (* h1, h2, h3, h4 *)
  | sel_toc_links.   (* nav a, [epub:type=toc] a *)

Inductive mime : Type := text_xml | text_html.

(** The document object model, as far as the parser queries it.  The parser
    of the browser never throws: ill-formed input gives a document in which
    the queries find nothing. *)
Record DOM : Type := {
  Document : Type;
  Element : Type;
  parseFromString : jsstring -> mime -> Document;
  getElementsByTagName : Document -> string -> list Element;
  getElementsByTagName_in : Element -> string -> list Element;
  getAttribute : Element -> string -> option jsstring;
  textContent : Element -> jsstring;
  querySelectorAll : Document -> selector -> list Element;
  querySelector : Element -> selector -> option Element;
  body : Document -> option Element
}.

(** The archive: [zip.file(name)] followed by [async('text')].  The reader
    of archives is taken as given: opening the archive and reading an entry
    that is present do not fail. *)
Definition Archive : Type := jsstring -> option jsstring.

Record Chapter : Type := {
  title : jsstring;
  paragraphs : list jsstring;
  wordCount : Z
}.

Record ManifestItem : Type := {
  href : jsstring;
  mediaType : jsstring
}.

(** A [Map] keeps its keys in insertion order; [set] on a present key
    replaces the value where the key stands. *)
Definition JSMap (V : Type) : Type := list (jsstring * V).

Fixpoint map_set (V : Type) (m : JSMap V) (k : jsstring) (v : V) : JSMap V :=
  match m with
  | [] => [(k, v)]
  | (k', v') :: r =>
      if jseqb k' k then (k', v) :: r else (k', v') :: map_set r k v
  end.

Definition map_get (V : Type) (m : JSMap V) (k : jsstring) : option V :=
  option_map snd (find (fun e => jseqb (fst e) k) m).

(** [a || ''] for an attribute that may be absent. *)
Definition attr_or_empty (a : option jsstring) : jsstring :=
  match a with
  | Some s => s
  | None => []
  end.

(** The first string that is not empty: the loops that [break] on the first
    truthy text. *)
Definition first_truthy (l : list jsstring) : option jsstring :=
  find truthy l.

(** [s.split('#')[0]]. *)
Definition before_hash (s : jsstring) : jsstring := hd [] (split 35 s).

(** [text.split(/\n+/)]: a run of line feeds is one separator. *)
Fixpoint skip_line_feeds (s : jsstring) : jsstring :=
  match s with
  | 10%N :: r => skip_line_feeds r
  | _ => s
  end.

Fixpoint split_lines_from (fuel : nat) (s : jsstring) (line : jsstring)
  : list jsstring :=
  match fuel with
  | O => [rev line]
  | S fuel' =>
      match s with
      | [] => [rev line]
      | c :: r =>
          if (c =? 10)%N
          then rev line :: split_lines_from fuel' (skip_line_feeds r) []
          else split_lines_from fuel' r (c :: line)
      end
  end.

Definition split_lines (s : jsstring) : list jsstring :=
  split_lines_from (List.length s) s [].

Section WithDOM.

Variable dom : DOM.

Definition trimmed_text (e : Element dom) : jsstring :=
  trim (textContent dom e).

Definition extractParagraphs (doc : Document dom) : list jsstring :=
  let pElements := querySelectorAll dom doc sel_p in
  let paragraphs := filter truthy (map trimmed_text pElements) in
  (* Fallback: try div elements *)
  let paragraphs :=
    if (List.length paragraphs =? 0)%nat then
      let divs := querySelectorAll dom doc sel_div in
      let leaves :=
        filter (fun div => match querySelector dom div sel_div with
                           | Some _ => false
                           | None => true
                           end) divs in
      filter truthy (map trimmed_text leaves)
    else paragraphs in
  (* Fallback: split body text by newlines *)
  let paragraphs :=
    if (List.length paragraphs =? 0)%nat then
      match body dom doc with
      | Some b =>
          let text := trimmed_text b in
          if truthy text
          then filter truthy (map trim (split_lines text))
          else []
      | None => []
      end
    else paragraphs in
  paragraphs.

(** Step 3: the book title. *)
Definition bookTitle_of (opfDoc : Document dom) : jsstring :=
  match getElementsByTagName dom opfDoc "dc:title" with
  | first :: _ => or_else (trimmed_text first) (js "Unknown")
  | [] =>
      match first_truthy
              (map trimmed_text (getElementsByTagName dom opfDoc "title")) with
      | Some t => t
      | None => js "Unknown"
      end
  end.

(** Step 4: the manifest. *)
Definition manifest_of (opfDoc : Document dom) : JSMap ManifestItem :=
  fold_left
    (fun m item =>
       map_set m (attr_or_empty (getAttribute dom item "id"))
         {| href := attr_or_empty (getAttribute dom item "href");
            mediaType := attr_or_empty (getAttribute dom item "media-type") |})
    (getElementsByTagName dom opfDoc "item") [].

(** Step 5: the spine. *)
Definition spine_of (opfDoc : Document dom) : list jsstring :=
  flat_map
    (fun itemref =>
       match getAttribute dom itemref "idref" with
       | Some idref => if truthy idref then [idref] else []
       | None => []
       end)
    (getElementsByTagName dom opfDoc "itemref").

(** Step 6, first source: the navPoints of toc.ncx. *)
Definition visit_navPoint (tocMap : JSMap jsstring) (np : Element dom)
  : JSMap jsstring :=
  match getElementsByTagName_in dom np "text",
        getElementsByTagName_in dom np "content" with
  | textEl :: _, contentEl :: _ =>
      let label := trimmed_text textEl in
      let src := attr_or_empty (getAttribute dom contentEl "src") in
      let href := before_hash src in
      if truthy label && truthy href then map_set tocMap href label
      else tocMap
  | _, _ => tocMap
  end.

Definition toc_from_ncx (zip : Archive) (opfPath : jsstring)
    (manifestItems : JSMap ManifestItem) : result (JSMap jsstring) :=
  match find (fun e => jseqb (mediaType (snd e))
                             (js "application/x-dtbncx+xml"))
             manifestItems with
  | Some tocEntry =>
      tocPath <- Path.resolvePath opfPath (href (snd tocEntry)) ;;
      match zip tocPath with
      | Some tocContent =>
          let tocDoc := parseFromString dom tocContent text_xml in
          Ok (fold_left visit_navPoint
                (getElementsByTagName dom tocDoc "navPoint") [])
      | None => Ok []
      end
  | None => Ok []
  end.

(** Step 6, second source: the links of nav.xhtml, only when the first
    source gave nothing. *)
Definition visit_link (tocMap : JSMap jsstring) (a : Element dom)
  : JSMap jsstring :=
  let href := before_hash (attr_or_empty (getAttribute dom a "href")) in
  let label := trimmed_text a in
  if truthy href && truthy label then map_set tocMap href label else tocMap.

Definition toc_from_nav (zip : Archive) (opfPath : jsstring)
    (manifestItems : JSMap ManifestItem) (tocMap : JSMap jsstring)
  : result (JSMap jsstring) :=
  match find (fun e => includes (href (snd e)) (js "nav")
                       && includes (mediaType (snd e)) (js "html"))
             manifestItems with
  | Some navEntry =>
      if (List.length tocMap =? 0)%nat then
        navPath <- Path.resolvePath opfPath (href (snd navEntry)) ;;
        match zip navPath with
        | Some navContent =>
            let navDoc := parseFromString dom navContent text_html in
            Ok (fold_left visit_link
                  (querySelectorAll dom navDoc sel_toc_links) tocMap)
        | None => Ok tocMap
        end
      else Ok tocMap
  | None => Ok tocMap
  end.

(** Step 7: the title of an accepted chapter.  [accepted] is
    [chapters.length] at that moment. *)
Definition toc_lookup (tocMap : JSMap jsstring) (k : jsstring) : jsstring :=
  attr_or_empty (map_get tocMap k).

Definition chapter_label : jsstring := [31456; 33410; 32]%N.

Definition title_of (tocMap : JSMap jsstring) (item : ManifestItem)
    (doc : Document dom) (accepted : nat) : result jsstring :=
  title <-
    (if truthy (toc_lookup tocMap (href item))
     then Ok (toc_lookup tocMap (href item))
     else
       decoded <- decodeURIComponent (href item) ;;
       Ok (or_else (toc_lookup tocMap decoded) [])) ;;
  let title :=
    if negb (truthy title) then
      match first_truthy
              (map trimmed_text (querySelectorAll dom doc sel_headings)) with
      | Some t => t
      | None => title
      end
    else title in
  let title :=
    if negb (truthy title)
    then chapter_label ++ String_ (Int (Z.of_nat accepted + 1))
    else title in
  Ok title.

Definition count_words (paragraphs : list jsstring) : Z :=
  jslength (filter (fun c => negb (is_space c)) (join [] paragraphs)).

(** One turn of the loop over the spine; [continue] leaves [chapters] as it
    is. *)
Definition visit_spine_item (zip : Archive) (opfPath : jsstring)
    (manifestItems : JSMap ManifestItem) (tocMap : JSMap jsstring)
    (chapters : list Chapter) (itemId : jsstring) : result (list Chapter) :=
  match map_get manifestItems itemId with
  | None => Ok chapters
  | Some item =>
      if negb (includes (mediaType item) (js "html"))
         && negb (includes (mediaType item) (js "xml"))
      then Ok chapters
      else
        chapterPath <- Path.resolvePath opfPath (href item) ;;
        match zip chapterPath with
        | None => Ok chapters
        | Some content =>
            let doc := parseFromString dom content text_html in
            let paragraphs := extractParagraphs doc in
            if (List.length paragraphs =? 0)%nat then Ok chapters
            else
              title <- title_of tocMap item doc (List.length chapters) ;;
              let wordCount := count_words paragraphs in
              Ok (push chapters
                    {| title := title; paragraphs := paragraphs;
                       wordCount := wordCount |})
        end
  end.

Fixpoint visit_spine (zip : Archive) (opfPath : jsstring)
    (manifestItems : JSMap ManifestItem) (tocMap : JSMap jsstring)
    (spineIds : list jsstring) (chapters : list Chapter)
  : result (list Chapter) :=
  match spineIds with
  | [] => Ok chapters
  | itemId :: rest =>
      chapters <- visit_spine_item zip opfPath manifestItems tocMap
                    chapters itemId ;;
      visit_spine zip opfPath manifestItems tocMap rest chapters
  end.

Record Book : Type := {
  book_title : jsstring;
  chapters : list Chapter
}.

(** Steps 1 and 2: the path of the package document. *)
Definition opfPath_of (containerDoc : Document dom) : option jsstring :=
  match getElementsByTagName dom containerDoc "rootfile" with
  | rootfileEl :: _ => getAttribute dom rootfileEl "full-path"
  | [] => None
  end.

Definition parseEpub (zip : Archive) : result Book :=
  (* 1. Read container.xml *)
  match zip (js "META-INF/container.xml") with
  | None => Throw (Error "Invalid EPUB: missing container.xml")
  | Some containerXml =>
      let containerDoc := parseFromString dom containerXml text_xml in
      match opfPath_of containerDoc with
      | None | Some [] => Throw (Error "Invalid EPUB: cannot find OPF path")
      | Some opfPath =>
          (* 2. Read OPF *)
          match zip opfPath with
          | None => Throw (Error "Invalid EPUB: missing OPF file")
          | Some opfContent =>
              let opfDoc := parseFromString dom opfContent text_xml in
              let bookTitle := bookTitle_of opfDoc in
              let manifestItems := manifest_of opfDoc in
              let spineIds := spine_of opfDoc in
              tocMap <- toc_from_ncx zip opfPath manifestItems ;;
              tocMap <- toc_from_nav zip opfPath manifestItems tocMap ;;
              chapters <- visit_spine zip opfPath manifestItems tocMap
                            spineIds [] ;;
              Ok {| book_title := bookTitle; chapters := chapters |}
          end
      end
  end.

(** ** The ways ingestion can go wrong *)

(** The entry point is absent, or names no package document, or the package
    document it names is absent. *)
Definition malformed (zip : Archive) : Prop :=
  match zip (js "META-INF/container.xml") with
  | None => True
  | Some containerXml =>
      match opfPath_of (parseFromString dom containerXml text_xml) with
      | None | Some [] => True
      | Some opfPath => zip opfPath = None
      end
  end.

(** Every href of the manifest can be percent-decoded. *)
Definition decodable (s : jsstring) : Prop :=
  exists decoded, decodeURIComponent s = Ok decoded.

Definition hrefs_decodable (zip : Archive) : Prop :=
  forall containerXml opfPath opfContent,
    zip (js "META-INF/container.xml") = Some containerXml ->
    opfPath_of (parseFromString dom containerXml text_xml) = Some opfPath ->
    zip opfPath = Some opfContent ->
    Forall (fun e => decodable (href (snd e)))
           (manifest_of (parseFromString dom opfContent text_xml)).

(** The problems of a spine item: its id is not in the manifest; its media
    type is neither markup nor XML; its file is not in the archive; no tier
    of the extraction finds a paragraph. *)
Definition skipped (zip : Archive) (opfPath : jsstring)
    (manifestItems : JSMap ManifestItem) (itemId : jsstring) : Prop :=
  map_get manifestItems itemId = None
  \/ exists item,
       map_get manifestItems itemId = Some item
       /\ ((includes (mediaType item) (js "html") = false
            /\ includes (mediaType item) (js "xml") = false)
           \/ exists chapterPath,
                Path.resolvePath opfPath (href item) = Ok chapterPath
                /\ (zip chapterPath = None
                    \/ exists content,
                         zip chapterPath = Some content
                         /\ extractParagraphs
                              (parseFromString dom content text_html) = [])).

End WithDOM.

(** ** A document model to run the parser on

    Documents are trees of elements and text; the parser of a test is a
    table from file contents to trees. *)

#[warnings="-register-all"]
Inductive node : Type :=
  | Elem (tag : string) (attrs : list (string * jsstring))
         (children : list node)
  | Text (s : jsstring).

Definition tag_of (n : node) : string :=
  match n with
  | Elem t _ _ => t
  | Text _ => EmptyString
  end.

Definition attr_of (n : node) (name : string) : option jsstring :=
  match n with
  | Elem _ attrs _ =>
      option_map snd (find (fun a => String.eqb (fst a) name) attrs)
  | Text _ => None
  end.

(** The elements below a node, in document order. *)
Fixpoint descendants (n : node) : list node :=
  match n with
  | Elem _ _ cs =>
      flat_map (fun c => match c with
                         | Elem _ _ _ => c :: descendants c
                         | Text _ => []
                         end) cs
  | Text _ => []
  end.

Fixpoint text_of (n : node) : jsstring :=
  match n with
  | Elem _ _ cs => flat_map text_of cs
  | Text s => s
  end.

Definition by_tag (t : string) (l : list node) : list node :=
  filter (fun n => String.eqb (tag_of n) t) l.

Definition is_heading (n : node) : bool :=
  String.eqb (tag_of n) "h1" || String.eqb (tag_of n) "h2"
  || String.eqb (tag_of n) "h3" || String.eqb (tag_of n) "h4".

Definition is_toc_root (n : node) : bool :=
  String.eqb (tag_of n) "nav"
  || match attr_of n "epub:type" with
     | Some v => jseqb v (js "toc")
     | None => false
     end.

(** The anchors that have a navigation landmark above them. *)
Fixpoint toc_links (inside : bool) (n : node) : list node :=
  match n with
  | Elem _ _ cs =>
      flat_map (fun c =>
                  match c with
                  | Elem t _ _ =>
                      (if inside && String.eqb t "a" then [c] else [])
                      ++ toc_links (inside || is_toc_root c) c
                  | Text _ => []
                  end) cs
  | Text _ => []
  end.

Definition select (sel : selector) (root : node) : list node :=
  match sel with
  | sel_p => by_tag "p" (descendants root)
  | sel_div => by_tag "div" (descendants root)
  | sel_headings => filter is_heading (descendants root)
  | sel_toc_links => toc_links false root
  end.

Definition table_parser (table : list (jsstring * node)) (content : jsstring)
  : node :=
  match find (fun e => jseqb (fst e) content) table with
  | Some e => snd e
  | None => Elem "" [] []
  end.

(** The parser for [text/html] always gives a document with a body: markup
    without an [html] element at its root, such as the XML of a toc.ncx, is
    put into the body.  The parser for [text/xml] gives the tree as it is. *)
Definition as_html (n : node) : node :=
  if String.eqb (tag_of n) "html" then n
  else Elem "html" [] [Elem "head" [] []; Elem "body" [] [n]].

Definition parse_as (type : mime) (n : node) : node :=
  match type with
  | text_xml => n
  | text_html => as_html n
  end.

Definition tree_dom (table : list (jsstring * node)) : DOM :=
  {| Document := node;
     Element := node;
     parseFromString :=
       fun content type => parse_as type (table_parser table content);
     getElementsByTagName := fun doc t => by_tag t (descendants doc);
     getElementsByTagName_in := fun e t => by_tag t (descendants e);
     getAttribute := attr_of;
     textContent := text_of;
     querySelectorAll := fun doc sel => select sel doc;
     querySelector := fun e sel => hd_error (select sel e);
     body := fun doc => hd_error (by_tag "body" (descendants doc)) |}.

(** An archive given by its list of entries. *)
Definition archive_of (entries : list (jsstring * jsstring)) : Archive :=
  fun name => option_map snd (find (fun e => jseqb (fst e) name) entries).

(** ** Sample archives *)

Definition container_tree (fullPath : string) : node :=
  Elem "container" []
    [Elem "rootfiles" []
       [Elem "rootfile" [("full-path"%string, js fullPath)] []]].

Definition manifest_item (i h : string) : node :=
  Elem "item"
    [("id"%string, js i); ("href"%string, js h);
     ("media-type"%string, js "application/xhtml+xml")] [].

Definition package_tree (items : list node) (spine : list string) : node :=
  Elem "package" []
    [Elem "manifest" [] items;
     Elem "spine" []
       (map (fun i => Elem "itemref" [("idref"%string, js i)] []) spine)].

Definition chapter_tree (content : list node) : node :=
  Elem "html" [] [Elem "body" [] content].

(** A book whose only spine item has a stray percent sign in its href and
    no file in the archive. *)
Definition stray_percent_dom : DOM :=
  tree_dom
    [(js "container", container_tree "content.opf");
     (js "package",
      package_tree [manifest_item "c1" "100%.xhtml"] ["c1"%string])].

Definition stray_percent_archive : Archive :=
  archive_of
    [(js "META-INF/container.xml", js "container");
     (js "content.opf", js "package")].

(** A book of two spine items: the file of the first is absent, the second
    has a paragraph and no title anywhere. *)
Definition untitled_dom : DOM :=
  tree_dom
    [(js "container", container_tree "OEBPS/content.opf");
     (js "package",
      package_tree
        [manifest_item "c0" "missing.xhtml";
         manifest_item "c1" "text/ch1.xhtml"]
        ["c0"%string; "c1"%string]);
     (js "chapter one",
      chapter_tree [Elem "p" [] [Text (js " Hello world ")]])].

Definition untitled_manifest : JSMap ManifestItem :=
  [(js "c0", {| href := js "missing.xhtml";
                mediaType := js "application/xhtml+xml" |});
   (js "c1", {| href := js "text/ch1.xhtml";
                mediaType := js "application/xhtml+xml" |})].

Definition untitled_archive : Archive :=
  archive_of
    [(js "META-INF/container.xml", js "container");
     (js "OEBPS/content.opf", js "package");
     (js "OEBPS/text/ch1.xhtml", js "chapter one")].

(** A book of two chapters with a toc.ncx that is in the spine as well; the
    second chapter has its text in nested containers. *)
Definition nav_point (label src : string) : node :=
  Elem "navPoint" []
    [Elem "navLabel" [] [Elem "text" [] [Text (js label)]];
     Elem "content" [("src"%string, js src)] []].

Definition titled_dom : DOM :=
  tree_dom
    [(js "container", container_tree "OEBPS/content.opf");
     (js "package",
      package_tree
        [Elem "item"
           [("id"%string, js "ncx"); ("href"%string, js "toc.ncx");
            ("media-type"%string, js "application/x-dtbncx+xml")] [];
         manifest_item "a" "a.xhtml";
         manifest_item "b" "b%20c.xhtml"]
        ["a"%string; "ncx"%string; "b"%string; "nowhere"%string]);
     (js "toc",
      Elem "ncx" []
        [Elem "navMap" []
           [nav_point " One " "a.xhtml#top"; nav_point "Two" "b c.xhtml"]]);
     (js "A",
      chapter_tree
        [Elem "h1" [] [Text (js "Heading A")];
         Elem "p" [] [Text (js "first one")];
         Elem "p" [] [Text (js "  ")]]);
     (js "B",
      chapter_tree
        [Elem "h2" [] [Text (js "Heading B")];
         Elem "div" [] [Elem "div" [] [Text (js "inner")];
                        Text (js " outer")]])].

Definition titled_archive : Archive :=
  archive_of
    [(js "META-INF/container.xml", js "container");
     (js "OEBPS/content.opf", js "package");
     (js "OEBPS/toc.ncx", js "toc");
     (js "OEBPS/a.xhtml", js "A");
     (js "OEBPS/b c.xhtml", js "B")].

End Epub.

(* ================================================================== *)
(** * Pagination *)
(* ================================================================== *)

Module Pagination.

(** Heights and the layout parameters are JavaScript numbers, that is
    doubles.  They are modelled as rational numbers: a sum, a difference or a
    product is exact here where the program rounds it, so that a comparison
    of sums can come out differently in the program.  What is proved about
    the engine holds whatever the comparisons give: the proofs use the
    outcome of each comparison and nothing of the arithmetic behind it, and
    no bound on the height of a page is stated. *)

Local Open Scope Q_scope.

Record PageParagraph : Type := {
  text : jsstring;          (* displayed text, maybe a fragment *)
  fullText : jsstring;      (* original full paragraph text *)
  isContinuation : bool     (* continues from the previous page *)
}.

Record PageData : Type := {
  paragraphs : list PageParagraph;
  showTitle : bool
}.

(** What the style sheet of a measurer fixes. *)
Record Style : Type := {
  width : Q;
  font_size : Q;
  line_height : Q;
  semibold : bool
}.

(** The state of the loops of [paginateParagraphs]. *)
Record State : Type := {
  pages : list PageData;
  currentPageParas : list PageParagraph;
  currentHeight : Q
}.

(** How one turn of the [while] loop ends. *)
Inductive Turn : Type :=
  | Continue (st : State) (remaining : jsstring) (isFirstFragment : bool)
  | Break (st : State).

Definition wrapParas (ps : list jsstring) : list PageParagraph :=
  map (fun p => {| text := p; fullText := p; isContinuation := false |}) ps.

(** [Math.round]. *)
Definition round (x : Q) : Q := inject_Z (Qfloor (x + (1 # 2))).

(** [pages.push({ paragraphs: currentPageParas, showTitle: pages.length === 0 })]
    followed by the reset of the current page. *)
Definition flush (st : State) : State :=
  {| pages := push (pages st)
                {| paragraphs := currentPageParas st;
                   showTitle := (List.length (pages st) =? 0)%nat |};
     currentPageParas := [];
     currentHeight := 0 |}.

Section WithMeasurer.

(** The layout engine of the browser: [offsetHeight] of an off-screen block
    with the given style and text. *)
Variable offsetHeight : Style -> jsstring -> Q.

(** Binary search for the maximum number of code units that fit within
    [maxHeight].  [None]: the loop was cut short by [fuel]. *)
Fixpoint findSplitPoint_loop (fuel : nat) (text : jsstring) (maxHeight : Q)
    (measurer : Style) (lo hi best : Z) : option Z :=
  if (lo <=? hi)%Z then
    match fuel with
    | O => None
    | S fuel' =>
        let mid := ((lo + hi) / 2)%Z in
        if Qle_bool (offsetHeight measurer (substring text 0 mid)) maxHeight
        then findSplitPoint_loop fuel' text maxHeight measurer
               (mid + 1)%Z hi mid
        else findSplitPoint_loop fuel' text maxHeight measurer
               lo (mid - 1)%Z best
    end
  else Some best.

Definition findSplitPoint (text : jsstring) (maxHeight : Q)
    (measurer : Style) : option Z :=
  findSplitPoint_loop (List.length text) text maxHeight measurer
    1%Z (jslength text - 1)%Z 0%Z.

Variables (availableHeight fontSize lineHeight paragraphSpacing
           containerWidth : Q).

Definition safeHeight : Q := availableHeight - 8.

Definition measurer : Style :=
  {| width := containerWidth; font_size := fontSize;
     line_height := lineHeight; semibold := false |}.

Definition spacingPx : Q := paragraphSpacing * fontSize.
Definition minLineHeight : Q := fontSize * lineHeight.

Definition titleFontSize : Q := round (fontSize * 1.25).

Definition titleMeasurer : Style :=
  {| width := containerWidth; font_size := titleFontSize;
     line_height := 1.4; semibold := true |}.

(** [currentHeight] before the first paragraph. *)
Definition titleHeight (chapterTitle : option jsstring) : Q :=
  match chapterTitle with
  | Some t =>
      if truthy t then offsetHeight titleMeasurer t + fontSize * 1.5 else 0
  | None => 0
  end.

(** One turn of the [while] loop, entered with [remaining] not empty.
    [None]: the binary search was cut short. *)
Definition whileBody (st : State) (fullText remaining : jsstring)
    (isFirstFragment : bool) : option Turn :=
  let paraHeight := offsetHeight measurer remaining in
  let gap :=
    if (0 <? List.length (currentPageParas st))%nat then spacingPx else 0 in
  let needed := paraHeight + gap in
  let space := safeHeight - currentHeight st in
  let fragment (t : jsstring) :=
    {| text := t; fullText := fullText;
       isContinuation := negb isFirstFragment |} in
  if Qle_bool needed space then
    (* Whole remaining text fits on current page *)
    Some (Break {| pages := pages st;
                   currentPageParas :=
                     push (currentPageParas st) (fragment remaining);
                   currentHeight := currentHeight st + needed |})
  else
    (* Doesn't fit, try to split *)
    let spaceForText := space - gap in
    let not_split :=
      (* Not enough space or couldn't split *)
      if (0 <? List.length (currentPageParas st))%nat then
        (* Flush current page, retry this text on a fresh page *)
        Continue (flush st) remaining isFirstFragment
      else
        (* Single paragraph taller than a full page: force add *)
        Break (flush {| pages := pages st;
                        currentPageParas :=
                          push (currentPageParas st) (fragment remaining);
                        currentHeight := currentHeight st |}) in
    if Qle_bool minLineHeight spaceForText then
      match findSplitPoint remaining spaceForText measurer with
      | None => None
      | Some splitIdx =>
          if (0 <? splitIdx)%Z then
            Some (Continue
                    (flush {| pages := pages st;
                              currentPageParas :=
                                push (currentPageParas st)
                                  (fragment (substring remaining 0 splitIdx));
                              currentHeight := currentHeight st |})
                    (substring_from remaining splitIdx)
                    false)
          else Some not_split
      end
    else Some not_split.

(** [while (remaining.length > 0)].  [None]: cut short by [fuel]. *)
Fixpoint whileLoop (fuel : nat) (st : State) (fullText remaining : jsstring)
    (isFirstFragment : bool) : option State :=
  if (0 <? jslength remaining)%Z then
    match fuel with
    | O => None
    | S fuel' =>
        match whileBody st fullText remaining isFirstFragment with
        | None => None
        | Some (Break st') => Some st'
        | Some (Continue st' remaining' isFirstFragment') =>
            whileLoop fuel' st' fullText remaining' isFirstFragment'
        end
    end
  else Some st.

(** Turns that are enough for a paragraph: [variant] is at most this when
    the loop is entered, and goes down with every turn that continues. *)
Definition turns (fullText : jsstring) : nat := 2 * List.length fullText + 1.

(** [for (let i = 0; i < allParagraphs.length; i++)]. *)
Fixpoint forLoop (allParagraphs : list jsstring) (st : State)
  : option State :=
  match allParagraphs with
  | [] => Some st
  | fullText :: rest =>
      match whileLoop (turns fullText) st fullText fullText true with
      | Some st' => forLoop rest st'
      | None => None
      end
  end.

(** [None] would mean that a loop did not come to its end within the turns
    allotted to it; it is shown below that this never happens. *)
Definition paginateParagraphs (allParagraphs : list jsstring)
    (chapterTitle : option jsstring) : option (list PageData) :=
  if (List.length allParagraphs =? 0)%nat
     || Qle_bool availableHeight 0 || Qle_bool containerWidth 0
  then Some [{| paragraphs := wrapParas allParagraphs; showTitle := true |}]
  else
    let st := {| pages := []; currentPageParas := [];
                 currentHeight := titleHeight chapterTitle |} in
    match forLoop allParagraphs st with
    | None => None
    | Some st =>
        let st :=
          if (0 <? List.length (currentPageParas st))%nat then flush st
          else st in
        Some (if (0 <? List.length (pages st))%nat then pages st
              else [{| paragraphs := wrapParas allParagraphs;
                       showTitle := true |}])
    end.

End WithMeasurer.

(** A synthetic measurer for running the engine: lines of [perLine] code
    units, each [lineUnits] high; the empty text has height 0. *)
Definition fixed_width (perLine : Z) (lineUnits : Q) (st : Style)
    (t : jsstring) : Q :=
  inject_Z ((jslength t + perLine - 1) / perLine) * lineUnits.

(** ** What is on the pages *)

(** All fragments of a page list, in page order. *)
Definition fragments (ps : list PageData) : list PageParagraph :=
  flat_map paragraphs ps.

(** The fragments placed so far: those of the flushed pages, then those of
    the page being filled. *)
Definition placed (st : State) : list PageParagraph :=
  fragments (pages st) ++ currentPageParas st.

(** The fragments [g], in order, are the pieces of paragraph [p]: there is a
    first one, it is the only one that is not a continuation, all carry [p]
    as their full text, and their texts put together are [p]. *)
Definition pieces_of (p : jsstring) (g : list PageParagraph) : Prop :=
  exists first rest,
    g = first :: rest
    /\ isContinuation first = false
    /\ Forall (fun f => isContinuation f = true) rest
    /\ Forall (fun f => fullText f = p) g
    /\ List.concat (map text g) = p.

(** The fragment pushed for the text [t] of a paragraph. *)
Definition piece (fullText : jsstring) (isFirstFragment : bool)
    (t : jsstring) : PageParagraph :=
  {| text := t; fullText := fullText;
     isContinuation := negb isFirstFragment |}.

(** No flushed page is empty. *)
Definition well_paged (st : State) : Prop :=
  Forall (fun pg => paragraphs pg <> []) (pages st).

(** What a run of the [while] loop adds for one paragraph. *)
Definition adds (full remaining : jsstring) (isFirstFragment : bool)
    (g : list PageParagraph) : Prop :=
  List.concat (map text g) = remaining
  /\ Forall (fun f => fullText f = full) g
  /\ Forall (fun f => text f <> []) g
  /\ match g with
     | [] => remaining = []
     | f :: r =>
         remaining <> []
         /\ isContinuation f = negb isFirstFragment
         /\ Forall (fun x => isContinuation x = true) r
     end.

(** The page of the degenerate cases. *)
Definition unsplit (allParagraphs : list jsstring) : list PageData :=
  [{| paragraphs := wrapParas allParagraphs; showTitle := true |}].

(** What goes down with every turn of the [while] loop that continues. *)
Definition variant (st : State) (remaining : jsstring) : nat :=
  2 * List.length remaining
  + (if (0 <? List.length (currentPageParas st))%nat then 1 else 0).


(** ** Sample inputs *)

(** Ten units to the line, lines 20 high, a page of 100 (92 after the safety
    margin), font size 18, line height 1, no spacing. *)
Definition sample (allParagraphs : list jsstring)
    (chapterTitle : option jsstring) : option (list PageData) :=
  paginateParagraphs (fixed_width 10 20) 100 18 1 0 300
    allParagraphs chapterTitle.

(** The same measurer, written differently. *)
Definition fixed_width' (perLine : Z) (lineUnits : Q) (st : Style)
    (t : jsstring) : Q :=
  fixed_width perLine lineUnits st (t ++ []).

(** Two paragraphs, of four lines and of two. *)
Definition first_paragraph : jsstring :=
  js "0123456789012345678901234567890123456789".

Definition second_paragraph : jsstring := js "abcdefghijabcdefghij".


End Pagination.


(* ================================================================== *)
(** * The window of chapters rendered in scroll mode *)
(* ================================================================== *)

Module Window.

Local Open Scope Z_scope.

(** [scrollChapterRange]. *)
Record Range : Type := {
  start : Z;
  end_ : Z
}.

(** The state the scroll handler works on: the range and the lock that
    keeps a second prepend from starting before the first is rendered. *)
Record Loader : Type := {
  scrollChapterRange : Range;
  prependLock : bool
}.

Section WithBook.

Variable chapterCount : Z.

(** The functional updates handed to [setScrollChapterRange]. *)
Definition extend_end (prev : Range) : Range :=
  if end_ prev <? chapterCount - 1
  then {| start := start prev; end_ := end_ prev + 1 |}
  else prev.

Definition extend_start (prev : Range) : Range :=
  if 0 <? start prev
  then {| start := start prev - 1; end_ := end_ prev |}
  else prev.

(** [handleScroll], for its effect on the loader.  [seen] is the range of
    the render the callback was created in; [nearBottom] and [nearTop] are
    the two tests on the scroll position.  A call that returns at once
    (another read mode, no content element, a jump under way) changes
    nothing and is no event. *)
Definition handleScroll (seen : Range) (nearBottom nearTop : bool)
    (st : Loader) : Loader :=
  let st :=
    if nearBottom && (end_ seen <? chapterCount - 1)
    then {| scrollChapterRange := extend_end (scrollChapterRange st);
            prependLock := prependLock st |}
    else st in
  if nearTop && (0 <? start seen) && negb (prependLock st)
  then {| scrollChapterRange := extend_start (scrollChapterRange st);
          prependLock := true |}
  else st.

(** The second animation frame after a prepend: the lock is released. *)
Definition frame (st : Loader) : Loader :=
  {| scrollChapterRange := scrollChapterRange st; prependLock := false |}.

Definition goToChapter (index : Z) (st : Loader) : Loader :=
  {| scrollChapterRange := {| start := index; end_ := index |};
     prependLock := prependLock st |}.

(** The events of the scroll handler and of the table of contents.  The
    range has two writers more, the frame of auto play and the jump to a
    quote: module [RangeWriters] has the events of all four. *)
Inductive Event : Type :=
  | Scroll (seen : Range) (nearBottom nearTop : bool)
  | Frame
  | GoToChapter (index : Z).

Definition react (st : Loader) (e : Event) : Loader :=
  match e with
  | Scroll seen nearBottom nearTop => handleScroll seen nearBottom nearTop st
  | Frame => frame st
  | GoToChapter index => goToChapter index st
  end.

Definition run (st : Loader) (events : list Event) : Loader :=
  fold_left react events st.

(** The table of contents has one button per chapter: [goToChapter] is
    called with an index of [bookMeta.chapterMeta]. *)
Definition from_toc (e : Event) : Prop :=
  match e with
  | GoToChapter index => 0 <= index < chapterCount
  | _ => True
  end.

Definition invariant (r : Range) : Prop :=
  0 <= start r /\ start r <= end_ r /\ end_ r <= chapterCount - 1.

(** A scroll near the bottom (near the top), handled by the callback of the
    current render. *)
Definition bottom_signal (st : Loader) : Loader :=
  handleScroll (scrollChapterRange st) true false st.

Definition top_signal (st : Loader) : Loader :=
  handleScroll (scrollChapterRange st) false true st.

End WithBook.

Definition initial (chapterIndex : Z) : Loader :=
  {| scrollChapterRange := {| start := chapterIndex; end_ := chapterIndex |};
     prependLock := false |}.

End Window.

(* ================================================================== *)
(** * Shapes of results *)
(* ================================================================== *)

Module Shapes.

(** The first code unit, if there is one, is no white space. *)
Definition head_ok (s : jsstring) : bool :=
  match s with
  | c :: _ => negb (is_space c)
  | [] => true
  end.

(** A text with something in it and no white space at either end. *)
Definition trimmed (p : jsstring) : Prop := p <> [] /\ trim p = p.

(** What every chapter that comes out of ingestion looks like. *)
Definition chapter_ok (c : Epub.Chapter) : Prop :=
  Epub.title c <> []
  /\ Epub.paragraphs c <> []
  /\ Forall trimmed (Epub.paragraphs c)
  /\ (Z.of_nat (List.length (Epub.paragraphs c)) <= Epub.wordCount c
      <= jslength (join [] (Epub.paragraphs c)))%Z.

(** The ids of the spine of an archive that is not malformed. *)
Definition spine_ids (dom : Epub.DOM) (zip : Epub.Archive) : list jsstring :=
  match zip (js "META-INF/container.xml") with
  | Some containerXml =>
      match Epub.opfPath_of dom
              (Epub.parseFromString dom containerXml Epub.text_xml) with
      | Some opfPath =>
          match zip opfPath with
          | Some opfContent =>
              Epub.spine_of dom
                (Epub.parseFromString dom opfContent Epub.text_xml)
          | None => []
          end
      | None => []
      end
  | None => []
  end.

(** What a navPoint contributes to the TOC map: the href of its first
    content element, without fragment, and the trimmed text of its first
    text element, when both are there and not empty. *)
Definition nav_entry (dom : Epub.DOM) (np : Epub.Element dom)
  : option (jsstring * jsstring) :=
  match Epub.getElementsByTagName_in dom np "text",
        Epub.getElementsByTagName_in dom np "content" with
  | textEl :: _, contentEl :: _ =>
      let label := Epub.trimmed_text dom textEl in
      let href :=
        Epub.before_hash
          (Epub.attr_or_empty (Epub.getAttribute dom contentEl "src")) in
      if truthy label && truthy href then Some (href, label) else None
  | _, _ => None
  end.

(** The label of the last entry for [href]. *)
Fixpoint last_label (entries : list (jsstring * jsstring)) (href : jsstring)
  : option jsstring :=
  match entries with
  | [] => None
  | (h, l) :: rest =>
      match last_label rest href with
      | Some l' => Some l'
      | None => if jseqb h href then Some l else None
      end
  end.

End Shapes.

(* ================================================================== *)
(** * What a page holds *)
(* ================================================================== *)

Module Layout.

Import Pagination.

Local Open Scope Q_scope.

(** Only the first fragment of a page may continue a paragraph. *)
Definition continues_at_top (fs : list PageParagraph) : Prop :=
  Forall (fun f => isContinuation f = false) (tl fs).

(** What the loops keep: on every page, and on the page being filled, only
    the first fragment may be a continuation. *)
Definition tidy (st : State) : Prop :=
  Forall (fun pg => continues_at_top (paragraphs pg)) (pages st)
  /\ continues_at_top (currentPageParas st).

(** The [showTitle] flags of [n] pages pushed one after the other: each is
    [pages.length === 0] at the time of its push. *)
Definition title_flags (n : nat) : list bool :=
  match n with
  | O => []
  | S k => true :: repeat false k
  end.

Section WithMeasurer.

Variable offsetHeight : Style -> jsstring -> Q.

Variables (availableHeight fontSize lineHeight paragraphSpacing
           containerWidth : Q).

(** The test of the binary search on the prefix of [k] code units. *)
Definition prefix_fits (text : jsstring) (maxHeight : Q) (m : Style)
    (k : Z) : bool :=
  Qle_bool (offsetHeight m (substring text 0 k)) maxHeight.

(** [gap] of a turn of the [while] loop. *)
Definition gap (st : State) : Q :=
  if (0 <? List.length (currentPageParas st))%nat
  then spacingPx fontSize paragraphSpacing else 0.

End WithMeasurer.

End Layout.

(* ================================================================== *)
(** * The reader *)
(* ================================================================== *)

Module Reader.

Local Open Scope Z_scope.

(** [array[i]] for a number [i]. *)
Definition at_ (A : Type) (l : list A) (i : Z) : option A :=
  if i <? 0 then None else nth_error l (Z.to_nat i).

(** [for (let i = 0; i < l.length; i++) if (p(l[i])) return i]. *)
Fixpoint findIndex (A : Type) (p : A -> bool) (l : list A) : option Z :=
  match l with
  | [] => None
  | x :: r => if p x then Some 0 else option_map Z.succ (findIndex p r)
  end.

(** What a reference to a string holds when the reference is truthy. *)
Definition truthy_ref (r : option jsstring) : option jsstring :=
  match r with
  | Some s => if truthy s then Some s else None
  | None => None
  end.

(** ** Where the reader is within the chapter (page turn mode) *)

Record View : Type := {
  pageIndex : Z;
  pendingTarget : option jsstring;      (* pendingTargetRef.current *)
  currentFirstPara : option jsstring    (* currentFirstPara.current *)
}.

(** The effect on [pageIndex, pages]: the first paragraph of the page shown
    is remembered. *)
Definition trackFirstPara (pages : list Pagination.PageData) (v : View)
  : View :=
  match at_ pages (pageIndex v) with
  | Some page =>
      match Pagination.paragraphs page with
      | first :: _ =>
          {| pageIndex := pageIndex v;
             pendingTarget := pendingTarget v;
             currentFirstPara := Some (Pagination.fullText first) |}
      | [] => v
      end
  | None => v
  end.

(** [pp.fullText.includes(target) || target.includes(pp.fullText)]. *)
Definition holds (target : jsstring) (pp : Pagination.PageParagraph) : bool :=
  includes (Pagination.fullText pp) target
  || includes target (Pagination.fullText pp).

(** [pp.fullText === currentFirstPara.current]. *)
Definition is_para (current : jsstring) (pp : Pagination.PageParagraph)
  : bool :=
  jseqb (Pagination.fullText pp) current.

(** The functional update of [pageIndex] when the pages have changed. *)
Definition reposition (pages : list Pagination.PageData)
    (currentFirstPara : option jsstring) (prev : Z) : Z :=
  if prev =? 999 then Z.of_nat (List.length pages) - 1
  else
    let clamped :=
      if Z.of_nat (List.length pages) <=? prev
      then Z.of_nat (List.length pages) - 1 else prev in
    match truthy_ref currentFirstPara with
    | Some current =>
        match findIndex
                (fun pg => existsb (is_para current) (Pagination.paragraphs pg))
                pages with
        | Some i => i
        | None => clamped
        end
    | None => clamped
    end.

(** The effect on [pages, paginationVersion]. *)
Definition onPagesChange (pages : list Pagination.PageData) (v : View)
  : View :=
  if (List.length pages =? 0)%nat then v
  else
    match truthy_ref (pendingTarget v) with
    | Some target =>
        {| pageIndex :=
             match findIndex
                     (fun pg => existsb (holds target)
                                  (Pagination.paragraphs pg))
                     pages with
             | Some i => i
             | None => 0
             end;
           pendingTarget := None;
           currentFirstPara := currentFirstPara v |}
    | None =>
        {| pageIndex := reposition pages (currentFirstPara v) (pageIndex v);
           pendingTarget := pendingTarget v;
           currentFirstPara := currentFirstPara v |}
    end.

(** What a change of the pages sets off.  Both effects depend on [pages];
    they run in the order they are declared, the one that remembers the
    first paragraph before the one that repositions. *)
Definition pagesChanged (pages : list Pagination.PageData) (v : View)
  : View :=
  onPagesChange pages (trackFirstPara pages v).

(** [handleNavigateToChapter]: the first line of the quote is the target. *)
Definition targetText (quoteText : jsstring) : jsstring :=
  match split 10 quoteText with
  | line :: _ => line
  | [] => []
  end.

(** ** Turning pages *)

Record Turner : Type := {
  currentChapterIndex : Z;
  page : Z;
  isAutoPlaying : bool
}.

(** [handlePrevPage] and [handleNextPage] in page turn mode.  [seen] holds
    the values of the render the callback was created in; the updates are
    functional. *)
Definition handlePrevPage (seen st : Turner) : Turner :=
  if 0 <? page seen then
    {| currentChapterIndex := currentChapterIndex st;
       page := page st - 1;
       isAutoPlaying := isAutoPlaying st |}
  else if 0 <? currentChapterIndex seen then
    {| currentChapterIndex := currentChapterIndex st - 1;
       page := 999;
       isAutoPlaying := isAutoPlaying st |}
  else st.

Definition handleNextPage (pagesLength chapterCount : Z) (seen st : Turner)
  : Turner :=
  if page seen <? pagesLength - 1 then
    {| currentChapterIndex := currentChapterIndex st;
       page := page st + 1;
       isAutoPlaying := isAutoPlaying st |}
  else if currentChapterIndex seen <? chapterCount - 1 then
    {| currentChapterIndex := currentChapterIndex st + 1;
       page := 0;
       isAutoPlaying := isAutoPlaying st |}
  else st.

(** One [tick] of auto play in page turn mode. *)
Definition tick (pagesLength chapterCount : Z) (seen st : Turner) : Turner :=
  let maxPage := pagesLength - 1 in
  if page st <? maxPage then
    {| currentChapterIndex := currentChapterIndex st;
       page := page st + 1;
       isAutoPlaying := isAutoPlaying st |}
  else if currentChapterIndex seen <? chapterCount - 1 then
    {| currentChapterIndex := currentChapterIndex st + 1;
       page := 0;
       isAutoPlaying := isAutoPlaying st |}
  else
    {| currentChapterIndex := currentChapterIndex st;
       page := page st;
       isAutoPlaying := false |}.

(** ** Quotes *)

(** The source line of a quote: the book title between the marks U+300A and
    U+300B, then the chapter title. *)
Definition source_of (bookTitle ct : jsstring) : jsstring :=
  [12298%N] ++ bookTitle ++ [12299%N] ++ ct.

(** The quote that [addQuote] hands to [onAddQuote].  An exception of
    [getNextId] leaves the callback before anything is handed on. *)
Definition addQuote (max_arguments : Z) (quotes : list Ids.QuoteItem)
    (startingId : number) (bookTitle : jsstring) (bookTags : list jsstring)
    (text : jsstring) (ci : Z) (ct : jsstring) (author : option jsstring)
  : result Ids.QuoteItem :=
  match Ids.getNextId max_arguments quotes startingId with
  | Ok id =>
      Ok {| Ids.id := id;
            Ids.text := text;
            Ids.author := author;
            Ids.source := Some (source_of bookTitle ct);
            Ids.tags := Some bookTags;
            Ids.chapterIndex := ci;
            Ids.chapterTitle := ct |}
  | Throw e => Throw e
  end.

(** The updates of the quote list in the application. *)
Definition handleAddQuote (prev : list Ids.QuoteItem) (quote : Ids.QuoteItem)
  : list Ids.QuoteItem :=
  prev ++ [quote].

Definition handleRemoveQuote (prev : list Ids.QuoteItem) (id : jsstring)
  : list Ids.QuoteItem :=
  filter (fun q => negb (jseqb (Ids.id q) id)) prev.

(** What a handler of the reader asks for. *)
Inductive Request : Type :=
  | RemoveQuote (id : jsstring)
  | PickAuthor (text : jsstring) (chapterIndex : Z) (chapterTitle : jsstring)
  | AddQuote (quote : Ids.QuoteItem)
  | NoRequest.

(** The request for the quote of [addQuote]. *)
Definition asks (quote : result Ids.QuoteItem) : result Request :=
  match quote with
  | Ok q => Ok (AddQuote q)
  | Throw e => Throw e
  end.

(** [handleSetQuote] on the paragraph of the action menu. *)
Definition handleSetQuote (max_arguments : Z) (quotes : list Ids.QuoteItem)
    (authors : list jsstring) (startingId : number)
    (bookTitle : jsstring) (bookTags : list jsstring)
    (text : jsstring) (ci : Z) (ct : jsstring) : result Request :=
  if existsb (fun q => jseqb (Ids.text q) text) quotes then
    match find (fun q => jseqb (Ids.text q) text) quotes with
    | Some q => Ok (RemoveQuote (Ids.id q))
    | None => Ok NoRequest
    end
  else if (0 <? List.length authors)%nat then Ok (PickAuthor text ci ct)
  else asks (addQuote max_arguments quotes startingId bookTitle bookTags
               text ci ct None).

(** [handleSelectAuthor] on the paragraph of the author picker. *)
Definition handleSelectAuthor (max_arguments : Z)
    (quotes : list Ids.QuoteItem)
    (startingId : number) (bookTitle : jsstring) (bookTags : list jsstring)
    (text : jsstring) (ci : Z) (ct : jsstring) (author : option jsstring)
  : result Request :=
  asks (addQuote max_arguments quotes startingId bookTitle bookTags
          text ci ct author).

(** The application serves a request. *)
Definition serve (prev : list Ids.QuoteItem) (r : Request)
  : list Ids.QuoteItem :=
  match r with
  | RemoveQuote id => handleRemoveQuote prev id
  | AddQuote quote => handleAddQuote prev quote
  | PickAuthor _ _ _ | NoRequest => prev
  end.

(** The quote list after a handler has run: a handler that throws has asked
    for nothing. *)
Definition served (prev : list Ids.QuoteItem) (r : result Request)
  : list Ids.QuoteItem :=
  match r with
  | Ok request => serve prev request
  | Throw _ => prev
  end.

(** ** Selecting several paragraphs

    A [Set] of strings, in insertion order. *)
Definition has (s : list jsstring) (x : jsstring) : bool :=
  existsb (jseqb x) s.

Definition handleTogglePara (text : jsstring) (prev : list jsstring)
  : list jsstring :=
  if has prev text then filter (fun y => negb (jseqb y text)) prev
  else prev ++ [text].

(** [chapter.paragraphs.filter(p => selectedParas.has(p)).join('\n')]. *)
Definition mergedText (paragraphs selectedParas : list jsstring) : jsstring :=
  join [10%N] (filter (has selectedParas) paragraphs).

Definition handleConfirmMultiSelect (max_arguments : Z)
    (quotes : list Ids.QuoteItem)
    (authors : list jsstring) (startingId : number)
    (bookTitle : jsstring) (bookTags : list jsstring)
    (selectedParas : list jsstring) (chapter : option (list jsstring))
    (ci : Z) (ct : jsstring) : result Request :=
  if (List.length selectedParas =? 0)%nat then Ok NoRequest
  else
    match chapter with
    | None => Ok NoRequest
    | Some paragraphs =>
        let mergedText := mergedText paragraphs selectedParas in
        if (0 <? List.length authors)%nat then Ok (PickAuthor mergedText ci ct)
        else asks (addQuote max_arguments quotes startingId bookTitle
                     bookTags mergedText ci ct None)
    end.

(** ** Tags and authors

    [handleAddAuthor] and [handleAddTag] of the settings page, for the list
    they hand on; [None]: nothing is handed on. *)
Definition add_entry (input : jsstring) (entries : list jsstring)
  : option (list jsstring) :=
  let trimmed := trim input in
  if truthy trimmed && negb (has entries trimmed)
  then Some (entries ++ [trimmed]) else None.

(** [handleRemoveAuthor] and [handleRemoveTag]. *)
Definition remove_entry (entry : jsstring) (entries : list jsstring)
  : list jsstring :=
  filter (fun t => negb (jseqb t entry)) entries.

(** The tag editor of the upload page. *)
Record Editor : Type := {
  tags : list jsstring;
  tagInput : jsstring
}.

Inductive Key : Type :=
  | Enter
  | Comma
  | Backspace
  | OtherKey.

Definition handleAddTag (seen st : Editor) : Editor :=
  let trimmed := trim (tagInput seen) in
  if truthy trimmed && negb (has (tags seen) trimmed)
  then {| tags := tags st ++ [trimmed]; tagInput := [] |}
  else st.

Definition handleTagKeyDown (key : Key) (seen st : Editor) : Editor :=
  match key with
  | Enter | Comma => handleAddTag seen st
  | Backspace =>
      if jseqb (tagInput seen) [] && (0 <? List.length (tags seen))%nat
      then {| tags := removelast (tags st); tagInput := tagInput st |}
      else st
  | OtherKey => st
  end.

Definition handleRemoveTag (tag : jsstring) (st : Editor) : Editor :=
  {| tags := filter (fun t => negb (jseqb t tag)) (tags st);
     tagInput := tagInput st |}.

(** ** What holds of the lists *)

(** An identifier written by [formatId] from a natural number below
    [bound]. *)
Definition natural_id (bound : Z) (s : jsstring) : Prop :=
  exists n : N, Z.of_N n < bound /\ s = Ids.formatId (Int (Z.of_N n)).

(** The identifiers of the quotes are such identifiers, all different. *)
Definition ids_ok (bound : Z) (quotes : list Ids.QuoteItem) : Prop :=
  NoDup (map Ids.id quotes)
  /\ Forall (fun q => natural_id bound (Ids.id q)) quotes.

(** A page that shows a fragment of paragraph [p]. *)
Definition shows (p : jsstring) (pg : Pagination.PageData) : bool :=
  existsb (is_para p) (Pagination.paragraphs pg).

(** Entries with something in them, without white space at the ends, all
    different. *)
Definition entries_ok (entries : list jsstring) : Prop :=
  NoDup entries /\ Forall Shapes.trimmed entries.

(** What the user does to the quote list from the reader: a quote is added
    (with the settings and the book of that moment), or removed. *)
Inductive Edit : Type :=
  | Add (startingId : N) (bookTitle : jsstring) (bookTags : list jsstring)
        (text : jsstring) (ci : Z) (ct : jsstring) (author : option jsstring)
  | Remove (id : jsstring).

Definition edit (max_arguments : Z) (quotes : list Ids.QuoteItem)
    (e : Edit) : list Ids.QuoteItem :=
  match e with
  | Add startingId bookTitle bookTags text ci ct author =>
      match addQuote max_arguments quotes (Int (Z.of_N startingId))
              bookTitle bookTags text ci ct author with
      | Ok quote => handleAddQuote quotes quote
      | Throw _ => quotes
      end
  | Remove id => handleRemoveQuote quotes id
  end.

(** The starting identifier of an addition, 0 for a removal. *)
Definition starting (e : Edit) : Z :=
  match e with
  | Add startingId _ _ _ _ _ _ => Z.of_N startingId
  | Remove _ => 0
  end.

(** ** Sample inputs *)

(** A paragraph of two lines that starts on the first page and ends on the
    second, where another follows. *)
Definition split_paragraph : jsstring := js "first line, and the second".

Definition page_one : Pagination.PageData :=
  {| Pagination.paragraphs :=
       [Pagination.piece (js "opening") true (js "opening");
        Pagination.piece split_paragraph true (js "first line, ")];
     Pagination.showTitle := true |}.

Definition page_two : Pagination.PageData :=
  {| Pagination.paragraphs :=
       [Pagination.piece split_paragraph false (js "and the second");
        Pagination.piece (js "closing") true (js "closing")];
     Pagination.showTitle := false |}.

(** The reader on the second page. *)
Definition on_page_two : View :=
  {| pageIndex := 1; pendingTarget := None; currentFirstPara := None |}.

(** A quote of two paragraphs, the second of them with two lines. *)
Definition two_paragraphs : list jsstring :=
  [js "opening"; [115; 101; 99; 111; 110; 100; 10; 108; 105; 110; 101]%N].

(** The reader as a jump to that quote leaves it. *)
Definition jumping : View :=
  {| pageIndex := 0;
     pendingTarget := Some (js "opening");
     currentFirstPara := None |}.

End Reader.

(* ================================================================== *)
(** * The database *)
(* ================================================================== *)

Module Store.

Local Open Scope Z_scope.

(** ** Object stores

    An object store with a key path holds at most one record for a key; its
    records are kept, and handed out by [getAll], in the order of their
    keys.  Numbers are ordered by value and strings by their code units. *)

Fixpoint jsltb (a b : jsstring) : bool :=
  match a, b with
  | _, [] => false
  | [], _ :: _ => true
  | x :: a', y :: b' => (x <? y)%N || ((x =? y)%N && jsltb a' b')
  end.

Section ObjectStore.

Variables (K V : Type) (key : V -> K) (eqb ltb : K -> K -> bool).

Fixpoint put (v : V) (s : list V) : list V :=
  match s with
  | [] => [v]
  | w :: r =>
      if eqb (key v) (key w) then v :: r
      else if ltb (key v) (key w) then v :: w :: r
      else w :: put v r
  end.

Definition get (k : K) (s : list V) : option V :=
  find (fun w => eqb k (key w)) s.

Definition getAll (s : list V) : list V := s.

Definition clear : list V := [].

(** [for (const v of vs) store.put(v)]. *)
Definition put_each (vs : list V) (s : list V) : list V :=
  fold_left (fun s v => put v s) vs s.

End ObjectStore.

(** ** Records *)

Module ChapterMeta.
Record t : Type := { title : jsstring; wordCount : Z }.
End ChapterMeta.

Module BookMeta.
Record t : Type := {
  id : jsstring;
  title : jsstring;
  tags : list jsstring;
  chapterCount : Z;
  chapterMeta : list ChapterMeta.t
}.
End BookMeta.

Module StoredChapter.
Record t : Type := {
  index : Z;
  bookId : jsstring;
  title : jsstring;
  paragraphs : list jsstring;
  wordCount : Z
}.
End StoredChapter.

Module BookData.
Record t : Type := {
  title : jsstring;
  chapters : list Epub.Chapter;
  tags : list jsstring
}.
End BookData.

Inductive ReadMode : Type := scroll | pageTurn.

Module AppSettings.
Record t : Type := {
  fontSize : Q;
  lineHeight : Q;
  paragraphSpacing : Q;
  startingId : number;
  authors : list jsstring;
  autoScrollSpeed : Q;
  readMode : ReadMode
}.
End AppSettings.

Module ReadingProgress.
Record t : Type := {
  chapterIndex : Z;
  scrollTop : Q;
  pageIndex : option Z;
  targetText : option jsstring
}.
End ReadingProgress.

(** The five object stores.  Settings and progress are stored with an [id]
    beside their fields. *)
Record DB : Type := {
  bookMeta : list BookMeta.t;
  chapters : list StoredChapter.t;
  quotes : list Ids.QuoteItem;
  settings : list (jsstring * AppSettings.t);
  progress : list (jsstring * ReadingProgress.t)
}.

Definition put_meta := put BookMeta.id jseqb jsltb.
Definition put_chapter := put StoredChapter.index Z.eqb Z.ltb.
Definition put_quote := put Ids.id jseqb jsltb.
Definition put_settings := put (@fst jsstring AppSettings.t) jseqb jsltb.
Definition put_progress := put (@fst jsstring ReadingProgress.t) jseqb jsltb.

(** ** Books *)

Definition meta_of (book : BookData.t) : BookMeta.t :=
  {| BookMeta.id := js "current";
     BookMeta.title := BookData.title book;
     BookMeta.tags := BookData.tags book;
     BookMeta.chapterCount :=
       Z.of_nat (List.length (BookData.chapters book));
     BookMeta.chapterMeta :=
       map (fun c => {| ChapterMeta.title := Epub.title c;
                        ChapterMeta.wordCount := Epub.wordCount c |})
           (BookData.chapters book) |}.

Definition stored (i : Z) (chapter : Epub.Chapter) : StoredChapter.t :=
  {| StoredChapter.index := i;
     StoredChapter.bookId := js "current";
     StoredChapter.title := Epub.title chapter;
     StoredChapter.paragraphs := Epub.paragraphs chapter;
     StoredChapter.wordCount := Epub.wordCount chapter |}.

(** [for (let i = 0; i < chapters.length; i++) chapterStore.put(stored)],
    from index [i] on. *)
Fixpoint put_chapters (i : Z) (chapters : list Epub.Chapter)
    (s : list StoredChapter.t) : list StoredChapter.t :=
  match chapters with
  | [] => s
  | chapter :: rest => put_chapters (i + 1) rest (put_chapter (stored i chapter) s)
  end.

Definition saveBookToDB (book : BookData.t) (db : DB) : DB :=
  {| bookMeta := put_meta (meta_of book) (bookMeta db);
     chapters := put_chapters 0 (BookData.chapters book) (clear _);
     quotes := quotes db;
     settings := settings db;
     progress := progress db |}.

Definition loadBookMeta (db : DB) : option BookMeta.t :=
  get BookMeta.id jseqb (js "current") (bookMeta db).

Definition loadChapter (index : Z) (db : DB) : option StoredChapter.t :=
  get StoredChapter.index Z.eqb index (chapters db).

(** The values of [i] in [for (let i = start; i <= end; i++)]. *)
Definition range (start end_ : Z) : list Z :=
  map (fun k => start + Z.of_nat k) (seq 0 (Z.to_nat (end_ - start + 1))).

Definition loadChapterRange (start end_ : Z) (db : DB)
  : list StoredChapter.t :=
  flat_map (fun i => match loadChapter i db with
                     | Some r => [r]
                     | None => []
                     end)
           (range start end_).

Definition clearBookData (db : DB) : DB :=
  {| bookMeta := clear _;
     chapters := clear _;
     quotes := quotes db;
     settings := settings db;
     progress := progress db |}.

(** ** Quotes, settings, progress *)

Definition saveQuotesToDB (qs : list Ids.QuoteItem) (db : DB) : DB :=
  {| bookMeta := bookMeta db;
     chapters := chapters db;
     quotes := put_each Ids.id jseqb jsltb qs (clear _);
     settings := settings db;
     progress := progress db |}.

Definition loadQuotesFromDB (db : DB) : list Ids.QuoteItem :=
  getAll (quotes db).

Definition saveSettingsToDB (s : AppSettings.t) (db : DB) : DB :=
  {| bookMeta := bookMeta db;
     chapters := chapters db;
     quotes := quotes db;
     settings := put_settings (js "current", s) (settings db);
     progress := progress db |}.

Definition loadSettingsFromDB (db : DB) : option AppSettings.t :=
  match get (@fst jsstring AppSettings.t) jseqb (js "current")
          (settings db) with
  | Some result => Some (snd result)
  | None => None
  end.

Definition saveProgressToDB (p : ReadingProgress.t) (db : DB) : DB :=
  {| bookMeta := bookMeta db;
     chapters := chapters db;
     quotes := quotes db;
     settings := settings db;
     progress := put_progress (js "current", p) (progress db) |}.

(** [{ chapterIndex: 0, scrollTop: 0, pageIndex: 0 }]. *)
Definition no_progress : ReadingProgress.t :=
  {| ReadingProgress.chapterIndex := 0;
     ReadingProgress.scrollTop := 0%Q;
     ReadingProgress.pageIndex := Some 0;
     ReadingProgress.targetText := None |}.

Definition loadProgressFromDB (db : DB) : ReadingProgress.t :=
  match get (@fst jsstring ReadingProgress.t) jseqb (js "current")
          (progress db) with
  | Some result => snd result
  | None => no_progress
  end.

Definition clearAllDataFromDB (db : DB) : DB :=
  {| bookMeta := clear _;
     chapters := clear _;
     quotes := clear _;
     settings := clear _;
     progress := clear _ |}.

(** ** Export and import *)

Module ExportData.
Record t : Type := {
  version : Z;
  exportedAt : jsstring;
  bookMeta : option BookMeta.t;
  chapters : list StoredChapter.t;
  quotes : list Ids.QuoteItem;
  settings : option AppSettings.t;
  progress : ReadingProgress.t
}.
End ExportData.

(** [now] is [new Date().toISOString()]. *)
Definition exportAllData (now : jsstring) (db : DB) : ExportData.t :=
  {| ExportData.version := 1;
     ExportData.exportedAt := now;
     ExportData.bookMeta := hd_error (getAll (bookMeta db));
     ExportData.chapters := getAll (chapters db);
     ExportData.quotes := getAll (quotes db);
     ExportData.settings :=
       match hd_error (getAll (settings db)) with
       | Some settingsRaw => Some (snd settingsRaw)
       | None => None
       end;
     ExportData.progress :=
       match hd_error (getAll (progress db)) with
       | Some progressRaw => snd progressRaw
       | None => no_progress
       end |}.

Definition importAllData (data : ExportData.t) (db : DB) : DB :=
  let db := clearAllDataFromDB db in
  {| bookMeta :=
       match ExportData.bookMeta data with
       | Some meta => put_meta meta (bookMeta db)
       | None => bookMeta db
       end;
     chapters :=
       if (0 <? List.length (ExportData.chapters data))%nat
       then put_each StoredChapter.index Z.eqb Z.ltb
              (ExportData.chapters data) (chapters db)
       else chapters db;
     quotes :=
       if (0 <? List.length (ExportData.quotes data))%nat
       then put_each Ids.id jseqb jsltb (ExportData.quotes data) (quotes db)
       else quotes db;
     settings :=
       match ExportData.settings data with
       | Some s => put_settings (js "current", s) (settings db)
       | None => settings db
       end;
     progress :=
       put_progress (js "current", ExportData.progress data) (progress db) |}.

(** ** The chapters the reader holds

    [loadedChapters], a [Map] from chapter index to chapter. *)
Definition Loaded : Type := list (Z * StoredChapter.t).

Fixpoint loaded_set (m : Loaded) (k : Z) (v : StoredChapter.t) : Loaded :=
  match m with
  | [] => [(k, v)]
  | (k', v') :: r =>
      if k' =? k then (k, v) :: r else (k', v') :: loaded_set r k v
  end.

Definition loaded_get (m : Loaded) (k : Z) : option StoredChapter.t :=
  match find (fun e => fst e =? k) m with
  | Some e => Some (snd e)
  | None => None
  end.

(** The load effect of the reader in scroll mode, when it is not
    cancelled. *)
Definition load_window (chapterCount : Z) (r : Window.Range) (db : DB)
    (prev : Loaded) : Loaded :=
  let start := Z.max 0 (Window.start r) in
  let end_ := Z.min (chapterCount - 1) (Window.end_ r) in
  fold_left (fun m ch => loaded_set m (StoredChapter.index ch) ch)
    (loadChapterRange start end_ db) prev.

(** The load effect in page turn mode. *)
Definition load_around (chapterCount currentChapterIndex : Z) (db : DB)
    (prev : Loaded) : Loaded :=
  let start := Z.max 0 (currentChapterIndex - 1) in
  let end_ := Z.min (chapterCount - 1) (currentChapterIndex + 1) in
  fold_left (fun m ch => loaded_set m (StoredChapter.index ch) ch)
    (loadChapterRange start end_ db) prev.

(** [scrollChapters] in scroll mode. *)
Definition scrollChapters (r : Window.Range) (loadedChapters : Loaded)
  : list StoredChapter.t :=
  flat_map (fun i => match loaded_get loadedChapters i with
                     | Some ch => [ch]
                     | None => []
                     end)
           (range (Window.start r) (Window.end_ r)).

(** ** What holds of a database *)

(** The records of an object store are in the strict order of their keys. *)
Definition ordered (K V : Type) (key : V -> K) (ltb : K -> K -> bool)
    (s : list V) : Prop :=
  StronglySorted (fun a b => ltb (key a) (key b) = true) s.

(** A store that holds nothing, or one record under the key [current]. *)
Definition single (V : Type) (key : V -> jsstring) (s : list V) : Prop :=
  match s with
  | [] => True
  | [v] => key v = js "current"
  | _ => False
  end.

(** What the writers of the database keep. *)
Definition kept (db : DB) : Prop :=
  single BookMeta.id (bookMeta db)
  /\ ordered StoredChapter.index Z.ltb (chapters db)
  /\ ordered Ids.id jsltb (quotes db)
  /\ single (@fst jsstring AppSettings.t) (settings db)
  /\ single (@fst jsstring ReadingProgress.t) (progress db).

(** A database with nothing in it. *)
Definition empty : DB :=
  {| bookMeta := []; chapters := []; quotes := []; settings := [];
     progress := [] |}.

(** What the writers of the database are called with. *)
Inductive Write : Type :=
  | SaveBook (book : BookData.t)
  | ClearBook
  | SaveQuotes (qs : list Ids.QuoteItem)
  | SaveSettings (s : AppSettings.t)
  | SaveProgress (p : ReadingProgress.t)
  | ClearAll
  | Import (data : ExportData.t).

Definition write (db : DB) (w : Write) : DB :=
  match w with
  | SaveBook book => saveBookToDB book db
  | ClearBook => clearBookData db
  | SaveQuotes qs => saveQuotesToDB qs db
  | SaveSettings s => saveSettingsToDB s db
  | SaveProgress p => saveProgressToDB p db
  | ClearAll => clearAllDataFromDB db
  | Import data => importAllData data db
  end.

(** A backup whose book record, if it has one, has the key [current]. *)
Definition importable (data : ExportData.t) : Prop :=
  match ExportData.bookMeta data with
  | Some meta => BookMeta.id meta = js "current"
  | None => True
  end.

Definition sound (w : Write) : Prop :=
  match w with
  | Import data => importable data
  | _ => True
  end.

(** The chapters of a book from index [i] on, as they are stored. *)
Fixpoint stored_from (i : Z) (chapters : list Epub.Chapter)
  : list StoredChapter.t :=
  match chapters with
  | [] => []
  | chapter :: rest => stored i chapter :: stored_from (i + 1) rest
  end.

(** ** Uploading a book

    What the application holds of the library: the book record and the
    progress it shows, and the database. *)
Record Library : Type := {
  shownMeta : option BookMeta.t;
  shownProgress : ReadingProgress.t;
  database : DB
}.

(** [handleBookLoaded]: the archive is parsed, the book saved, the progress
    reset.  When parsing throws, the error is reported ([alert]) and nothing
    else is done. *)
Definition handleBookLoaded (dom : Epub.DOM) (zip : Epub.Archive)
    (tags : list jsstring) (lib : Library) : Library * option exn :=
  match Epub.parseEpub dom zip with
  | Ok parsed =>
      let bookData :=
        {| BookData.title := Epub.book_title parsed;
           BookData.chapters := Epub.chapters parsed;
           BookData.tags := tags |} in
      let db := saveBookToDB bookData (database lib) in
      let meta :=
        {| BookMeta.id := js "current";
           BookMeta.title := Epub.book_title parsed;
           BookMeta.tags := tags;
           BookMeta.chapterCount :=
             Z.of_nat (List.length (Epub.chapters parsed));
           BookMeta.chapterMeta :=
             map (fun c => {| ChapterMeta.title := Epub.title c;
                              ChapterMeta.wordCount := Epub.wordCount c |})
                 (Epub.chapters parsed) |} in
      let newProgress :=
        {| ReadingProgress.chapterIndex := 0;
           ReadingProgress.scrollTop := 0%Q;
           ReadingProgress.pageIndex := Some 0;
           ReadingProgress.targetText := None |} in
      ({| shownMeta := Some meta;
          shownProgress := newProgress;
          database := saveProgressToDB newProgress db |}, None)
  | Throw e => (lib, Some e)
  end.

(** What a stored chapter of an uploaded book looks like. *)
Definition stored_ok (ch : StoredChapter.t) : Prop :=
  StoredChapter.bookId ch = js "current"
  /\ StoredChapter.title ch <> []
  /\ StoredChapter.paragraphs ch <> []
  /\ Forall Shapes.trimmed (StoredChapter.paragraphs ch)
  /\ Z.of_nat (List.length (StoredChapter.paragraphs ch))
     <= StoredChapter.wordCount ch
     <= jslength (join [] (StoredChapter.paragraphs ch)).

(** ** Sample inputs *)

Definition chapter_one : Epub.Chapter :=
  {| Epub.title := js "One"; Epub.paragraphs := [js "first one"];
     Epub.wordCount := 8 |}.

Definition chapter_two : Epub.Chapter :=
  {| Epub.title := js "Two"; Epub.paragraphs := [js "inner"];
     Epub.wordCount := 5 |}.

Definition chapter_three : Epub.Chapter :=
  {| Epub.title := js "Three"; Epub.paragraphs := [js "last"];
     Epub.wordCount := 4 |}.

Definition small_book : BookData.t :=
  {| BookData.title := js "Book";
     BookData.chapters := [chapter_one; chapter_two; chapter_three];
     BookData.tags := [js "tag"] |}.

End Store.

(* ================================================================== *)
(** * The list of quotes *)
(* ================================================================== *)

Module QuoteList.

Local Open Scope Z_scope.

(** [parseInt(s)] without a radix: after white space and a sign, [0x] or
    [0X] announces hexadecimal digits; otherwise the digits are decimal.  The
    number is the double nearest to what the digits write. *)
Definition is_hex (c : N) : bool :=
  match hexval c with Some _ => true | None => false end.

Definition hex_value (ds : jsstring) : N :=
  fold_left (fun acc d => (16 * acc + match hexval d with
                                      | Some v => v
                                      | None => 0
                                      end)%N) ds 0%N.

Definition parseInt (s : jsstring) : number :=
  let s := trimStart s in
  let '(negative, s) :=
    match s with
    | 45 :: r => (true, r)
    | 43 :: r => (false, r)
    | _ => (false, s)
    end%N in
  let signed (v : N) :=
    double (if negative then - Z.of_N v else Z.of_N v) in
  match s with
  | 48 :: 120 :: r | 48 :: 88 :: r =>
      match Ids.takeWhile is_hex r with
      | [] => NaN
      | ds => signed (hex_value ds)
      end
  | _ =>
      match Ids.takeWhile Ids.is_digit s with
      | [] => NaN
      | ds => signed (Ids.digits_value ds)
      end
  end%N.

(** [a - b] on what [parseInt] gives. *)
Definition minus (a b : number) : number :=
  match a, b with
  | NaN, _ | _, NaN => NaN
  | Int x, Int y => double (x - y)
  | PosInfinity, PosInfinity | NegInfinity, NegInfinity => NaN
  | PosInfinity, _ | _, NegInfinity => PosInfinity
  | NegInfinity, _ | _, PosInfinity => NegInfinity
  end.

(** [Array.prototype.sort(comparefn)]: the array is sorted in place and the
    sort is stable; a comparison that gives [NaN] counts as 0.  For a
    comparison that orders the elements, as it does below for identifiers
    that are numbers, the outcome is fixed by that: an element goes before
    the first element behind it that it does not come after.  For a
    comparison that does not order them (an identifier that [parseInt]
    cannot read compares as [NaN] with every other) the standard leaves the
    order to the engine; the insertion below gives one of the orders it
    allows, which need not be the engine's, and nothing is stated for that
    case. *)
Definition comes_after (v : number) : bool :=
  match v with
  | Int z => 0 <? z
  | PosInfinity => true
  | NaN | NegInfinity => false
  end.

Section Sort.

Variables (A : Type) (comparefn : A -> A -> number).

Fixpoint insert (x : A) (l : list A) : list A :=
  match l with
  | [] => [x]
  | y :: r =>
      if comes_after (comparefn x y) then y :: insert x r else x :: y :: r
  end.

Definition sort (l : list A) : list A := fold_right insert [] l.

End Sort.

Definition by_id (a b : Ids.QuoteItem) : number :=
  minus (parseInt (Ids.id a)) (parseInt (Ids.id b)).

(** [filteredQuotes]: the quotes shown, and the array [quotes] of the
    application afterwards.  Each filter that applies makes a new array;
    when none applies it is the array of the application that is sorted. *)
Definition filteredQuotes (quotes : list Ids.QuoteItem)
    (filterChapter : option Z) (searchId : jsstring)
  : list Ids.QuoteItem * list Ids.QuoteItem :=
  let result := quotes in
  let result :=
    match filterChapter with
    | Some chapter =>
        filter (fun q => Ids.chapterIndex q =? chapter) result
    | None => result
    end in
  let result :=
    if truthy (trim searchId)
    then filter (fun q => includes (Ids.id q) (trim searchId)) result
    else result in
  let sorted := sort by_id result in
  (sorted,
   match filterChapter with
   | Some _ => quotes
   | None => if truthy (trim searchId) then quotes else sorted
   end).

(** What [filteredQuotes] lets through. *)
Definition passes (filterChapter : option Z) (searchId : jsstring)
    (q : Ids.QuoteItem) : bool :=
  match filterChapter with
  | Some chapter => Ids.chapterIndex q =? chapter
  | None => true
  end
  && (if truthy (trim searchId) then includes (Ids.id q) (trim searchId)
      else true).

(** ** Editing a quote

    [Partial<QuoteItem>]: the fields given. *)
Record Updates : Type := {
  new_id : option jsstring;
  new_text : option jsstring;
  new_author : option (option jsstring);
  new_source : option (option jsstring);
  new_tags : option (option (list jsstring));
  new_chapterIndex : option Z;
  new_chapterTitle : option jsstring
}.

Definition given (A : Type) (update : option A) (old : A) : A :=
  match update with
  | Some a => a
  | None => old
  end.

(** [{ ...q, ...updates }]. *)
Definition spread (q : Ids.QuoteItem) (updates : Updates) : Ids.QuoteItem :=
  {| Ids.id := given (new_id updates) (Ids.id q);
     Ids.text := given (new_text updates) (Ids.text q);
     Ids.author := given (new_author updates) (Ids.author q);
     Ids.source := given (new_source updates) (Ids.source q);
     Ids.tags := given (new_tags updates) (Ids.tags q);
     Ids.chapterIndex := given (new_chapterIndex updates) (Ids.chapterIndex q);
     Ids.chapterTitle :=
       given (new_chapterTitle updates) (Ids.chapterTitle q) |}.

(** [handleUpdateQuote] of the application. *)
Definition handleUpdateQuote (prev : list Ids.QuoteItem) (id : jsstring)
    (updates : Updates) : list Ids.QuoteItem :=
  map (fun q => if jseqb (Ids.id q) id then spread q updates else q) prev.

(** [{ text }]. *)
Definition text_only (t : jsstring) : Updates :=
  {| new_id := None; new_text := Some t; new_author := None;
     new_source := None; new_tags := None; new_chapterIndex := None;
     new_chapterTitle := None |}.

(** [handleSave] of a card, with the quote list of the application. *)
Definition handleSave (editText : jsstring) (quote : Ids.QuoteItem)
    (prev : list Ids.QuoteItem) : list Ids.QuoteItem :=
  if negb (jseqb (trim editText) (Ids.text quote))
  then handleUpdateQuote prev (Ids.id quote) (text_only (trim editText))
  else prev.

(** The identifiers are written from the natural numbers [ns], in this
    order. *)
Definition numbered (ns : list N) (quotes : list Ids.QuoteItem) : Prop :=
  map Ids.id quotes = map (fun k => Ids.formatId (Int (Z.of_N k))) ns.

(** The identifier of [a] is written from a smaller natural number than the
    one of [b]. *)
Definition id_below (a b : Ids.QuoteItem) : Prop :=
  exists x y : N,
    Ids.id a = Ids.formatId (Int (Z.of_N x))
    /\ Ids.id b = Ids.formatId (Int (Z.of_N y))
    /\ (x < y)%N.

(** Natural numbers that are safe integers. *)
Definition safe (ns : list N) : Prop :=
  Forall (fun k => Z.of_N k <= max_safe) ns.

(** The number [parseInt] reads from the identifier, 0 if it reads none. *)
Definition number_of (q : Ids.QuoteItem) : Z :=
  match parseInt (Ids.id q) with
  | Int z => z
  | _ => 0
  end.

End QuoteList.

(* ================================================================== *)
(** * Auto play in scroll mode *)
(* ================================================================== *)

Module AutoPlay.

Local Open Scope Z_scope.

(** One animation frame of auto scroll.  [seenEnd] is the end of the range
    of the render the effect stems from. *)
Record Auto : Type := {
  scrollChapterRange : Window.Range;
  isAutoPlaying : bool
}.

Definition autoScroll (chapterCount seenEnd : Z) (nearBottom : bool)
    (st : Auto) : Auto :=
  if nearBottom then
    if seenEnd <? chapterCount - 1 then
      {| scrollChapterRange :=
           {| Window.start := Window.start (scrollChapterRange st);
              Window.end_ := Window.end_ (scrollChapterRange st) + 1 |};
         isAutoPlaying := isAutoPlaying st |}
    else
      {| scrollChapterRange := scrollChapterRange st;
         isAutoPlaying := false |}
  else st.

End AutoPlay.

(* ================================================================== *)
(** * Pagination on the document *)
(* ================================================================== *)

Module Offscreen.

(** [paginateParagraphs] measures with elements of the document: it makes an
    element, gives it a style sheet, appends it to the body, and reads its
    [offsetHeight] after each write of its [textContent]; the element is
    removed at the end.  Here the document is a state that the engine works
    on.  In module [Pagination] the height is a function of style and text;
    that the two engines return the same pages is shown further down. *)

Local Open Scope Q_scope.

Record Element : Type := {
  cssText : Pagination.Style;
  textContent : jsstring
}.

(** The children of [document.body], in order.  A child is referred to by
    its place: a child is appended behind the others, and the engine removes
    what it appended, the last first. *)
Definition Document := list Element.

(** [document.body.appendChild(el)], and the place of [el] afterwards. *)
Definition appendChild (doc : Document) (el : Element) : Document :=
  doc ++ [el].

Definition appended (doc : Document) : nat := List.length doc.

(** [document.body.removeChild(el)] for the child at place [i]. *)
Definition removeChild (doc : Document) (i : nat) : Document :=
  firstn i doc ++ skipn (S i) doc.

(** [el.textContent = t] for the child at place [i]. *)
Definition setTextContent (doc : Document) (i : nat) (t : jsstring)
  : Document :=
  match nth_error doc i with
  | Some el =>
      firstn i doc
      ++ {| cssText := cssText el; textContent := t |} :: skipn (S i) doc
  | None => doc
  end.

Section WithLayout.

(** The layout engine of the browser: the height it gives to a block that is
    positioned absolutely, from the style sheet and the text of the block. *)
Variable layout : Pagination.Style -> jsstring -> Q.

(** [el.offsetHeight] for the child at place [i]. *)
Definition offsetHeight (doc : Document) (i : nat) : Q :=
  match nth_error doc i with
  | Some el => layout (cssText el) (textContent el)
  | None => 0
  end.

(** The loop of [findSplitPoint]; [measurer] is the place of the measuring
    element.  [None]: the loop was cut short by [fuel]. *)
Fixpoint findSplitPoint_loop (fuel : nat) (text : jsstring) (maxHeight : Q)
    (measurer : nat) (lo hi best : Z) (doc : Document)
  : option (Z * Document) :=
  if (lo <=? hi)%Z then
    match fuel with
    | O => None
    | S fuel' =>
        let mid := ((lo + hi) / 2)%Z in
        let doc := setTextContent doc measurer (substring text 0 mid) in
        if Qle_bool (offsetHeight doc measurer) maxHeight
        then findSplitPoint_loop fuel' text maxHeight measurer
               (mid + 1)%Z hi mid doc
        else findSplitPoint_loop fuel' text maxHeight measurer
               lo (mid - 1)%Z best doc
    end
  else Some (best, doc).

Definition findSplitPoint (text : jsstring) (maxHeight : Q)
    (measurer : nat) (doc : Document) : option (Z * Document) :=
  findSplitPoint_loop (List.length text) text maxHeight measurer
    1%Z (jslength text - 1)%Z 0%Z doc.

Variables (availableHeight fontSize lineHeight paragraphSpacing
           containerWidth : Q).

(** The measuring element as it is appended: with its style sheet and no
    text. *)
Definition measuring_element : Element :=
  {| cssText := Pagination.measurer fontSize lineHeight containerWidth;
     textContent := [] |}.

(** The element that measures the title, appended with its text. *)
Definition title_element (chapterTitle : jsstring) : Element :=
  {| cssText := Pagination.titleMeasurer fontSize containerWidth;
     textContent := chapterTitle |}.

(** [currentHeight] before the first paragraph: the title is measured by an
    element that is appended, read and removed. *)
Definition titleHeight (chapterTitle : option jsstring) (doc : Document)
  : Q * Document :=
  match chapterTitle with
  | Some t =>
      if truthy t then
        let titleMeasurer := appended doc in
        let doc := appendChild doc (title_element t) in
        let h := offsetHeight doc titleMeasurer + fontSize * 1.5 in
        (h, removeChild doc titleMeasurer)
      else (0, doc)
  | None => (0, doc)
  end.

(** One turn of the [while] loop, entered with [remaining] not empty. *)
Definition whileBody (measurer : nat) (st : Pagination.State)
    (fullText remaining : jsstring) (isFirstFragment : bool)
    (doc : Document) : option (Pagination.Turn * Document) :=
  let doc := setTextContent doc measurer remaining in
  let paraHeight := offsetHeight doc measurer in
  let gap :=
    if (0 <? List.length (Pagination.currentPageParas st))%nat
    then Pagination.spacingPx fontSize paragraphSpacing else 0 in
  let needed := paraHeight + gap in
  let space :=
    Pagination.safeHeight availableHeight - Pagination.currentHeight st in
  let fragment (t : jsstring) :=
    {| Pagination.text := t; Pagination.fullText := fullText;
       Pagination.isContinuation := negb isFirstFragment |} in
  if Qle_bool needed space then
    Some (Pagination.Break
            {| Pagination.pages := Pagination.pages st;
               Pagination.currentPageParas :=
                 push (Pagination.currentPageParas st) (fragment remaining);
               Pagination.currentHeight :=
                 Pagination.currentHeight st + needed |},
          doc)
  else
    let spaceForText := space - gap in
    let not_split :=
      if (0 <? List.length (Pagination.currentPageParas st))%nat then
        Pagination.Continue (Pagination.flush st) remaining isFirstFragment
      else
        Pagination.Break
          (Pagination.flush
             {| Pagination.pages := Pagination.pages st;
                Pagination.currentPageParas :=
                  push (Pagination.currentPageParas st)
                    (fragment remaining);
                Pagination.currentHeight := Pagination.currentHeight st |})
    in
    if Qle_bool (Pagination.minLineHeight fontSize lineHeight) spaceForText
    then
      match findSplitPoint remaining spaceForText measurer doc with
      | None => None
      | Some (splitIdx, doc) =>
          if (0 <? splitIdx)%Z then
            Some (Pagination.Continue
                    (Pagination.flush
                       {| Pagination.pages := Pagination.pages st;
                          Pagination.currentPageParas :=
                            push (Pagination.currentPageParas st)
                              (fragment (substring remaining 0 splitIdx));
                          Pagination.currentHeight :=
                            Pagination.currentHeight st |})
                    (substring_from remaining splitIdx)
                    false,
                  doc)
          else Some (not_split, doc)
      end
    else Some (not_split, doc).

(** [while (remaining.length > 0)]. *)
Fixpoint whileLoop (fuel : nat) (measurer : nat) (st : Pagination.State)
    (fullText remaining : jsstring) (isFirstFragment : bool)
    (doc : Document) : option (Pagination.State * Document) :=
  if (0 <? jslength remaining)%Z then
    match fuel with
    | O => None
    | S fuel' =>
        match whileBody measurer st fullText remaining isFirstFragment doc
        with
        | None => None
        | Some (Pagination.Break st', doc) => Some (st', doc)
        | Some (Pagination.Continue st' remaining' isFirstFragment', doc) =>
            whileLoop fuel' measurer st' fullText remaining'
              isFirstFragment' doc
        end
    end
  else Some (st, doc).

(** [for (let i = 0; i < allParagraphs.length; i++)]. *)
Fixpoint forLoop (measurer : nat) (allParagraphs : list jsstring)
    (st : Pagination.State) (doc : Document)
  : option (Pagination.State * Document) :=
  match allParagraphs with
  | [] => Some (st, doc)
  | fullText :: rest =>
      match whileLoop (Pagination.turns fullText) measurer st fullText
              fullText true doc with
      | Some (st', doc) => forLoop measurer rest st' doc
      | None => None
      end
  end.

(** The pages, and the document as the engine leaves it. *)
Definition paginateParagraphs (allParagraphs : list jsstring)
    (chapterTitle : option jsstring) (doc : Document)
  : option (list Pagination.PageData * Document) :=
  if (List.length allParagraphs =? 0)%nat
     || Qle_bool availableHeight 0 || Qle_bool containerWidth 0
  then Some ([{| Pagination.paragraphs := Pagination.wrapParas allParagraphs;
                 Pagination.showTitle := true |}], doc)
  else
    let measurer := appended doc in
    let doc := appendChild doc measuring_element in
    let '(titleHeight, doc) := titleHeight chapterTitle doc in
    let st := {| Pagination.pages := [];
                 Pagination.currentPageParas := [];
                 Pagination.currentHeight := titleHeight |} in
    match forLoop measurer allParagraphs st doc with
    | None => None
    | Some (st, doc) =>
        let st :=
          if (0 <? List.length (Pagination.currentPageParas st))%nat
          then Pagination.flush st else st in
        let doc := removeChild doc measurer in
        Some (if (0 <? List.length (Pagination.pages st))%nat
              then Pagination.pages st
              else [{| Pagination.paragraphs :=
                         Pagination.wrapParas allParagraphs;
                       Pagination.showTitle := true |}],
              doc)
    end.

End WithLayout.

(** A document with two elements that other code has left in it, one of
    them with the style sheet of a measurer and a text. *)
Definition busy_document : Document :=
  [{| cssText := Pagination.measurer 18 1 300; textContent := js "left over" |};
   {| cssText := Pagination.titleMeasurer 18 300; textContent := js "Zero" |}].

End Offscreen.

(* ================================================================== *)
(** * All that writes the range of chapters *)
(* ================================================================== *)

Module RangeWriters.

Local Open Scope Z_scope.

(** [scrollChapterRange] is written by the scroll handler and by
    [goToChapter], and also by the frame of auto play and by the effect that
    follows a progress handed in with a target text (a jump to a quote). *)
Record Scrolling : Type := {
  loader : Window.Loader;
  isAutoPlaying : bool
}.

Inductive Event : Type :=
  | Scroll (seen : Window.Range) (nearBottom nearTop : bool)
  | Release
  | GoToChapter (index : Z)
  | AutoFrame (seenEnd : Z) (nearBottom : bool)
  | QuoteJump (chapterIndex : Z).

Definition with_loader (st : Scrolling) (l : Window.Loader) : Scrolling :=
  {| loader := l; isAutoPlaying := isAutoPlaying st |}.

(** The frame of auto play runs while auto play is on. *)
Definition autoFrame (chapterCount seenEnd : Z) (nearBottom : bool)
    (st : Scrolling) : Scrolling :=
  if isAutoPlaying st then
    let after :=
      AutoPlay.autoScroll chapterCount seenEnd nearBottom
        {| AutoPlay.scrollChapterRange :=
             Window.scrollChapterRange (loader st);
           AutoPlay.isAutoPlaying := isAutoPlaying st |} in
    {| loader :=
         {| Window.scrollChapterRange := AutoPlay.scrollChapterRange after;
            Window.prependLock := Window.prependLock (loader st) |};
       isAutoPlaying := AutoPlay.isAutoPlaying after |}
  else st.

(** [setScrollChapterRange({ start: progress.chapterIndex, end:
    progress.chapterIndex })]. *)
Definition quoteJump (chapterIndex : Z) (st : Scrolling) : Scrolling :=
  with_loader st
    {| Window.scrollChapterRange :=
         {| Window.start := chapterIndex; Window.end_ := chapterIndex |};
       Window.prependLock := Window.prependLock (loader st) |}.

Definition react (chapterCount : Z) (st : Scrolling) (e : Event)
  : Scrolling :=
  match e with
  | Scroll seen nearBottom nearTop =>
      with_loader st
        (Window.handleScroll chapterCount seen nearBottom nearTop (loader st))
  | Release => with_loader st (Window.frame (loader st))
  | GoToChapter index => with_loader st (Window.goToChapter index (loader st))
  | AutoFrame seenEnd nearBottom => autoFrame chapterCount seenEnd nearBottom st
  | QuoteJump chapterIndex => quoteJump chapterIndex st
  end.

Definition run (chapterCount : Z) (st : Scrolling) (events : list Event)
  : Scrolling :=
  fold_left (react chapterCount) events st.

(** The callback was made in the render that showed the range [r]. *)
Definition sees (r : Window.Range) (e : Event) : Prop :=
  match e with
  | Scroll seen _ _ => seen = r
  | AutoFrame seenEnd _ => seenEnd = Window.end_ r
  | Release | GoToChapter _ | QuoteJump _ => True
  end.

(** The reader opened at a chapter, auto play on. *)
Definition playing (chapterIndex : Z) : Scrolling :=
  {| loader := Window.initial chapterIndex; isAutoPlaying := true |}.

(** Ten chapters, the reader at the last but one, the content within 200
    pixels of its bottom.  Auto play moves the content in every frame: the
    scroll event of the move and the next frame of auto play are handled one
    after the other, before the range they ask for is rendered. *)
Definition last_but_one : Window.Range :=
  {| Window.start := 8; Window.end_ := 8 |}.

Definition one_frame : list Event :=
  [Scroll last_but_one true false; AutoFrame 8 true].

End RangeWriters.

(* ================================================================== *)
(** * Facts about strings *)
(* ================================================================== *)

Module JSFacts.

Lemma jseqb_eq (a b : jsstring) : jseqb a b = true <-> a = b.
Proof.
  revert b; induction a as [|x a IH]; intros [|y b]; simpl;
    try (split; [discriminate | congruence]); [tauto|].
  rewrite andb_true_iff, N.eqb_eq, IH. split.
  - intros [-> ->]; reflexivity.
  - intros H; inversion H; auto.
Qed.

Lemma jseqb_refl (a : jsstring) : jseqb a a = true.
Proof. apply jseqb_eq; reflexivity. Qed.

Lemma clamp_le (s : jsstring) (i : Z) : (clamp s i <= List.length s)%nat.
Proof. unfold clamp, jslength. lia. Qed.

Lemma clamp_id (s : jsstring) (i : Z) :
  (0 <= i <= jslength s)%Z -> clamp s i = Z.to_nat i.
Proof. unfold clamp. intros H. f_equal. lia. Qed.

(** A prefix and the rest give the string back, wherever it is cut. *)
Lemma substring_split (s : jsstring) (k : Z) :
  substring s 0 k ++ substring_from s k = s.
Proof.
  unfold substring, substring_from.
  assert (E : clamp s 0 = 0%nat) by (unfold clamp, jslength; lia).
  rewrite E. simpl. rewrite Nat.sub_0_r.
  apply firstn_skipn.
Qed.

Lemma substring_length (s : jsstring) (k : Z) :
  (0 <= k <= jslength s)%Z ->
  List.length (substring s 0 k) = Z.to_nat k.
Proof.
  intros H. unfold substring.
  assert (E : clamp s 0 = 0%nat) by (unfold clamp, jslength; lia).
  rewrite E, (clamp_id s H). simpl. rewrite Nat.sub_0_r.
  rewrite length_firstn. unfold jslength in H. lia.
Qed.

Lemma substring_from_length (s : jsstring) (k : Z) :
  (0 <= k <= jslength s)%Z ->
  List.length (substring_from s k) = (List.length s - Z.to_nat k)%nat.
Proof.
  intros H. unfold substring_from. rewrite (clamp_id s H).
  apply length_skipn.
Qed.

(** The string operations on small inputs. *)

Example split_keeps_empty_segments :
  split 47 (js "a//b/") = [js "a"; js ""; js "b"; js ""]
  /\ split 47 (js "") = [js ""].
Proof. split; reflexivity. Qed.

Example join_of_segments :
  join (js "/") [js "a"; js ""; js "b"] = js "a//b" /\ join (js "/") [] = js "".
Proof. split; reflexivity. Qed.

Example trim_both_ends : trim (9 :: js "  a b " ++ [10; 12288])%N = js "a b".
Proof. reflexivity. Qed.

Example substring_clamps_and_swaps :
  substring (js "abcdef") 4 1 = js "bcd"
  /\ substring (js "abcdef") (-3) 99 = js "abcdef"
  /\ substring_from (js "abcdef") 2 = js "cdef".
Proof. repeat split. Qed.

Example decode_escapes :
  decodeURIComponent (js "a%20b%2Fc") = Ok (js "a b/c")
  /\ decodeURIComponent (js "%E7%AB%A0") = Ok [31456%N]
  /\ decodeURIComponent (js "%F0%9F%98%80") = Ok [55357%N; 56832%N].
Proof. repeat split. Qed.

Example decode_rejects :
  decodeURIComponent (js "%") = Throw URIError
  /\ decodeURIComponent (js "100%.xhtml") = Throw URIError
  /\ decodeURIComponent (js "%C0%80") = Throw URIError
  /\ decodeURIComponent (js "%ED%A0%80") = Throw URIError
  /\ decodeURIComponent (js "%E7%ABx") = Throw URIError.
Proof. repeat split. Qed.

Example numbers_as_strings :
  String_ (Int 0) = js "0" /\ String_ (Int 1234) = js "1234"
  /\ String_ (Int (-5)) = js "-5" /\ String_ NaN = js "NaN".
Proof. repeat split; vm_compute; reflexivity. Qed.

(** ** Integers that are doubles *)

(** Up to 2^53 rounding changes nothing. *)
Lemma nearest_safe (z : Z) : (Z.abs z <= 2 ^ 53)%Z -> nearest z = z.
Proof.
  intros H. unfold nearest.
  destruct (Z.leb_spec (Z.log2 (Z.abs z) - 52) 0) as [L|L]; [reflexivity|].
  assert (E : Z.abs z = (2 ^ 53)%Z).
  { apply Z.le_antisymm; [exact H|].
    destruct (Z.lt_ge_cases (Z.abs z) (2 ^ 53)) as [C|C]; [|exact C].
    exfalso. destruct (Z.eq_dec (Z.abs z) 0) as [Z0|NZ].
    - rewrite Z0 in L. simpl in L. lia.
    - apply Z.log2_lt_pow2 in C; lia. }
  assert (C : z = (2 ^ 53)%Z \/ z = (- 2 ^ 53)%Z) by lia.
  destruct C as [-> | ->]; vm_compute; reflexivity.
Qed.

Lemma double_safe (z : Z) : (Z.abs z <= 2 ^ 53)%Z -> double z = Int z.
Proof.
  intros H. unfold double. rewrite (@nearest_safe z H).
  assert (B : (2 ^ 53 < 2 ^ 1024)%Z) by (apply Z.pow_lt_mono_r; lia).
  destruct (Z.leb_spec (2 ^ 1024) z) as [L|L]; [lia|].
  destruct (Z.leb_spec z (- 2 ^ 1024)) as [L'|L']; [lia|]. reflexivity.
Qed.

(** The text of a natural number up to 2^53 is its decimal. *)
Lemma String_nat (n : N) :
  (Z.of_N n <= 2 ^ 53)%Z -> String_ (Int (Z.of_N n)) = digits n.
Proof.
  intros H. unfold String_. rewrite double_safe by lia.
  destruct (Z.ltb_spec (Z.of_N n) 0) as [L|L]; [lia|].
  unfold positive_text.
  destruct (Z.leb_spec (Z.of_N n) (2 ^ 53)) as [L'|L']; [|lia].
  now rewrite N2Z.id.
Qed.

(** Above 2^53 not every integer is a double, and from 10^21 the text of a
    number is not its decimal. *)
Example numbers_above_2_53 :
  nearest (2 ^ 53 + 1) = (2 ^ 53)%Z
  /\ nearest (2 ^ 53 + 3) = (2 ^ 53 + 4)%Z
  /\ String_ (Int (2 ^ 53)) = js "9007199254740992"
  /\ String_ (Int (2 ^ 64)) = js "18446744073709552000"
  /\ String_ (Int (10 ^ 21)) = js "1e+21"
  /\ String_ (Int (2 ^ 70)) = js "1.1805916207174113e+21"
  /\ String_ (Int (2 ^ 1024)) = js "Infinity".
Proof. repeat split; vm_compute; reflexivity. Qed.

End JSFacts.

(* ================================================================== *)
(** * Facts about path resolution *)
(* ================================================================== *)

Module PathFacts.

Import Path JSFacts.

Lemma rev_pop (A : Type) (l : list A) : rev (pop l) = tl (rev l).
Proof.
  unfold pop. induction l as [|x l' _] using rev_ind; [reflexivity|].
  rewrite removelast_last, rev_unit. reflexivity.
Qed.

Lemma rev_push (A : Type) (l : list A) (x : A) : rev (push l x) = x :: rev l.
Proof. unfold push. apply rev_unit. Qed.

(** The array of the loop is the stack of the description, upside down. *)
Lemma loop_is_process (segs acc : list jsstring) :
  fold_left visit segs acc = rev (process (rev acc) segs).
Proof.
  revert acc; induction segs as [|seg rest IH]; intros acc; simpl.
  - symmetry; apply rev_involutive.
  - rewrite IH. unfold visit.
    destruct (jseqb seg (js "..")); [now rewrite rev_pop|].
    destruct (jseqb seg (js ".")); simpl; [reflexivity|].
    now rewrite rev_push.
Qed.

Lemma startsWith_slash (relative : jsstring) :
  startsWith relative (js "/") = true ->
  exists remainder, relative = 47%N :: remainder.
Proof.
  change (js "/") with [47%N].
  destruct relative as [|c r]; simpl; [discriminate|].
  rewrite andb_true_r, N.eqb_eq. intros ->. now exists r.
Qed.

Lemma rooted (base remainder : jsstring) :
  resolvePath base (47%N :: remainder) = Ok remainder.
Proof.
  unfold resolvePath.
  change (startsWith (47%N :: remainder) (js "/")) with true. cbv iota.
  unfold substring_from. rewrite clamp_id.
  - reflexivity.
  - unfold jslength. simpl List.length. lia.
Qed.

Lemma not_rooted (base relative : jsstring) :
  startsWith relative (js "/") = false ->
  resolvePath base relative =
  match decodeURIComponent relative with
  | Ok decoded =>
      Ok (join (js "/")
            (fold_left visit (split 47 decoded) (pop (split 47 base))))
  | Throw e => Throw e
  end.
Proof. unfold resolvePath. intros ->. reflexivity. Qed.

(** C4.  [resolvePath] is the resolver of the description: a reference that
    starts with the root marker loses the marker and is returned unchanged;
    any other reference is percent-decoded, the final segment of the base
    path is dropped, the segments of the reference are processed in order
    (two dots pop the last accumulated segment, one dot is ignored, anything
    else is appended), and what remains is joined with the separator.
    Resolving "../images/x.png" against "OEBPS/content.opf" gives
    "images/x.png". *)
Theorem resolvePath_follows_description :
  (forall base relative,
     resolvePath base relative = resolve_described base relative)
  /\ (forall base remainder,
        resolvePath base (47%N :: remainder) = Ok remainder)
  /\ resolvePath (js "OEBPS/content.opf") (js "../images/x.png")
      = Ok (js "images/x.png").
Proof.
  split; [|split].
  - intros base relative. unfold resolve_described.
    destruct (startsWith relative (js "/")) eqn:E.
    + destruct (startsWith_slash _ E) as [r ->]. simpl is_rooted. apply rooted.
    + rewrite (not_rooted base _ E).
      assert (R : is_rooted relative = None).
      { change (js "/") with [47%N] in E.
        destruct relative as [|c r]; [reflexivity|]. simpl in E |- *.
        rewrite andb_true_r in E. apply N.eqb_neq in E.
        destruct c as [|p]; [reflexivity|].
        do 6 (destruct p as [p|p|]; try reflexivity). congruence. }
      rewrite R. destruct (decodeURIComponent relative) as [decoded|e];
        [|reflexivity].
      rewrite loop_is_process. unfold directory_of. now rewrite rev_pop.
  - apply rooted.
  - vm_compute. reflexivity.
Qed.

Lemma decodeURIComponent_throws (s : jsstring) (e : exn) :
  decodeURIComponent s = Throw e -> e = URIError.
Proof.
  unfold decodeURIComponent.
  destruct (unescape s) as [items|]; [|congruence].
  destruct (utf8 items); [discriminate | congruence].
Qed.

Lemma resolvePath_decodable (base relative decoded : jsstring) :
  decodeURIComponent relative = Ok decoded ->
  exists r, resolvePath base relative = Ok r.
Proof.
  intros D. destruct (startsWith relative (js "/")) eqn:E.
  - destruct (startsWith_slash _ E) as [r ->]. exists r. apply rooted.
  - rewrite (not_rooted base _ E), D. eauto.
Qed.

Lemma resolvePath_throws (base relative : jsstring) (e : exn) :
  resolvePath base relative = Throw e -> e = URIError.
Proof.
  destruct (startsWith relative (js "/")) eqn:E.
  - destruct (startsWith_slash _ E) as [r ->]. rewrite rooted. discriminate.
  - rewrite (not_rooted base _ E).
    destruct (decodeURIComponent relative) eqn:D; [discriminate|].
    intros H. inversion H; subst. now apply decodeURIComponent_throws in D.
Qed.

(** C9 as stated does not hold: a reference with a stray percent sign makes
    [decodeURIComponent], and with it the resolver, throw. *)
Lemma resolvePath_throws_on_stray_percent :
  ~ (forall base relative, exists r, resolvePath base relative = Ok r)
  /\ resolvePath (js "content.opf") (js "%") = Throw URIError.
Proof.
  split; [|vm_compute; reflexivity].
  intros H. destruct (H (js "content.opf") (js "%")) as [r Hr].
  vm_compute in Hr. discriminate.
Qed.

(** C9, amended.  [resolvePath] has a result exactly when the reference
    starts with the root marker or can be percent-decoded, and throws the
    [URIError] of the decoder otherwise.  Two dots met with nothing
    accumulated leave the accumulator empty: the excess is ignored, and
    resolving "../../x.png" against "content.opf" gives "x.png". *)
Theorem resolvePath_defined_iff_decodable :
  (forall base relative,
     (exists r, resolvePath base relative = Ok r) <->
     (startsWith relative (js "/") = true
      \/ exists decoded, decodeURIComponent relative = Ok decoded))
  /\ (forall base relative e,
        resolvePath base relative = Throw e -> e = URIError)
  /\ visit [] (js "..") = []
  /\ (forall n, fold_left visit (repeat (js "..") n) [] = [])
  /\ resolvePath (js "content.opf") (js "../../x.png") = Ok (js "x.png").
Proof.
  split; [intros base relative; split | split; [|split; [|split]]].
  - intros [r Hr]. destruct (startsWith relative (js "/")) eqn:E; [now left|].
    right. rewrite (not_rooted base _ E) in Hr.
    destruct (decodeURIComponent relative) as [d|e]; [now exists d|discriminate].
  - intros [E | [d Hd]].
    + destruct (startsWith_slash _ E) as [r ->]. exists r. apply rooted.
    + now apply resolvePath_decodable with d.
  - apply resolvePath_throws.
  - reflexivity.
  - intros n. induction n as [|n IH]; [reflexivity | exact IH].
  - vm_compute. reflexivity.
Qed.

Lemma resolvePath_defined_sample :
  exists r,
    resolvePath (js "OEBPS/content.opf") (js "a%20b/../c.png") = Ok r.
Proof.
  apply (proj1 resolvePath_defined_iff_decodable).
  right. eexists. vm_compute. reflexivity.
Defined.

End PathFacts.

(* ================================================================== *)
(** * Facts about quote identifiers *)
(* ================================================================== *)

Module IdsFacts.

Import Ids.

Local Open Scope N_scope.

Lemma digits_from_acc (fuel : nat) : forall n acc,
  digits_from fuel n acc = digits_from fuel n [] ++ acc.
Proof.
  induction fuel as [|fuel IH]; intros n acc; simpl; [reflexivity|].
  destruct (n <? 10); [reflexivity|].
  rewrite IH, (IH _ [_]), <- app_assoc. reflexivity.
Qed.

Lemma digits_value_snoc (a : jsstring) (d : N) :
  digits_value (a ++ [d]) = 10 * digits_value a + (d - 48).
Proof. unfold digits_value. rewrite fold_left_app. reflexivity. Qed.

Lemma size_nat_bound (n : N) : n < 2 ^ N.of_nat (N.size_nat n).
Proof.
  destruct n as [|p]; [reflexivity|]. simpl N.size_nat.
  induction p as [p IH|p IH|]; simpl Pos.size_nat;
    rewrite ?Nat2N.inj_succ, ?N.pow_succ_r'; lia.
Qed.

Lemma digits_value_digits_from (fuel : nat) : forall n,
  n < 2 ^ N.of_nat fuel -> digits_value (digits_from fuel n []) = n.
Proof.
  induction fuel as [|fuel IH]; intros n Hn.
  - simpl in Hn. assert (n = 0) by lia. subst. reflexivity.
  - cbn [digits_from]. destruct (N.ltb_spec n 10) as [L|L].
    + change (digits_value [48 + n mod 10])
        with (10 * 0 + (48 + n mod 10 - 48)).
      rewrite N.mod_small by exact L. lia.
    + rewrite digits_from_acc, digits_value_snoc, IH.
      * rewrite N.add_comm with (n := 48), N.add_sub.
        symmetry. apply N.div_mod. discriminate.
      * rewrite Nat2N.inj_succ, N.pow_succ_r' in Hn.
        apply N.Div0.div_lt_upper_bound.
        assert (2 * 2 ^ N.of_nat fuel <= 10 * 2 ^ N.of_nat fuel) by lia.
        lia.
Qed.

Lemma digits_value_digits (n : N) : digits_value (digits n) = n.
Proof. apply digits_value_digits_from, size_nat_bound. Qed.

Lemma digit_cases (c : N) :
  is_digit c = true ->
  c = 48 \/ c = 49 \/ c = 50 \/ c = 51 \/ c = 52 \/ c = 53 \/ c = 54
  \/ c = 55 \/ c = 56 \/ c = 57.
Proof.
  unfold is_digit. rewrite andb_true_iff, !N.leb_le. lia.
Qed.

Lemma digits_from_are_digits (fuel : nat) : forall n acc,
  Forall (fun c => is_digit c = true) acc ->
  Forall (fun c => is_digit c = true) (digits_from fuel n acc).
Proof.
  assert (D : forall n, is_digit (48 + n mod 10) = true).
  { intros n. pose proof (N.mod_upper_bound n 10 ltac:(discriminate)) as H.
    unfold is_digit. rewrite andb_true_iff, !N.leb_le.
    revert H. generalize (n mod 10). intros m H. lia. }
  induction fuel as [|fuel IH]; intros n acc Hacc; cbn [digits_from].
  - constructor; auto.
  - destruct (n <? 10); [constructor; auto|]. apply IH. constructor; auto.
Qed.

Lemma digits_nonempty (n : N) : digits n <> [].
Proof.
  unfold digits. rewrite digits_from_acc.
  destruct (N.size_nat n); simpl; [discriminate|].
  destruct (n <? 10); [discriminate|].
  rewrite digits_from_acc. intros H.
  apply app_eq_nil in H as [H _]. apply app_eq_nil in H as [_ H].
  discriminate.
Qed.

Lemma takeWhile_all (A : Type) (p : A -> bool) (l : list A) :
  Forall (fun x => p x = true) l -> takeWhile p l = l.
Proof.
  induction 1 as [|x l Hx _ IH]; simpl; [reflexivity|].
  now rewrite Hx, IH.
Qed.

(** A string of decimal digits is parsed to the double nearest to the
    number it writes. *)
Lemma parseInt10_digits (s : jsstring) :
  s <> [] -> Forall (fun c => is_digit c = true) s ->
  parseInt10 s = double (Z.of_N (digits_value s)).
Proof.
  intros Hs Hall. destruct s as [|c r]; [congruence|].
  inversion Hall as [|? ? Hc Hr]; subst.
  unfold parseInt10.
  destruct (digit_cases _ Hc) as [E|[E|[E|[E|[E|[E|[E|[E|[E|E]]]]]]]]];
    subst c; cbn -[double digits_value];
    rewrite (takeWhile_all _ Hr); reflexivity.
Qed.

Lemma digits_value_zeros (k : nat) (s : jsstring) :
  digits_value (repeat 48 k ++ s) = digits_value s.
Proof.
  unfold digits_value. rewrite fold_left_app. f_equal.
  induction k as [|k IH]; [reflexivity|]. simpl. exact IH.
Qed.

Lemma formatId_nat (n : N) :
  (Z.of_N n <= 2 ^ 53)%Z ->
  formatId (Int (Z.of_N n)) =
  repeat 48 (3 - List.length (digits n)) ++ digits n.
Proof.
  intros H. unfold formatId, padStart. now rewrite JSFacts.String_nat.
Qed.

(** Reading back an identifier gives the number it was made from. *)
Lemma parseInt10_formatId (n : N) :
  (Z.of_N n <= 2 ^ 53)%Z ->
  parseInt10 (formatId (Int (Z.of_N n))) = Int (Z.of_N n).
Proof.
  intros H. rewrite formatId_nat by exact H. rewrite parseInt10_digits.
  - rewrite digits_value_zeros, digits_value_digits.
    apply JSFacts.double_safe. lia.
  - intros E. apply app_eq_nil in E as [_ E]. now apply digits_nonempty in E.
  - apply Forall_app. split.
    + apply Forall_forall. intros c Hc. apply repeat_spec in Hc. now subst.
    + apply digits_from_are_digits. constructor.
Qed.

Lemma max_of_ints (zs : list Z) (a : Z) :
  fold_left max2 (map Int zs) (Int a) = Int (fold_left Z.max zs a).
Proof.
  revert a; induction zs as [|z zs IH]; intros a; simpl; [reflexivity|].
  apply IH.
Qed.

Lemma Math_max_ints (z : Z) (zs : list Z) :
  Math_max (map Int (z :: zs)) = Int (fold_left Z.max zs z).
Proof. unfold Math_max. simpl. apply max_of_ints. Qed.

Lemma max_of_naturals (ns : list N) (a : N) :
  fold_left Z.max (map Z.of_N ns) (Z.of_N a) = Z.of_N (fold_left N.max ns a).
Proof.
  revert a; induction ns as [|n ns IH]; intros a; simpl; [reflexivity|].
  now rewrite <- N2Z.inj_max, IH.
Qed.

Lemma formatId_nat_length (n : N) :
  (Z.of_N n <= 2 ^ 53)%Z ->
  (3 <= List.length (formatId (Int (Z.of_N n))))%nat.
Proof.
  intros H. rewrite formatId_nat, length_app, repeat_length by exact H. lia.
Qed.

(** The largest of natural numbers that are at most [b] is at most [b]. *)
Lemma fold_max_le (b : N) (ns : list N) : forall a,
  a <= b -> Forall (fun k => k <= b) ns -> fold_left N.max ns a <= b.
Proof.
  induction ns as [|n ns IH]; intros a Ha Hns; simpl; [exact Ha|].
  inversion Hns as [|? ? Hn Hr]; subst. apply IH; [lia | exact Hr].
Qed.

(** The identifiers written from safe integers are read back as these. *)
Lemma parsed_ids (ns : list N) (quotes : list QuoteItem) :
  map id quotes = map (fun k => formatId (Int (Z.of_N k))) ns ->
  Forall (fun k => (Z.of_N k <= max_safe)%Z) ns ->
  map (fun q => parseInt10 (id q)) quotes = map Int (map Z.of_N ns).
Proof.
  intros H Hs. rewrite <- (map_map id parseInt10), H, !map_map.
  apply map_ext_in. intros k Hk. rewrite Forall_forall in Hs.
  apply parseInt10_formatId. specialize (Hs k Hk). unfold max_safe in Hs.
  lia.
Qed.

(** With quotes numbered by safe integers and at most as many as a call
    takes arguments, the next identifier is written from the number after
    the largest, or from [startingId] when that is larger. *)
Lemma getNextId_numbered (max_arguments : Z) (n : N) (ns : list N)
    (quotes : list QuoteItem) (startingId : Z) :
  map id quotes = map (fun k => formatId (Int (Z.of_N k))) (n :: ns) ->
  Forall (fun k => (Z.of_N k <= max_safe)%Z) (n :: ns) ->
  (Z.of_nat (List.length quotes) <= max_arguments)%Z ->
  getNextId max_arguments quotes (Int startingId) =
  Ok (formatId (Int (Z.max (Z.of_N (fold_left N.max ns n) + 1) startingId))).
Proof.
  intros H Hs Hl. unfold getNextId, Math_max_spread.
  assert (L : List.length quotes = S (List.length ns)).
  { rewrite <- (length_map id), H. simpl. now rewrite length_map. }
  rewrite length_map. apply Z.leb_le in Hl. rewrite Hl.
  rewrite L. cbn [Nat.eqb].
  rewrite (@parsed_ids (n :: ns) quotes H Hs).
  change (map Z.of_N (n :: ns)) with (Z.of_N n :: map Z.of_N ns).
  rewrite Math_max_ints, max_of_naturals. cbn [succ].
  rewrite JSFacts.double_safe; [reflexivity|].
  assert (B : fold_left N.max ns n <= Z.to_N max_safe).
  { inversion Hs as [|? ? Hn Hr]; subst. apply fold_max_le.
    - unfold max_safe in *. lia.
    - eapply Forall_impl; [|exact Hr]. cbv beta. unfold max_safe. lia. }
  unfold max_safe in B. lia.
Qed.

(** C8, amended.  With no quote the next identifier is [formatId
    startingId].  With
    quotes, at most as many as a call takes arguments, it is [formatId] of
    the larger of the largest parsed identifier plus one and [startingId],
    in the arithmetic of doubles; with more quotes [Math.max(...)] throws a
    [RangeError].  For quotes whose identifiers were made by [formatId] from
    natural numbers of at most 2^53 - 1, and a starting identifier of at
    most 2^53 in absolute value, this is the number after the largest of
    them, or [startingId] when that is larger.  [formatId] pads the decimal
    of a natural number of at most 2^53 with zeros to at least three digits.
    Quotes "005" and "003" with starting id 1 give "006"; no quote with
    starting id 7 gives "007". *)
Theorem getNextId_is_next (max_arguments : Z) :
  (forall startingId,
     getNextId max_arguments [] startingId = Ok (formatId startingId))
  /\ (forall q quotes startingId,
        (Z.of_nat (List.length (q :: quotes)) <= max_arguments)%Z ->
        getNextId max_arguments (q :: quotes) startingId =
        Ok (formatId
              (max2 (succ (Math_max (map (fun q => parseInt10 (id q))
                                         (q :: quotes))))
                    startingId)))
  /\ (forall q quotes startingId,
        (max_arguments < Z.of_nat (List.length (q :: quotes)))%Z ->
        getNextId max_arguments (q :: quotes) startingId = Throw RangeError)
  /\ (forall n ns quotes startingId,
        map id quotes = map (fun k => formatId (Int (Z.of_N k))) (n :: ns) ->
        Forall (fun k => (Z.of_N k <= max_safe)%Z) (n :: ns) ->
        (Z.abs startingId <= 2 ^ 53)%Z ->
        (Z.of_nat (List.length quotes) <= max_arguments)%Z ->
        getNextId max_arguments quotes (Int startingId) =
        Ok (formatId
              (Int (Z.max (Z.of_N (fold_left N.max ns n) + 1) startingId))))
  /\ (forall n,
        (Z.of_N n <= 2 ^ 53)%Z ->
        formatId (Int (Z.of_N n)) =
        repeat 48 (3 - List.length (digits n)) ++ digits n
        /\ (3 <= List.length (formatId (Int (Z.of_N n))))%nat)
  /\ ((2 <= max_arguments)%Z ->
      getNextId max_arguments
        [quote_with_id (js "005"); quote_with_id (js "003")] (Int 1)
      = Ok (js "006"))
  /\ getNextId max_arguments [] (Int 7) = Ok (js "007").
Proof.
  split; [reflexivity|]. split; [|split; [|split; [|split; [|split]]]].
  - intros q quotes startingId H. unfold getNextId, Math_max_spread.
    rewrite length_map. apply Z.leb_le in H. now rewrite H.
  - intros q quotes startingId H. unfold getNextId, Math_max_spread.
    rewrite length_map. apply Z.leb_gt in H. now rewrite H.
  - intros n ns quotes startingId H Hs _ Hl.
    now apply getNextId_numbered.
  - intros n H. split; [now apply formatId_nat | now apply formatId_nat_length].
  - intros H.
    rewrite (@getNextId_numbered max_arguments 5 [3] _ 1);
      [vm_compute; reflexivity | reflexivity | | simpl; lia].
    repeat constructor; vm_compute; discriminate.
  - vm_compute. reflexivity.
Qed.

(** C8 as stated does not hold next to 2^53: the number after 2^53 is no
    double, and with the identifier 9007199254740992 in use the next
    identifier is that identifier again, not 9007199254740993. *)
Lemma getNextId_repeats_2_53 :
  getNextId 65535 [quote_with_id (js "9007199254740992")] (Int 1)
  = Ok (js "9007199254740992")
  /\ In (js "9007199254740992")
        (map id [quote_with_id (js "9007199254740992")])
  /\ digits (2 ^ 53 + 1) = js "9007199254740993"
  /\ getNextId 65535 [quote_with_id (js "9007199254740992")] (Int 1)
     <> Ok (digits (2 ^ 53 + 1)).
Proof.
  split; [vm_compute; reflexivity|]. split; [now left|].
  split; [vm_compute; reflexivity|]. vm_compute. discriminate.
Qed.

Example parseInt10_reads_a_prefix :
  parseInt10 (js "  -12px") = Int (-12)
  /\ parseInt10 (js "+007") = Int 7
  /\ parseInt10 (js "x1") = NaN
  /\ parseInt10 (js "") = NaN.
Proof. repeat split; vm_compute; reflexivity. Qed.

Example formatId_pads :
  formatId (Int 0) = js "000" /\ formatId (Int 42) = js "042"
  /\ formatId (Int 1234) = js "1234" /\ formatId (Int (-5)) = js "0-5".
Proof. repeat split; vm_compute; reflexivity. Qed.

Example getNextId_of_a_broken_id :
  getNextId 65535 [quote_with_id (js "005"); quote_with_id (js "n/a")] (Int 1)
  = Ok (js "NaN").
Proof. vm_compute. reflexivity. Qed.

(** From 10^21 the text of a number has an exponent, and [parseInt] reads
    the digits before it. *)
Example formatId_above_10_21 :
  formatId (Int (10 ^ 21)) = js "1e+21"
  /\ parseInt10 (js "1e+21") = Int 1
  /\ parseInt10 (js "9007199254740993") = Int (2 ^ 53).
Proof. repeat split; vm_compute; reflexivity. Qed.

Lemma getNextId_sample :
  getNextId 65535
    [quote_with_id (js "012"); quote_with_id (js "1000");
     quote_with_id (js "007")] (Int 5)
  = Ok (formatId
          (Int (Z.max (Z.of_N (fold_left N.max [1000; 7] 12) + 1) 5))).
Proof.
  apply (proj1 (proj2 (proj2 (proj2 (getNextId_is_next 65535))))).
  - vm_compute. reflexivity.
  - repeat constructor; vm_compute; discriminate.
  - vm_compute. discriminate.
  - simpl. lia.
Defined.

End IdsFacts.

(* ================================================================== *)
(** * Facts about the window of chapters *)
(* ================================================================== *)

Module WindowFacts.

Import Window.

Local Open Scope Z_scope.

Lemma extend_end_invariant (chapterCount : Z) (r : Range) :
  invariant chapterCount r -> invariant chapterCount (extend_end chapterCount r).
Proof.
  unfold invariant, extend_end. intros H.
  destruct (Z.ltb_spec (end_ r) (chapterCount - 1)); simpl; lia.
Qed.

Lemma extend_start_invariant (chapterCount : Z) (r : Range) :
  invariant chapterCount r ->
  invariant chapterCount (extend_start r).
Proof.
  unfold invariant, extend_start. intros H.
  destruct (Z.ltb_spec 0 (start r)); simpl; lia.
Qed.

(** Whatever render the callback stems from, a scroll keeps the range
    within the book. *)
Lemma handleScroll_invariant (chapterCount : Z) (seen : Range)
    (nearBottom nearTop : bool) (st : Loader) :
  invariant chapterCount (scrollChapterRange st) ->
  invariant chapterCount
    (scrollChapterRange (handleScroll chapterCount seen nearBottom nearTop st)).
Proof.
  intros H. unfold handleScroll.
  destruct (nearBottom && (end_ seen <? chapterCount - 1));
    destruct (nearTop && (0 <? start seen)); simpl;
    try destruct (prependLock st); simpl;
    auto using extend_end_invariant, extend_start_invariant.
Qed.

Lemma react_invariant (chapterCount : Z) (st : Loader) (e : Event) :
  from_toc chapterCount e ->
  invariant chapterCount (scrollChapterRange st) ->
  invariant chapterCount (scrollChapterRange (react chapterCount st e)).
Proof.
  destruct e as [seen nearBottom nearTop| |index]; simpl; intros Ht H.
  - now apply handleScroll_invariant.
  - exact H.
  - unfold invariant; simpl; lia.
Qed.

Lemma run_invariant (chapterCount : Z) (events : list Event) :
  forall st,
  Forall (from_toc chapterCount) events ->
  invariant chapterCount (scrollChapterRange st) ->
  invariant chapterCount (scrollChapterRange (run chapterCount st events)).
Proof.
  unfold run. induction events as [|e events IH]; intros st Hev H; simpl.
  - exact H.
  - inversion Hev; subst. apply IH; [assumption|].
    now apply react_invariant.
Qed.

Lemma bottom_signal_below (chapterCount : Z) (st : Loader) :
  end_ (scrollChapterRange st) < chapterCount - 1 ->
  scrollChapterRange (bottom_signal chapterCount st)
  = {| start := start (scrollChapterRange st);
       end_ := end_ (scrollChapterRange st) + 1 |}.
Proof.
  intros H. unfold bottom_signal, handleScroll, extend_end.
  destruct (Z.ltb_spec (end_ (scrollChapterRange st)) (chapterCount - 1));
    [reflexivity | lia].
Qed.

Lemma bottom_signal_at_last (chapterCount : Z) (st : Loader) :
  chapterCount - 1 <= end_ (scrollChapterRange st) ->
  bottom_signal chapterCount st = st.
Proof.
  intros H. unfold bottom_signal, handleScroll.
  destruct (Z.ltb_spec (end_ (scrollChapterRange st)) (chapterCount - 1));
    [lia | reflexivity].
Qed.

Lemma bottom_signals_from_zero (k : nat) :
  scrollChapterRange (Nat.iter k (bottom_signal 10) (initial 0))
  = {| start := 0; end_ := Z.min (Z.of_nat k) 9 |}.
Proof.
  induction k as [|k IH]; [reflexivity|].
  rewrite Nat.iter_succ.
  destruct (Z.lt_ge_cases (Z.of_nat k) 9) as [L|L].
  - rewrite bottom_signal_below; rewrite IH; simpl; [f_equal|]; lia.
  - rewrite bottom_signal_at_last; rewrite IH; simpl; [f_equal|]; lia.
Qed.

(** Under the scroll handler and [goToChapter] alone the range stays within
    the book, [0 <= start <= end <= chapterCount - 1], in every state
    reached from the first chapter by scrolls, lock releases and jumps from
    the table of contents.  A scroll
    near the bottom adds one to [end] below the last chapter and changes
    nothing at the last chapter; with ten chapters, [k] such scrolls from
    [{0, 0}] give [end = min k 9].  A scroll near the top takes one from
    [start], never below 0, and leaves [end]; a jump sets both to the
    target. *)
Theorem window_within_book :
  (forall chapterCount st events,
     Forall (from_toc chapterCount) events ->
     invariant chapterCount (scrollChapterRange st) ->
     invariant chapterCount (scrollChapterRange (run chapterCount st events)))
  /\ (forall chapterCount events,
        0 < chapterCount ->
        Forall (from_toc chapterCount) events ->
        invariant chapterCount
          (scrollChapterRange (run chapterCount (initial 0) events)))
  /\ (forall chapterCount st,
        end_ (scrollChapterRange st) < chapterCount - 1 ->
        scrollChapterRange (bottom_signal chapterCount st)
        = {| start := start (scrollChapterRange st);
             end_ := end_ (scrollChapterRange st) + 1 |})
  /\ (forall chapterCount st,
        chapterCount - 1 <= end_ (scrollChapterRange st) ->
        bottom_signal chapterCount st = st)
  /\ (forall k,
        scrollChapterRange (Nat.iter k (bottom_signal 10) (initial 0))
        = {| start := 0; end_ := Z.min (Z.of_nat k) 9 |})
  /\ (forall chapterCount st,
        end_ (scrollChapterRange (top_signal chapterCount st))
        = end_ (scrollChapterRange st)
        /\ start (scrollChapterRange (top_signal chapterCount st))
           = (if (0 <? start (scrollChapterRange st)) && negb (prependLock st)
              then start (scrollChapterRange st) - 1
              else start (scrollChapterRange st))
        /\ (0 <= start (scrollChapterRange st) ->
            0 <= start (scrollChapterRange (top_signal chapterCount st))))
  /\ (forall index st,
        scrollChapterRange (goToChapter index st)
        = {| start := index; end_ := index |}).
Proof.
  split; [|split; [|split; [|split; [|split; [|split]]]]].
  - intros. now apply run_invariant.
  - intros chapterCount events Hc Hev. apply run_invariant; [assumption|].
    unfold invariant; simpl; lia.
  - apply bottom_signal_below.
  - apply bottom_signal_at_last.
  - apply bottom_signals_from_zero.
  - intros chapterCount st. unfold top_signal, handleScroll, extend_start.
    cbn [andb].
    destruct (Z.ltb_spec 0 (start (scrollChapterRange st)));
      destruct (prependLock st); simpl; repeat split; try reflexivity; lia.
  - reflexivity.
Qed.

Lemma window_within_book_sample :
  invariant 10
    (scrollChapterRange
       (run 10 (initial 0)
          [Scroll {| start := 0; end_ := 0 |} true false;
           GoToChapter 7;
           Scroll {| start := 0; end_ := 1 |} true true;
           Frame;
           Scroll {| start := 6; end_ := 8 |} true true;
           Scroll {| start := 6; end_ := 8 |} true true])).
Proof.
  apply (proj1 (proj2 window_within_book)).
  - reflexivity.
  - repeat constructor; simpl; lia.
Defined.

End WindowFacts.

(* ================================================================== *)
(** * Facts about pagination *)
(* ================================================================== *)

Module PaginationFacts.

Import Pagination JSFacts.

Local Open Scope Q_scope.

Section WithMeasurer.

Variable offsetHeight : Style -> jsstring -> Q.

(** The binary search comes to its end within the turns it is given, and
    gives 0 or an offset inside the text. *)
Lemma findSplitPoint_loop_result (text : jsstring) (maxHeight : Q)
    (m : Style) (fuel : nat) : forall lo hi best,
  (Z.to_nat (hi + 1 - lo) <= fuel)%nat ->
  exists r,
    findSplitPoint_loop offsetHeight fuel text maxHeight m lo hi best = Some r
    /\ (r = best \/ (lo <= r <= hi)%Z).
Proof.
  induction fuel as [|fuel IH]; intros lo hi best Hf; simpl;
    destruct (Z.leb_spec lo hi) as [L|L]; try (exists best; auto; fail);
    try lia.
  assert (lo <= (lo + hi) / 2 <= hi)%Z
    by (split; [apply Z.div_le_lower_bound | apply Z.div_le_upper_bound]; lia).
  destruct (Qle_bool _ _).
  - destruct (IH ((lo + hi) / 2 + 1)%Z hi ((lo + hi) / 2)%Z) as [r [E Hr]];
      [lia|]. exists r. split; [exact E|]. right. lia.
  - destruct (IH lo ((lo + hi) / 2 - 1)%Z best) as [r [E Hr]]; [lia|].
    exists r. split; [exact E|]. destruct Hr; [now left | right; lia].
Qed.

Lemma findSplitPoint_result (text : jsstring) (maxHeight : Q) (m : Style) :
  exists r,
    findSplitPoint offsetHeight text maxHeight m = Some r
    /\ (r = 0 \/ 1 <= r <= jslength text - 1)%Z.
Proof.
  unfold findSplitPoint.
  apply findSplitPoint_loop_result. unfold jslength. lia.
Qed.

Variables (availableHeight fontSize lineHeight paragraphSpacing
           containerWidth : Q).

Let body := whileBody offsetHeight availableHeight fontSize lineHeight
              paragraphSpacing containerWidth.
Let loop := whileLoop offsetHeight availableHeight fontSize lineHeight
              paragraphSpacing containerWidth.
Let each := forLoop offsetHeight availableHeight fontSize lineHeight
              paragraphSpacing containerWidth.

(** The four ways a turn of the loop can go. *)
Lemma whileBody_cases (st : State) (fullText remaining : jsstring)
    (isFirstFragment : bool) :
  (* the remaining text fits *)
  (exists h,
     body st fullText remaining isFirstFragment =
     Some (Break {| pages := pages st;
                    currentPageParas :=
                      push (currentPageParas st)
                        (piece fullText isFirstFragment remaining);
                    currentHeight := h |}))
  (* a prefix fits: it is placed, the page is flushed *)
  \/ (exists k,
        (1 <= k <= jslength remaining - 1)%Z
        /\ body st fullText remaining isFirstFragment =
           Some (Continue
                   (flush {| pages := pages st;
                             currentPageParas :=
                               push (currentPageParas st)
                                 (piece fullText isFirstFragment
                                    (substring remaining 0 k));
                             currentHeight := currentHeight st |})
                   (substring_from remaining k) false))
  (* nothing fits on a page that has something: flush and retry *)
  \/ (currentPageParas st <> []
      /\ body st fullText remaining isFirstFragment =
         Some (Continue (flush st) remaining isFirstFragment))
  (* nothing fits on an empty page: the text is placed all the same *)
  \/ (currentPageParas st = []
      /\ body st fullText remaining isFirstFragment =
         Some (Break
                 (flush {| pages := pages st;
                           currentPageParas :=
                             push (currentPageParas st)
                               (piece fullText isFirstFragment remaining);
                           currentHeight := currentHeight st |}))).
Proof.
  unfold body, whileBody.
  destruct (Qle_bool _ _); [left; eexists; reflexivity|].
  assert (N : (currentPageParas st <> []
               /\ (0 <? List.length (currentPageParas st))%nat = true)
              \/ (currentPageParas st = []
                  /\ (0 <? List.length (currentPageParas st))%nat = false)).
  { destruct (currentPageParas st) as [|x l]; [right | left]; split;
      try reflexivity; discriminate. }
  destruct (Qle_bool _ _).
  - destruct (findSplitPoint_result remaining
                (safeHeight availableHeight - currentHeight st
                 - (if (0 <? List.length (currentPageParas st))%nat
                    then spacingPx fontSize paragraphSpacing else 0))
                (measurer fontSize lineHeight containerWidth))
      as [k [-> Hk]].
    destruct Hk as [-> | Hk].
    + simpl. destruct N as [[N ->] | [N ->]]; [right; right; left | do 3 right];
        split; auto.
    + destruct (Z.ltb_spec 0 k); [|lia].
      right; left. exists k. split; [exact Hk | reflexivity].
  - destruct N as [[N ->] | [N ->]]; [right; right; left | do 3 right];
      split; auto.
Qed.

Lemma placed_flush (st : State) : placed (flush st) = placed st.
Proof.
  unfold placed, flush, fragments, push. simpl.
  rewrite flat_map_app. simpl. now rewrite !app_nil_r.
Qed.

Lemma well_paged_flush (st : State) :
  well_paged st -> currentPageParas st <> [] -> well_paged (flush st).
Proof.
  unfold well_paged, flush, push. simpl. intros H N.
  apply Forall_app. split; [exact H|]. constructor; [exact N | constructor].
Qed.

Lemma variant_flush (st : State) (remaining : jsstring) :
  variant (flush st) remaining = (2 * List.length remaining)%nat.
Proof. unfold variant, flush. simpl. lia. Qed.

Lemma push_not_nil (A : Type) (l : list A) (x : A) : push l x <> [].
Proof. unfold push. destruct l; discriminate. Qed.

Lemma jslength_pos (c : N) (r : jsstring) :
  (0 <? jslength (c :: r))%Z = true.
Proof. apply Z.ltb_lt. unfold jslength. simpl List.length. lia. Qed.

Lemma adds_one (full remaining : jsstring) (isFirstFragment : bool) :
  remaining <> [] ->
  adds full remaining isFirstFragment [piece full isFirstFragment remaining].
Proof.
  intros N. unfold adds. simpl. rewrite app_nil_r.
  repeat split; auto.
Qed.

(** The [while] loop comes to its end within [variant] turns; the texts of
    the fragments it adds, put together, are the text it started with. *)
Lemma whileLoop_result (full : jsstring) (fuel : nat) :
  forall st remaining isFirstFragment,
  (variant st remaining <= fuel)%nat ->
  exists st' g,
    loop fuel st full remaining isFirstFragment = Some st'
    /\ (well_paged st -> well_paged st')
    /\ placed st' = placed st ++ g
    /\ adds full remaining isFirstFragment g.
Proof.
  unfold loop.
  induction fuel as [|fuel IH]; intros st remaining isFirst Hv;
    destruct remaining as [|c r].
  1, 3: exists st, []; simpl; rewrite app_nil_r; unfold adds; simpl;
    repeat split; auto.
  - unfold variant in Hv. cbn [List.length] in Hv.
    destruct (0 <? _)%nat; lia.
  - cbn [whileLoop]. rewrite jslength_pos.
    set (remaining := c :: r) in *.
    assert (N : remaining <> []) by discriminate.
    destruct (whileBody_cases st full remaining isFirst)
      as [[h E] | [[k [Hk E]] | [[Hc E] | [Hc E]]]];
      unfold body in E; rewrite E; clear E.
    + (* fits *)
      eexists; exists [piece full isFirst remaining].
      split; [reflexivity|]. split; [auto|].
      split; [unfold placed, push; simpl; now rewrite app_assoc|].
      now apply adds_one.
    + (* a prefix is placed *)
      set (st1 := flush _).
      assert (Hk' : (0 <= k <= jslength remaining)%Z) by lia.
      destruct (IH st1 (substring_from remaining k) false)
        as [st' [g [E [Hw' [Hp Ha]]]]].
      * subst st1. rewrite variant_flush, (substring_from_length _ Hk').
        unfold variant in Hv. unfold jslength in Hk.
        destruct (0 <? _)%nat in Hv; lia.
      * exists st', (piece full isFirst (substring remaining 0 k) :: g).
        split; [exact E|]. split.
        { intros Hw. apply Hw'. subst st1.
          apply well_paged_flush; [exact Hw | apply push_not_nil]. }
        split.
        { rewrite Hp. subst st1. rewrite placed_flush.
          unfold placed, push. simpl. now rewrite <- !app_assoc. }
        destruct Ha as [Hcat [Hfull [Htext Hflags]]].
        unfold adds. simpl. rewrite Hcat, substring_split.
        repeat split; auto.
        { constructor; [|exact Htext]. simpl. intros Z.
          apply (f_equal (@List.length _)) in Z.
          rewrite (substring_length _ Hk') in Z. simpl in Z. lia. }
        { destruct g as [|f g']; [constructor|].
          destruct Hflags as [_ [Hf Hr]]. constructor; assumption. }
    + (* flush and retry *)
      destruct (IH (flush st) remaining isFirst)
        as [st' [g [E [Hw' [Hp Ha]]]]].
      * rewrite variant_flush. unfold variant in Hv.
        destruct (currentPageParas st); [congruence|].
        change (0 <? List.length (p :: l))%nat with true in Hv.
        cbv iota in Hv. lia.
      * exists st', g. rewrite placed_flush in Hp.
        split; [exact E|].
        split; [intros Hw; apply Hw'; now apply well_paged_flush|].
        split; [exact Hp | exact Ha].
    + (* placed on an empty page all the same *)
      eexists; exists [piece full isFirst remaining].
      split; [reflexivity|].
      split; [intros Hw; apply well_paged_flush;
              [exact Hw | apply push_not_nil]|].
      split; [rewrite placed_flush; unfold placed, push; simpl;
              now rewrite app_assoc|].
      now apply adds_one.
Qed.

Lemma adds_nothing (full : jsstring) (g : list PageParagraph) :
  adds full [] true g -> g = [].
Proof.
  unfold adds. destruct g as [|f r]; [reflexivity|].
  intros [_ [_ [_ [N _]]]]. congruence.
Qed.

Lemma adds_pieces (p : jsstring) (g : list PageParagraph) :
  p <> [] -> adds p p true g ->
  pieces_of p g /\ Forall (fun f => text f <> []) g.
Proof.
  unfold adds, pieces_of. intros N [Hcat [Hfull [Htext Hflags]]].
  destruct g as [|f r]; [congruence|].
  destruct Hflags as [_ [Hf Hr]].
  split; [|exact Htext]. exists f, r. repeat split; auto.
Qed.

(** The loop over the paragraphs comes to its end; what it places are the
    pieces of the paragraphs that are not empty, in order. *)
Lemma forLoop_result (allParagraphs : list jsstring) : forall st,
  well_paged st ->
  exists st' gs,
    each allParagraphs st = Some st'
    /\ well_paged st'
    /\ placed st' = placed st ++ List.concat gs
    /\ Forall2 pieces_of (filter truthy allParagraphs) gs
    /\ Forall (Forall (fun f => text f <> [])) gs.
Proof.
  unfold each.
  induction allParagraphs as [|p ps IH]; intros st Hw.
  - exists st, []. simpl. rewrite app_nil_r. repeat split; auto.
  - cbn [forLoop].
    destruct (@whileLoop_result p (turns p) st p true)
      as [st1 [g [E [Hw1 [Hp1 Ha]]]]].
    { unfold variant, turns. destruct (0 <? _)%nat; lia. }
    unfold loop in E. rewrite E.
    destruct (IH st1 (Hw1 Hw)) as [st' [gs [E' [Hw' [Hp' [Hgs Htext]]]]]].
    destruct p as [|c r].
    + apply adds_nothing in Ha. subst g. rewrite app_nil_r in Hp1.
      exists st', gs. simpl. rewrite <- Hp1. auto.
    + destruct (@adds_pieces (c :: r) g) as [Hg Hg']; [discriminate|exact Ha|].
      exists st', (g :: gs). simpl.
      rewrite Hp', Hp1, <- app_assoc. repeat split; auto.
Qed.

Lemma fragments_unsplit (ps : list jsstring) :
  fragments (unsplit ps) = List.concat (map (fun p => [piece p true p]) ps)
  /\ Forall2 pieces_of ps (map (fun p => [piece p true p]) ps).
Proof.
  unfold fragments, unsplit. simpl. rewrite app_nil_r. split.
  - induction ps as [|p ps IH]; simpl; [reflexivity | now rewrite IH].
  - induction ps as [|p ps IH]; simpl; constructor; [|exact IH].
    exists (piece p true p), []. simpl. rewrite app_nil_r.
    repeat split; auto.
Qed.

Lemma pieces_not_nil (qs : list jsstring) (gs : list (list PageParagraph)) :
  Forall2 pieces_of qs gs -> List.concat gs = [] -> qs = [].
Proof.
  intros H. destruct H as [|q g qs gs [f [r [-> _]]] _]; [reflexivity|].
  discriminate.
Qed.

(** The two shapes of a page list. *)
Lemma paginateParagraphs_result (allParagraphs : list jsstring)
    (chapterTitle : option jsstring) :
  exists pgs,
    paginateParagraphs offsetHeight availableHeight fontSize lineHeight
      paragraphSpacing containerWidth allParagraphs chapterTitle = Some pgs
    /\ ((((List.length allParagraphs =? 0)%nat
          || Qle_bool availableHeight 0 || Qle_bool containerWidth 0 = true
          \/ filter truthy allParagraphs = [])
         /\ pgs = unsplit allParagraphs)
        \/ ((List.length allParagraphs =? 0)%nat
            || Qle_bool availableHeight 0 || Qle_bool containerWidth 0 = false
            /\ pgs <> []
            /\ Forall (fun pg => paragraphs pg <> []) pgs
            /\ exists gs,
                 fragments pgs = List.concat gs
                 /\ Forall2 pieces_of (filter truthy allParagraphs) gs
                 /\ Forall (Forall (fun f => text f <> [])) gs)).
Proof.
  unfold paginateParagraphs.
  destruct ((List.length allParagraphs =? 0)%nat
            || Qle_bool availableHeight 0 || Qle_bool containerWidth 0).
  { eexists. split; [reflexivity|]. left. auto. }
  set (st0 := {| pages := []; currentPageParas := []; currentHeight := _ |}).
  destruct (forLoop_result allParagraphs (st := st0))
    as [st' [gs [E [Hw [Hp [Hgs Htext]]]]]]; [constructor|].
  unfold each in E. rewrite E. eexists. split; [reflexivity|].
  change (placed st0) with (@nil PageParagraph) in Hp. simpl in Hp.
  set (st2 := if (0 <? List.length (currentPageParas st'))%nat
              then flush st' else st').
  assert (H2 : well_paged st2 /\ fragments (pages st2) = List.concat gs).
  { subst st2. rewrite <- Hp. destruct (currentPageParas st') as [|x l] eqn:C.
    - simpl. split; [exact Hw|]. unfold placed. rewrite C.
      now rewrite app_nil_r.
    - change (0 <? List.length (x :: l))%nat with true. cbv iota. split.
      + apply well_paged_flush; [exact Hw | congruence].
      + rewrite <- (placed_flush st'). unfold placed, flush. simpl.
        now rewrite app_nil_r. }
  destruct H2 as [Hw2 Hf2].
  destruct (pages st2) as [|pg pgs] eqn:P.
  - left. split; [right | reflexivity].
    apply (pieces_not_nil Hgs). now rewrite <- Hf2.
  - right. change (0 <? List.length (pg :: pgs))%nat with true. cbv iota.
    split; [reflexivity|]. split; [discriminate|].
    split; [unfold well_paged in Hw2; now rewrite P in Hw2|].
    exists gs. auto.
Qed.

(** C1.  The engine returns a page list, and the fragments on its pages,
    taken in page order, fall into consecutive groups, one for each
    paragraph shown (every paragraph in the degenerate cases, every
    paragraph that is not empty otherwise): the texts of a group put
    together are the text of its paragraph, the first fragment of the group
    is the only one with [isContinuation = false], the later ones have
    [isContinuation = true], and all carry the paragraph as [fullText]. *)
Theorem pagination_is_lossless (allParagraphs : list jsstring)
    (chapterTitle : option jsstring) :
  exists pgs,
    paginateParagraphs offsetHeight availableHeight fontSize lineHeight
      paragraphSpacing containerWidth allParagraphs chapterTitle = Some pgs
    /\ exists shown groups,
         (shown = allParagraphs \/ shown = filter truthy allParagraphs)
         /\ fragments pgs = List.concat groups
         /\ Forall2 pieces_of shown groups.
Proof.
  destruct (paginateParagraphs_result allParagraphs chapterTitle)
    as [pgs [E [[_ ->] | [_ [_ [_ [gs [Hf [Hgs _]]]]]]]]];
    exists pgs || exists (unsplit allParagraphs); (split; [exact E|]).
  - destruct (fragments_unsplit allParagraphs) as [Hf Hgs].
    exists allParagraphs, (map (fun p => [piece p true p]) allParagraphs).
    auto.
  - exists (filter truthy allParagraphs), gs. auto.
Qed.

Lemma Qle_bool_false (x y : Q) : y < x -> Qle_bool x y = false.
Proof.
  intros H. destruct (Qle_bool x y) eqn:E; [|reflexivity].
  apply Qle_bool_iff in E. exfalso. exact (Qlt_not_le _ _ H E).
Qed.


Lemma truthy_not_nil (p : jsstring) : truthy p = true <-> p <> [].
Proof. destruct p; simpl; split; congruence. Qed.

Lemma filter_truthy_not_nil (ps : list jsstring) :
  Exists (fun p => p <> []) ps -> filter truthy ps <> [].
Proof.
  induction 1 as [p ps Hp | p ps _ IH]; simpl.
  - apply truthy_not_nil in Hp. rewrite Hp. discriminate.
  - destruct (truthy p); [discriminate | exact IH].
Qed.

Lemma pieces_not_empty (qs : list jsstring)
    (gs : list (list PageParagraph)) :
  Forall2 pieces_of qs gs ->
  Forall (fun q => q <> []) qs ->
  Forall (Forall (fun f => text f <> [])) gs ->
  Forall (fun f => text f <> [] /\ fullText f <> []) (List.concat gs).
Proof.
  induction 1 as [|q g qs gs Hg _ IH]; intros Hq Ht; simpl; [constructor|].
  inversion Hq; subst. inversion Ht; subst.
  apply Forall_app. split; [|now apply IH].
  destruct Hg as [f [r [_ [_ [_ [Hfull _]]]]]].
  rewrite Forall_forall in *. intros x Hx. split; [now auto|].
  now rewrite (Hfull x Hx).
Qed.

(** C10, amended.  The engine returns at least one page for every input.
    When height and width are positive and some paragraph is not empty, no
    page is without a fragment, no fragment has an empty text, and no
    fragment stems from an empty paragraph.  (When every paragraph is the
    empty string, the single page returned holds one empty fragment for each
    of them.) *)
Theorem pages_and_fragments_not_empty (allParagraphs : list jsstring)
    (chapterTitle : option jsstring) :
  exists pgs,
    paginateParagraphs offsetHeight availableHeight fontSize lineHeight
      paragraphSpacing containerWidth allParagraphs chapterTitle = Some pgs
    /\ pgs <> []
    /\ (0 < availableHeight -> 0 < containerWidth ->
        Exists (fun p => p <> []) allParagraphs ->
        Forall (fun pg => paragraphs pg <> []) pgs
        /\ Forall (fun f => text f <> [] /\ fullText f <> [])
             (fragments pgs))
    /\ (Forall (fun p => p = []) allParagraphs ->
        pgs = unsplit allParagraphs).
Proof.
  destruct (paginateParagraphs_result allParagraphs chapterTitle)
    as [pgs [E [[D ->] | [D [N [Hpg [gs [Hf [Hgs Ht]]]]]]]]];
    eexists; (split; [exact E|]).
  - split; [discriminate|]. split; [|reflexivity].
    intros Hh Hw Hp. exfalso. destruct D as [D | D].
    + rewrite (Qle_bool_false Hh), (Qle_bool_false Hw) in D.
      destruct allParagraphs; [inversion Hp | discriminate].
    + exact (filter_truthy_not_nil Hp D).
  - split; [exact N|]. split.
    + intros _ _ _. split; [exact Hpg|]. rewrite Hf.
      apply (pieces_not_empty Hgs); [|exact Ht].
      apply Forall_forall. intros q Hq. apply filter_In in Hq.
      now apply truthy_not_nil.
    + intros He. exfalso.
      assert (F : filter truthy allParagraphs = []).
      { clear -He. induction He as [|p ps -> _ IH]; [reflexivity | exact IH]. }
      rewrite F in Hgs. inversion Hgs; subst.
      destruct pgs as [|pg pgs]; [congruence|].
      inversion Hpg; subst. unfold fragments in Hf. simpl in Hf.
      destruct (paragraphs pg); [congruence | discriminate].
Qed.






End WithMeasurer.


(** A paragraph of 53 code units on pages of four lines of ten: forty units
    on the first page, the other thirteen on the second, then the next
    paragraph on the same page. *)
Example split_across_two_pages :
  sample [js "0123456789ABCDEFGHIJabcdefghijKLMNOPQRST0123456789xyz";
          js "next"] None
  = Some
      [{| paragraphs :=
            [{| text := js "0123456789ABCDEFGHIJabcdefghijKLMNOPQRST";
                fullText :=
                  js "0123456789ABCDEFGHIJabcdefghijKLMNOPQRST0123456789xyz";
                isContinuation := false |}];
          showTitle := true |};
       {| paragraphs :=
            [{| text := js "0123456789xyz";
                fullText :=
                  js "0123456789ABCDEFGHIJabcdefghijKLMNOPQRST0123456789xyz";
                isContinuation := true |};
             {| text := js "next"; fullText := js "next";
                isContinuation := false |}];
          showTitle := false |}].
Proof. vm_compute. reflexivity. Qed.

Example no_paragraphs_one_page :
  sample [] (Some (js "Title"))
  = Some [{| paragraphs := []; showTitle := true |}].
Proof. reflexivity. Qed.


Section TwoMeasurers.

Variables offsetHeight offsetHeight' : Style -> jsstring -> Q.

Hypothesis same : forall st t, offsetHeight st t = offsetHeight' st t.

Variables (availableHeight fontSize lineHeight paragraphSpacing
           containerWidth : Q).

Lemma findSplitPoint_loop_same (text : jsstring) (maxHeight : Q) (m : Style)
    (fuel : nat) : forall lo hi best,
  findSplitPoint_loop offsetHeight fuel text maxHeight m lo hi best
  = findSplitPoint_loop offsetHeight' fuel text maxHeight m lo hi best.
Proof.
  induction fuel as [|fuel IH]; intros lo hi best; simpl; [reflexivity|].
  now rewrite same, !IH.
Qed.

Lemma whileBody_same (st : State) (full remaining : jsstring)
    (isFirstFragment : bool) :
  whileBody offsetHeight availableHeight fontSize lineHeight paragraphSpacing
    containerWidth st full remaining isFirstFragment
  = whileBody offsetHeight' availableHeight fontSize lineHeight
      paragraphSpacing containerWidth st full remaining isFirstFragment.
Proof.
  unfold whileBody, findSplitPoint.
  now rewrite findSplitPoint_loop_same, same.
Qed.

Lemma whileLoop_same (full : jsstring) (fuel : nat) :
  forall st remaining isFirstFragment,
  whileLoop offsetHeight availableHeight fontSize lineHeight paragraphSpacing
    containerWidth fuel st full remaining isFirstFragment
  = whileLoop offsetHeight' availableHeight fontSize lineHeight
      paragraphSpacing containerWidth fuel st full remaining isFirstFragment.
Proof.
  induction fuel as [|fuel IH]; intros st remaining isFirst; simpl;
    [reflexivity|].
  rewrite whileBody_same.
  destruct (0 <? jslength remaining)%Z; [|reflexivity].
  destruct (whileBody _ _ _ _ _ _ _ _ _ _) as [[st' r' f'|st']|];
    auto.
Qed.

Lemma forLoop_same (allParagraphs : list jsstring) : forall st,
  forLoop offsetHeight availableHeight fontSize lineHeight paragraphSpacing
    containerWidth allParagraphs st
  = forLoop offsetHeight' availableHeight fontSize lineHeight
      paragraphSpacing containerWidth allParagraphs st.
Proof.
  induction allParagraphs as [|p ps IH]; intros st; simpl; [reflexivity|].
  rewrite whileLoop_same.
  destruct (whileLoop _ _ _ _ _ _ _ _ _ _ _); auto.
Qed.

(** Two runs on the same input whose measurers give the same height for
    every style and text return the same page list. *)
Lemma paginateParagraphs_same (allParagraphs : list jsstring)
    (chapterTitle : option jsstring) :
  exists pgs,
    paginateParagraphs offsetHeight availableHeight fontSize lineHeight
      paragraphSpacing containerWidth allParagraphs chapterTitle = Some pgs
    /\ paginateParagraphs offsetHeight' availableHeight fontSize lineHeight
         paragraphSpacing containerWidth allParagraphs chapterTitle
       = Some pgs.
Proof.
  destruct (paginateParagraphs_result offsetHeight availableHeight fontSize
              lineHeight paragraphSpacing containerWidth allParagraphs
              chapterTitle) as [pgs [E _]].
  exists pgs. split; [exact E|]. rewrite <- E.
  unfold paginateParagraphs, titleHeight.
  rewrite forLoop_same.
  destruct chapterTitle as [t|]; [rewrite same|]; reflexivity.
Qed.

End TwoMeasurers.

(** C10 as stated does not hold for a list that holds only the empty
    paragraph: the page returned holds a fragment, its text is empty, and it
    stems from the empty paragraph. *)
Lemma empty_paragraph_is_shown :
  exists pgs,
    paginateParagraphs (fixed_width 10 20) 100 18 1 0 300 [js ""] None
    = Some pgs
    /\ 0 < 100 /\ 0 < 300 /\ [js ""] <> []
    /\ Exists (fun f => text f = [] /\ fullText f = js "") (fragments pgs).
Proof.
  eexists. split; [vm_compute; reflexivity|].
  repeat split; [discriminate|]. constructor. split; reflexivity.
Qed.

Lemma pages_and_fragments_sample :
  exists pgs,
    paginateParagraphs (fixed_width 10 20) 100 18 1 0 300
      [first_paragraph; js ""; second_paragraph] None = Some pgs
    /\ Forall (fun pg => paragraphs pg <> []) pgs
    /\ Forall (fun f => text f <> [] /\ fullText f <> []) (fragments pgs).
Proof.
  destruct (pages_and_fragments_not_empty (fixed_width 10 20) 100 18 1 0 300
              [first_paragraph; js ""; second_paragraph] None)
    as [pgs [E [_ [H _]]]].
  exists pgs. split; [exact E|]. apply H.
  - reflexivity.
  - reflexivity.
  - constructor. discriminate.
Defined.

End PaginationFacts.

(* ================================================================== *)
(** * Facts about ingestion *)
(* ================================================================== *)

Module EpubFacts.

Import Epub PathFacts.

Local Open Scope js_scope.

Section WithDOM.

Variable dom : DOM.

Lemma bind_throws (A B : Type) (m : result A) (k : A -> result B) (e : exn) :
  (x <- m ;; k x) = Throw e ->
  m = Throw e \/ exists a, m = Ok a /\ k a = Throw e.
Proof.
  destruct m as [a|e']; simpl; intros H; [right; eauto|].
  inversion H. now left.
Qed.

Lemma toc_from_ncx_throws zip opfPath manifestItems e :
  toc_from_ncx dom zip opfPath manifestItems = Throw e -> e = URIError.
Proof.
  unfold toc_from_ncx. destruct (find _ _) as [tocEntry|]; [|discriminate].
  intros H. apply bind_throws in H as [H | [tocPath [_ H]]].
  - now apply resolvePath_throws in H.
  - destruct (zip tocPath); discriminate.
Qed.

Lemma toc_from_nav_throws zip opfPath manifestItems tocMap e :
  toc_from_nav dom zip opfPath manifestItems tocMap = Throw e ->
  e = URIError.
Proof.
  unfold toc_from_nav. destruct (find _ _) as [navEntry|]; [|discriminate].
  destruct (List.length tocMap =? 0)%nat; [|discriminate].
  intros H. apply bind_throws in H as [H | [navPath [_ H]]].
  - now apply resolvePath_throws in H.
  - destruct (zip navPath); discriminate.
Qed.

Lemma title_of_throws tocMap item doc accepted e :
  title_of dom tocMap item doc accepted = Throw e -> e = URIError.
Proof.
  unfold title_of. intros H. apply bind_throws in H as [H | [t [_ H]]];
    [|discriminate].
  destruct (truthy _); [discriminate|].
  apply bind_throws in H as [H | [d [_ H]]]; [|discriminate].
  now apply decodeURIComponent_throws in H.
Qed.

Lemma visit_spine_item_throws zip opfPath manifestItems tocMap chapters
    itemId e :
  visit_spine_item dom zip opfPath manifestItems tocMap chapters itemId
  = Throw e -> e = URIError.
Proof.
  unfold visit_spine_item.
  destruct (map_get manifestItems itemId) as [item|]; [|discriminate].
  destruct (negb _ && negb _); [discriminate|].
  intros H. apply bind_throws in H as [H | [chapterPath [_ H]]].
  - now apply resolvePath_throws in H.
  - destruct (zip chapterPath) as [content|]; [|discriminate].
    destruct (List.length _ =? 0)%nat; [discriminate|].
    apply bind_throws in H as [H | [t [_ H]]]; [|discriminate].
    now apply title_of_throws in H.
Qed.

Lemma visit_spine_throws zip opfPath manifestItems tocMap spineIds :
  forall chapters e,
  visit_spine dom zip opfPath manifestItems tocMap spineIds chapters
  = Throw e -> e = URIError.
Proof.
  induction spineIds as [|itemId rest IH]; intros chapters e; simpl;
    [discriminate|].
  intros H. apply bind_throws in H as [H | [chapters' [_ H]]].
  - now apply visit_spine_item_throws in H.
  - now apply IH in H.
Qed.

(** Past the package document, only the percent-decoding of an href can make
    ingestion fail. *)
Lemma parseEpub_throws (zip : Archive) (e : exn) :
  parseEpub dom zip = Throw e ->
  (malformed dom zip /\ exists message, e = Error message)
  \/ (~ malformed dom zip /\ e = URIError).
Proof.
  unfold parseEpub, malformed.
  destruct (zip (js "META-INF/container.xml")) as [containerXml|];
    [|intros H; inversion H; left; eauto].
  destruct (opfPath_of dom _) as [[|c r]|];
    try (intros H; inversion H; left; eauto; fail).
  destruct (zip (c :: r)) as [opfContent|];
    [|intros H; inversion H; left; eauto].
  intros H. right. split; [discriminate|].
  apply bind_throws in H as [H | [tocMap [_ H]]];
    [now apply toc_from_ncx_throws in H|].
  apply bind_throws in H as [H | [tocMap' [_ H]]];
    [now apply toc_from_nav_throws in H|].
  apply bind_throws in H as [H | [chapters [_ H]]]; [|discriminate].
  now apply visit_spine_throws in H.
Qed.

Lemma malformed_throws (zip : Archive) :
  malformed dom zip -> exists message, parseEpub dom zip = Throw (Error message).
Proof.
  unfold parseEpub, malformed.
  destruct (zip (js "META-INF/container.xml")) as [containerXml|];
    [|eauto].
  destruct (opfPath_of dom _) as [[|c r]|]; eauto.
  intros ->. eauto.
Qed.

(** A spine item with one of the four problems leaves the chapters as they
    are. *)
Lemma visit_spine_item_skipped zip opfPath manifestItems tocMap chapters
    itemId :
  skipped dom zip opfPath manifestItems itemId ->
  visit_spine_item dom zip opfPath manifestItems tocMap chapters itemId
  = Ok chapters.
Proof.
  unfold skipped, visit_spine_item.
  intros [-> | [item [-> [[-> ->] | [chapterPath [-> H]]]]]];
    try reflexivity.
  destruct (negb _ && negb _); [reflexivity|]. simpl.
  destruct H as [-> | [content [-> ->]]]; reflexivity.
Qed.

Lemma visit_spine_app zip opfPath manifestItems tocMap before after :
  forall chapters,
  visit_spine dom zip opfPath manifestItems tocMap (before ++ after) chapters
  = (chapters' <- visit_spine dom zip opfPath manifestItems tocMap before
                    chapters ;;
     visit_spine dom zip opfPath manifestItems tocMap after chapters').
Proof.
  induction before as [|itemId rest IH]; intros chapters; simpl;
    [reflexivity|].
  destruct (visit_spine_item _ _ _ _ _ _ _); simpl; [apply IH | reflexivity].
Qed.

(** ** When every href can be decoded *)

Lemma found_decodable (manifestItems : JSMap ManifestItem)
    (p : jsstring * ManifestItem -> bool) (e : jsstring * ManifestItem) :
  Forall (fun e => decodable (href (snd e))) manifestItems ->
  find p manifestItems = Some e -> decodable (href (snd e)).
Proof.
  intros D H. apply find_some in H as [H _].
  rewrite Forall_forall in D. now apply D.
Qed.

Lemma map_get_decodable (manifestItems : JSMap ManifestItem)
    (itemId : jsstring) (item : ManifestItem) :
  Forall (fun e => decodable (href (snd e))) manifestItems ->
  map_get manifestItems itemId = Some item -> decodable (href item).
Proof.
  unfold map_get. intros D H.
  destruct (find _ manifestItems) as [e|] eqn:F; [|discriminate].
  inversion H; subst. exact (found_decodable _ D F).
Qed.

Lemma toc_from_ncx_returns zip opfPath manifestItems :
  Forall (fun e => decodable (href (snd e))) manifestItems ->
  exists tocMap, toc_from_ncx dom zip opfPath manifestItems = Ok tocMap.
Proof.
  intros D. unfold toc_from_ncx.
  destruct (find _ manifestItems) as [tocEntry|] eqn:F; [|eauto].
  destruct (found_decodable _ D F) as [d Hd].
  destruct (resolvePath_decodable opfPath _ Hd) as [tocPath ->]. simpl.
  destruct (zip tocPath); eauto.
Qed.

Lemma toc_from_nav_returns zip opfPath manifestItems tocMap :
  Forall (fun e => decodable (href (snd e))) manifestItems ->
  exists tocMap',
    toc_from_nav dom zip opfPath manifestItems tocMap = Ok tocMap'.
Proof.
  intros D. unfold toc_from_nav.
  destruct (find _ manifestItems) as [navEntry|] eqn:F; [|eauto].
  destruct (List.length tocMap =? 0)%nat; [|eauto].
  destruct (found_decodable _ D F) as [d Hd].
  destruct (resolvePath_decodable opfPath _ Hd) as [navPath ->]. simpl.
  destruct (zip navPath); eauto.
Qed.

Lemma title_of_returns tocMap item doc accepted :
  decodable (href item) ->
  exists t, title_of dom tocMap item doc accepted = Ok t.
Proof.
  intros [d Hd]. unfold title_of.
  destruct (truthy (toc_lookup tocMap (href item))); simpl; [eauto|].
  rewrite Hd. simpl. eauto.
Qed.

Lemma visit_spine_item_returns zip opfPath manifestItems tocMap chapters
    itemId :
  Forall (fun e => decodable (href (snd e))) manifestItems ->
  exists chapters',
    visit_spine_item dom zip opfPath manifestItems tocMap chapters itemId
    = Ok chapters'.
Proof.
  intros D. unfold visit_spine_item.
  destruct (map_get manifestItems itemId) as [item|] eqn:G; [|eauto].
  destruct (negb _ && negb _); [eauto|].
  pose proof (@map_get_decodable _ _ _ D G) as Hitem.
  destruct Hitem as [d Hd].
  destruct (resolvePath_decodable opfPath _ Hd) as [chapterPath ->]. simpl.
  destruct (zip chapterPath) as [content|]; [|eauto].
  destruct (List.length _ =? 0)%nat; [eauto|].
  destruct (@title_of_returns tocMap item
              (parseFromString dom content text_html) (List.length chapters))
    as [t ->]; [now exists d|].
  simpl. eauto.
Qed.

Lemma visit_spine_returns zip opfPath manifestItems tocMap spineIds :
  Forall (fun e => decodable (href (snd e))) manifestItems ->
  forall chapters,
  exists chapters',
    visit_spine dom zip opfPath manifestItems tocMap spineIds chapters
    = Ok chapters'.
Proof.
  intros D. induction spineIds as [|itemId rest IH]; intros chapters; simpl;
    [eauto|].
  destruct (visit_spine_item_returns zip opfPath tocMap chapters itemId D)
    as [chapters' ->]. simpl. apply IH.
Qed.

Lemma parseEpub_returns (zip : Archive) :
  ~ malformed dom zip -> hrefs_decodable dom zip ->
  exists book, parseEpub dom zip = Ok book.
Proof.
  unfold parseEpub, malformed, hrefs_decodable. intros M D.
  destruct (zip (js "META-INF/container.xml")) as [containerXml|];
    [|tauto].
  destruct (opfPath_of dom _) as [[|c r]|] eqn:O; try tauto.
  destruct (zip (c :: r)) as [opfContent|] eqn:Z; [|tauto].
  specialize (D containerXml (c :: r) opfContent eq_refl O Z).
  destruct (toc_from_ncx_returns zip (c :: r) D) as [tocMap ->]. simpl.
  destruct (toc_from_nav_returns zip (c :: r) tocMap D) as [tocMap' ->].
  simpl.
  destruct (visit_spine_returns zip (c :: r) tocMap'
              (spine_of dom (parseFromString dom opfContent text_xml)) D [])
    as [chapters ->].
  simpl. eauto.
Qed.

(** C5, amended.  Ingestion fails with one of the three errors of a
    malformed archive exactly when the entry point is absent, or names no
    package document, or the package document it names is absent.  Every
    other failure is the [URIError] of percent-decoding an href.  A spine
    item whose id is not in the manifest, whose media type is neither markup
    nor XML, whose resolved file is absent, or in which no tier finds a
    paragraph, adds no chapter, and the loop gives what it gives for the
    remaining items.  When the archive is not malformed and every href of
    the manifest can be percent-decoded, ingestion returns a book. *)
Theorem ingestion_failures :
  (forall zip,
     (exists message, parseEpub dom zip = Throw (Error message))
     <-> malformed dom zip)
  /\ (forall zip e,
        parseEpub dom zip = Throw e ->
        (malformed dom zip /\ exists message, e = Error message)
        \/ (~ malformed dom zip /\ e = URIError))
  /\ (forall zip opfPath manifestItems tocMap chapters itemId,
        skipped dom zip opfPath manifestItems itemId ->
        visit_spine_item dom zip opfPath manifestItems tocMap chapters itemId
        = Ok chapters)
  /\ (forall zip opfPath manifestItems tocMap before itemId after chapters,
        skipped dom zip opfPath manifestItems itemId ->
        visit_spine dom zip opfPath manifestItems tocMap
          (before ++ itemId :: after) chapters
        = visit_spine dom zip opfPath manifestItems tocMap
            (before ++ after) chapters)
  /\ (forall zip,
        ~ malformed dom zip -> hrefs_decodable dom zip ->
        exists book, parseEpub dom zip = Ok book).
Proof.
  split; [|split; [|split; [|split]]]; [| | | |apply parseEpub_returns].
  - intros zip. split; [|apply malformed_throws].
    intros [message H].
    apply parseEpub_throws in H as [[H _] | [_ H]]; [exact H | discriminate].
  - apply parseEpub_throws.
  - intros. now apply visit_spine_item_skipped.
  - intros zip opfPath manifestItems tocMap before itemId after chapters H.
    rewrite !visit_spine_app.
    destruct (visit_spine _ _ _ _ _ before chapters) as [chapters'|e];
      [|reflexivity].
    simpl. now rewrite visit_spine_item_skipped.
Qed.

(** C7, amended.  An item that is kept, whose href has no title in the TOC
    map, neither as it stands nor percent-decoded, and whose document has no
    heading with text, becomes a chapter whose title is the label U+7AE0
    U+8282 followed by a space and the number of chapters kept so far plus
    one. *)
Theorem synthesized_title zip opfPath manifestItems tocMap chapters itemId
    item chapterPath content decoded :
  map_get manifestItems itemId = Some item ->
  includes (mediaType item) (js "html")
  || includes (mediaType item) (js "xml") = true ->
  Path.resolvePath opfPath (href item) = Ok chapterPath ->
  zip chapterPath = Some content ->
  extractParagraphs dom (parseFromString dom content text_html) <> [] ->
  toc_lookup tocMap (href item) = [] ->
  decodeURIComponent (href item) = Ok decoded ->
  toc_lookup tocMap decoded = [] ->
  first_truthy
    (map (trimmed_text dom)
       (querySelectorAll dom (parseFromString dom content text_html)
          sel_headings)) = None ->
  visit_spine_item dom zip opfPath manifestItems tocMap chapters itemId
  = Ok (chapters ++
        [{| title :=
              chapter_label
              ++ String_ (Int (Z.of_nat (List.length chapters) + 1));
            paragraphs :=
              extractParagraphs dom (parseFromString dom content text_html);
            wordCount :=
              count_words
                (extractParagraphs dom
                   (parseFromString dom content text_html)) |}]).
Proof.
  intros Hitem Hmedia Hpath Hfile Hparas Hraw Hdec Hdecoded Hhead.
  unfold visit_spine_item. rewrite Hitem.
  destruct (includes (mediaType item) (js "html"));
    destruct (includes (mediaType item) (js "xml")); try discriminate;
    simpl; rewrite Hpath; simpl; rewrite Hfile;
    (destruct (extractParagraphs dom _) as [|p ps] eqn:E; [congruence|]);
    simpl; unfold title_of; rewrite Hraw; simpl; rewrite Hdec; simpl;
    rewrite Hdecoded; simpl; rewrite Hhead; reflexivity.
Qed.

End WithDOM.

(** Titles from toc.ncx, by the raw and by the decoded href; an unknown id
    is passed over.  The navigation file is in the spine and its media type
    has [xml] in it: it is parsed as [text/html], the labels in it are the
    text of the body, and it becomes a chapter with a synthesized title. *)
Example titled_book :
  parseEpub titled_dom titled_archive
  = Ok {| book_title := js "Unknown";
          chapters :=
            [{| title := js "One"; paragraphs := [js "first one"];
                wordCount := 8 |};
             {| title := chapter_label ++ js "2";
                paragraphs := [js "One Two"]; wordCount := 6 |};
             {| title := js "Two"; paragraphs := [js "inner"];
                wordCount := 5 |}] |}.
Proof. vm_compute. reflexivity. Qed.

(** C5 as stated does not hold for a book whose spine item has a stray
    percent sign in its href: nothing of the archive is malformed and the
    file of the item is absent, yet ingestion fails. *)
Lemma stray_percent_aborts :
  parseEpub stray_percent_dom stray_percent_archive = Throw URIError
  /\ ~ malformed stray_percent_dom stray_percent_archive
  /\ stray_percent_archive (js "100%.xhtml") = None.
Proof.
  split; [vm_compute; reflexivity|]. split; [|vm_compute; reflexivity].
  vm_compute. discriminate.
Qed.

Lemma ingestion_failures_sample :
  visit_spine untitled_dom untitled_archive (js "OEBPS/content.opf")
    untitled_manifest [] ([] ++ js "c0" :: [js "c1"]) []
  = visit_spine untitled_dom untitled_archive (js "OEBPS/content.opf")
      untitled_manifest [] ([] ++ [js "c1"]) [].
Proof.
  apply (proj1 (proj2 (proj2 (proj2 (ingestion_failures untitled_dom))))).
  right. eexists. split; [vm_compute; reflexivity|].
  right. eexists. split; [vm_compute; reflexivity|].
  left. vm_compute. reflexivity.
Defined.

Lemma synthesized_title_sample :
  visit_spine_item untitled_dom untitled_archive (js "OEBPS/content.opf")
    untitled_manifest [] [] (js "c1")
  = Ok [{| title := chapter_label ++ js "1";
           paragraphs := [js "Hello world"];
           wordCount := 10 |}].
Proof.
  apply (@synthesized_title untitled_dom untitled_archive
           (js "OEBPS/content.opf") untitled_manifest [] [] (js "c1")
           {| href := js "text/ch1.xhtml";
              mediaType := js "application/xhtml+xml" |}
           (js "OEBPS/text/ch1.xhtml") (js "chapter one")
           (js "text/ch1.xhtml"));
    try (vm_compute; reflexivity).
  vm_compute. discriminate.
Defined.

(** C7 as stated does not hold: the second spine item of the sample, the
    first that is kept, gets the number 1, but its title is not the English
    one. *)
Lemma synthesized_title_is_not_Chapter :
  parseEpub untitled_dom untitled_archive
  = Ok {| book_title := js "Unknown";
          chapters := [{| title := [31456; 33410; 32; 49]%N;
                          paragraphs := [js "Hello world"];
                          wordCount := 10 |}] |}
  /\ [31456; 33410; 32; 49]%N <> js "Chapter 1".
Proof. split; [vm_compute; reflexivity | discriminate]. Qed.

End EpubFacts.

(* ================================================================== *)
(** * More facts about strings *)
(* ================================================================== *)

Module TrimFacts.

Import Shapes.

Lemma trimStart_head_ok (s : jsstring) : head_ok (trimStart s) = true.
Proof.
  induction s as [|c r IH]; simpl; [reflexivity|].
  destruct (is_space c) eqn:E; [exact IH | simpl; now rewrite E].
Qed.

Lemma trimStart_fixed (s : jsstring) : head_ok s = true -> trimStart s = s.
Proof.
  destruct s as [|c r]; simpl; [reflexivity|].
  destruct (is_space c); [discriminate | reflexivity].
Qed.

(** [trimStart] takes a run of white space off the front. *)
Lemma trimStart_suffix (s : jsstring) :
  exists k, s = k ++ trimStart s /\ forallb is_space k = true.
Proof.
  induction s as [|c r [k [E F]]]; simpl.
  - now exists [].
  - destruct (is_space c) eqn:S.
    + exists (c :: k). simpl. rewrite S, F. split; [now f_equal | reflexivity].
    + now exists [].
Qed.

Lemma head_ok_prefix (u v : jsstring) :
  head_ok (u ++ v) = true -> head_ok u = true.
Proof. destruct u; simpl; auto. Qed.

Lemma trimEnd_prefix (s : jsstring) :
  exists k, s = trimEnd s ++ k /\ forallb is_space k = true.
Proof.
  unfold trimEnd. destruct (trimStart_suffix (rev s)) as [k [E F]].
  exists (rev k). split.
  - rewrite <- rev_app_distr, <- E. symmetry. apply rev_involutive.
  - rewrite forallb_forall in *. intros x Hx. apply F. now apply in_rev.
Qed.

Lemma trimEnd_fixed (s : jsstring) :
  head_ok (rev s) = true -> trimEnd s = s.
Proof.
  intros H. unfold trimEnd. rewrite (trimStart_fixed _ H).
  apply rev_involutive.
Qed.

Lemma trimEnd_last_ok (s : jsstring) : head_ok (rev (trimEnd s)) = true.
Proof. unfold trimEnd. rewrite rev_involutive. apply trimStart_head_ok. Qed.

Lemma trim_head_ok (s : jsstring) : head_ok (trim s) = true.
Proof.
  unfold trim. destruct (trimEnd_prefix (trimStart s)) as [k [E _]].
  apply head_ok_prefix with k. rewrite <- E. apply trimStart_head_ok.
Qed.

Lemma trim_last_ok (s : jsstring) : head_ok (rev (trim s)) = true.
Proof. apply trimEnd_last_ok. Qed.

Lemma trim_fixed (s : jsstring) :
  head_ok s = true -> head_ok (rev s) = true -> trim s = s.
Proof.
  intros H1 H2. unfold trim. rewrite (trimStart_fixed _ H1).
  now apply trimEnd_fixed.
Qed.

Lemma trim_trim (s : jsstring) : trim (trim s) = trim s.
Proof. apply trim_fixed; [apply trim_head_ok | apply trim_last_ok]. Qed.

Lemma trimmed_trim (s : jsstring) :
  truthy (trim s) = true -> Shapes.trimmed (trim s).
Proof.
  intros H. split; [|apply trim_trim].
  destruct (trim s); [discriminate | discriminate].
Qed.

Lemma trimmed_head (p : jsstring) :
  Shapes.trimmed p -> exists c r, p = c :: r /\ is_space c = false.
Proof.
  intros [N T]. destruct p as [|c r]; [congruence|]. exists c, r.
  split; [reflexivity|].
  pose proof (trim_head_ok (c :: r)) as H. rewrite T in H. simpl in H.
  now destruct (is_space c).
Qed.

End TrimFacts.

(* ================================================================== *)
(** * What ingestion returns *)
(* ================================================================== *)

Module ChapterFacts.

Import Epub Shapes TrimFacts.

Local Open Scope js_scope.

Lemma join_nil (ps : list jsstring) : join [] ps = List.concat ps.
Proof.
  induction ps as [|p [|q ps] IH]; simpl in *; [reflexivity| |].
  - now rewrite app_nil_r.
  - now rewrite IH.
Qed.

Lemma filter_length_le (A : Type) (f : A -> bool) (l : list A) :
  (List.length (filter f l) <= List.length l)%nat.
Proof. induction l as [|x l IH]; simpl; [lia|]. destruct (f x); simpl; lia. Qed.

(** Every trimmed paragraph has a code unit that is no white space. *)
Lemma words_at_least (ps : list jsstring) :
  Forall trimmed ps ->
  (List.length ps
   <= List.length (filter (fun c => negb (is_space c)) (List.concat ps)))%nat.
Proof.
  induction 1 as [|p ps Hp _ IH]; simpl; [lia|].
  destruct (trimmed_head Hp) as [c [r [-> Hc]]]. simpl. rewrite Hc. simpl.
  rewrite filter_app, length_app. lia.
Qed.

Lemma count_words_bounds (ps : list jsstring) :
  Forall trimmed ps ->
  (Z.of_nat (List.length ps) <= count_words ps <= jslength (join [] ps))%Z.
Proof.
  intros H. unfold count_words, jslength. rewrite join_nil.
  pose proof (words_at_least H).
  pose proof (filter_length_le (fun c => negb (is_space c)) (List.concat ps)).
  lia.
Qed.

Lemma trimmed_texts (A : Type) (f : A -> jsstring) (l : list A) :
  Forall trimmed (filter truthy (map (fun x => trim (f x)) l)).
Proof.
  apply Forall_forall. intros p Hp. apply filter_In in Hp as [Hin Ht].
  apply in_map_iff in Hin as [x [<- _]]. now apply trimmed_trim.
Qed.

Section WithDOM.

Variable dom : DOM.

(** Whatever tier they come from, paragraphs are trimmed and not empty. *)
Lemma extractParagraphs_trimmed (doc : Document dom) :
  Forall trimmed (extractParagraphs dom doc).
Proof.
  unfold extractParagraphs. cbv zeta.
  destruct (List.length (filter truthy (map (trimmed_text dom)
                                          (querySelectorAll dom doc sel_p)))
            =? 0)%nat eqn:E1; cbv iota;
    [clear E1|rewrite E1; apply (trimmed_texts (textContent dom))].
  destruct (List.length (filter truthy (map (trimmed_text dom) _)) =? 0)%nat;
    [|apply (trimmed_texts (textContent dom))].
  destruct (body dom doc) as [b|]; [|constructor].
  destruct (truthy (trimmed_text dom b)); [|constructor].
  apply (trimmed_texts (fun x => x)).
Qed.

Lemma fallback_not_empty (u label : jsstring) :
  label <> [] -> (if negb (truthy u) then label else u) <> [].
Proof. destruct u; simpl; [auto | discriminate]. Qed.

Lemma title_of_not_empty tocMap item doc accepted t :
  title_of dom tocMap item doc accepted = Ok t -> t <> [].
Proof.
  unfold title_of.
  destruct (truthy (toc_lookup tocMap (href item))); simpl.
  - intros H. inversion H. apply fallback_not_empty. discriminate.
  - destruct (decodeURIComponent (href item)); simpl; [|discriminate].
    intros H. inversion H. apply fallback_not_empty. discriminate.
Qed.

Lemma visit_spine_item_appends zip opfPath manifestItems tocMap chapters
    itemId chapters' :
  visit_spine_item dom zip opfPath manifestItems tocMap chapters itemId
  = Ok chapters' ->
  chapters' = chapters
  \/ exists c, chapters' = chapters ++ [c] /\ chapter_ok c.
Proof.
  unfold visit_spine_item.
  destruct (map_get manifestItems itemId) as [item|];
    [|intros H; inversion H; now left].
  destruct (negb _ && negb _); [intros H; inversion H; now left|].
  destruct (Path.resolvePath opfPath (href item)) as [chapterPath|];
    simpl; [|discriminate].
  destruct (zip chapterPath) as [content|];
    [|intros H; inversion H; now left].
  pose proof (extractParagraphs_trimmed
                (parseFromString dom content text_html)) as T.
  destruct (extractParagraphs dom _) as [|p ps] eqn:E;
    [intros H; inversion H; now left|].
  simpl.
  destruct (title_of dom tocMap item _ _) as [t|] eqn:Ht; simpl;
    [|discriminate].
  intros H. inversion H. right. eexists. split; [reflexivity|].
  unfold chapter_ok. cbn [title paragraphs wordCount].
  split; [now apply title_of_not_empty in Ht|].
  split; [discriminate|]. split; [exact T|].
  now apply count_words_bounds.
Qed.

Lemma visit_spine_appends zip opfPath manifestItems tocMap spineIds :
  forall chapters chapters',
  visit_spine dom zip opfPath manifestItems tocMap spineIds chapters
  = Ok chapters' ->
  exists added,
    chapters' = chapters ++ added
    /\ (List.length added <= List.length spineIds)%nat
    /\ Forall chapter_ok added.
Proof.
  induction spineIds as [|itemId rest IH]; intros chapters chapters'; simpl.
  - intros H. inversion H. exists []. rewrite app_nil_r. auto.
  - destruct (visit_spine_item dom zip opfPath manifestItems tocMap chapters
                itemId) as [chapters1|] eqn:E; simpl; [|discriminate].
    intros H. apply IH in H as [added [-> [L F]]].
    apply visit_spine_item_appends in E as [-> | [c [-> Hc]]].
    + exists added. split; [reflexivity|]. split; [lia | exact F].
    + exists (c :: added). rewrite <- app_assoc. simpl.
      split; [reflexivity|]. split; [lia | now constructor].
Qed.

(** X1.  Every chapter that ingestion returns has a title that is not
    empty and at least one paragraph; its paragraphs are not empty and have
    no white space at either end; its word count is at least the number of
    its paragraphs and at most the number of its code units.  There are at
    most as many chapters as the spine has ids. *)
Theorem chapters_are_sound (zip : Archive) (book : Book) :
  parseEpub dom zip = Ok book ->
  Forall chapter_ok (chapters book)
  /\ (List.length (chapters book) <= List.length (spine_ids dom zip))%nat.
Proof.
  unfold parseEpub, spine_ids.
  destruct (zip (js "META-INF/container.xml")) as [containerXml|];
    [|discriminate].
  destruct (opfPath_of dom _) as [[|c r]|]; try discriminate.
  destruct (zip (c :: r)) as [opfContent|]; [|discriminate].
  destruct (toc_from_ncx dom zip (c :: r) _) as [tocMap|]; simpl;
    [|discriminate].
  destruct (toc_from_nav dom zip (c :: r) _ tocMap) as [tocMap'|]; simpl;
    [|discriminate].
  destruct (visit_spine dom zip (c :: r) _ tocMap' _ []) as [chs|] eqn:E;
    simpl; [|discriminate].
  intros H. inversion H. simpl.
  apply visit_spine_appends in E as [added [-> [L F]]]. simpl. auto.
Qed.

(** ** The TOC map *)

Lemma map_get_set_same (V : Type) (m : JSMap V) (k : jsstring) (v : V) :
  map_get (map_set m k v) k = Some v.
Proof.
  unfold map_get. induction m as [|[k' v'] m IH]; simpl.
  - now rewrite JSFacts.jseqb_refl.
  - destruct (jseqb k' k) eqn:E; simpl; rewrite E; [reflexivity | exact IH].
Qed.

Lemma map_get_set_other (V : Type) (m : JSMap V) (k k' : jsstring) (v : V) :
  jseqb k k' = false -> map_get (map_set m k v) k' = map_get m k'.
Proof.
  intros N. unfold map_get. induction m as [|[k0 v0] m IH]; simpl.
  - now rewrite N.
  - destruct (jseqb k0 k) eqn:E; simpl.
    + apply JSFacts.jseqb_eq in E. subst k0. now rewrite N.
    + destruct (jseqb k0 k'); [reflexivity | exact IH].
Qed.

Lemma map_set_keys (V : Type) (m : JSMap V) (k : jsstring) (v : V) :
  NoDup (map fst m) -> NoDup (map fst (map_set m k v)).
Proof.
  induction m as [|[k' v'] m IH]; simpl; intros H.
  - constructor; [intros [] | constructor].
  - inversion H as [|? ? Hn Hd]; subst.
    destruct (jseqb k' k) eqn:E; simpl; [now constructor|].
    constructor; [|now apply IH].
    intros Hin. apply Hn. clear -Hin E.
    induction m as [|[k0 v0] m IH]; simpl in *.
    + destruct Hin as [<- | []]. now rewrite JSFacts.jseqb_refl in E.
    + destruct (jseqb k0 k); simpl in Hin; [exact Hin|].
      destruct Hin as [-> | Hin]; [now left | right; now apply IH].
Qed.

Lemma visit_navPoint_entry (tocMap : JSMap jsstring) (np : Element dom) :
  visit_navPoint dom tocMap np
  = match nav_entry dom np with
    | Some (h, l) => map_set tocMap h l
    | None => tocMap
    end.
Proof.
  unfold visit_navPoint, nav_entry.
  destruct (getElementsByTagName_in dom np "text") as [|textEl ?];
    [reflexivity|].
  destruct (getElementsByTagName_in dom np "content") as [|contentEl ?];
    [reflexivity|].
  cbv zeta. destruct (truthy _ && truthy _); reflexivity.
Qed.

(** X2.  In the TOC map built from the navPoints of toc.ncx every href
    stands once, and the title kept for an href is the label of the last
    navPoint that names it. *)
Theorem toc_keeps_last_label (navPoints : list (Element dom))
    (href : jsstring) :
  map_get (fold_left (visit_navPoint dom) navPoints []) href
  = last_label (flat_map (fun np => match nav_entry dom np with
                                    | Some e => [e]
                                    | None => []
                                    end) navPoints) href
  /\ NoDup (map fst (fold_left (visit_navPoint dom) navPoints [])).
Proof.
  assert (G : forall nps m,
            NoDup (map fst m) ->
            map_get (fold_left (visit_navPoint dom) nps m) href
            = match last_label
                      (flat_map (fun np => match nav_entry dom np with
                                           | Some e => [e]
                                           | None => []
                                           end) nps) href with
              | Some l => Some l
              | None => map_get m href
              end
            /\ NoDup (map fst (fold_left (visit_navPoint dom) nps m))).
  { induction nps as [|np nps IH]; intros m Hm; simpl; [auto|].
    rewrite visit_navPoint_entry.
    destruct (nav_entry dom np) as [[h l]|]; simpl.
    - destruct (IH (map_set m h l) (map_set_keys m h l Hm)) as [-> Hd].
      split; [|exact Hd].
      destruct (last_label _ href); [reflexivity|].
      destruct (jseqb h href) eqn:E.
      + apply JSFacts.jseqb_eq in E. subst. apply map_get_set_same.
      + now apply map_get_set_other.
    - now apply IH. }
  destruct (G navPoints [] (NoDup_nil _)) as [-> Hd].
  split; [|exact Hd]. now destruct (last_label _ href).
Qed.

End WithDOM.

Lemma chapters_are_sound_sample :
  Forall chapter_ok
    [{| title := js "One"; paragraphs := [js "first one"]; wordCount := 8 |};
     {| title := chapter_label ++ js "2"; paragraphs := [js "One Two"];
        wordCount := 6 |};
     {| title := js "Two"; paragraphs := [js "inner"]; wordCount := 5 |}]
  /\ (3 <= List.length (spine_ids titled_dom titled_archive))%nat.
Proof.
  apply (@chapters_are_sound titled_dom titled_archive
           {| book_title := js "Unknown";
              chapters :=
                [{| title := js "One"; paragraphs := [js "first one"];
                    wordCount := 8 |};
                 {| title := chapter_label ++ js "2";
                    paragraphs := [js "One Two"]; wordCount := 6 |};
                 {| title := js "Two"; paragraphs := [js "inner"];
                    wordCount := 5 |}] |}).
  vm_compute. reflexivity.
Defined.

End ChapterFacts.


(* ================================================================== *)
(** * Identifiers: round trip and freshness *)
(* ================================================================== *)

Module FreshIds.

Import Ids IdsFacts.

Lemma fold_max_bound (l : list N) : forall a x,
  In x l -> (x <= fold_left N.max l a)%N.
Proof.
  assert (M : forall l0 a, (a <= fold_left N.max l0 a)%N).
  { intros l0. induction l0 as [|y l0 IH]; intros a; simpl; [lia|].
    specialize (IH (N.max a y)). lia. }
  induction l as [|y l IH]; intros a x []; simpl.
  - subst. specialize (M l (N.max a x)). lia.
  - now apply IH.
Qed.

Lemma fold_max_succ (l : list N) : forall a b,
  fold_left N.max (map N.succ l) (N.max (N.succ a) b)
  = N.max (N.succ (fold_left N.max l a)) b.
Proof.
  induction l as [|x l IH]; intros a b; simpl; [reflexivity|].
  rewrite <- IH. f_equal. lia.
Qed.

(** The number the next identifier is written from. *)
Lemma next_number_le (b : N) (ns : list N) (s : N) :
  (s <= b)%N -> Forall (fun k => (k < b)%N) ns ->
  (fold_left N.max (map N.succ ns) s <= b)%N.
Proof.
  intros Hs Hns. apply fold_max_le; [exact Hs|].
  apply Forall_forall. intros k Hk. apply in_map_iff in Hk as [n [<- Hn]].
  rewrite Forall_forall in Hns. specialize (Hns n Hn). lia.
Qed.

Lemma safe_below (ns : list N) :
  Forall (fun k => (Z.of_N k <= max_safe)%Z) ns ->
  Forall (fun k => (k < 2 ^ 53)%N) ns.
Proof.
  apply Forall_impl. intros k. unfold max_safe.
  change (2 ^ 53)%N with (Z.to_N (2 ^ 53)). lia.
Qed.

Lemma getNextId_naturals (max_arguments : Z) (ns : list N)
    (quotes : list QuoteItem) (s : N) :
  map id quotes = map (fun k => formatId (Int (Z.of_N k))) ns ->
  Forall (fun k => (Z.of_N k <= max_safe)%Z) ns ->
  (Z.of_N s <= 2 ^ 53)%Z ->
  (Z.of_nat (List.length quotes) <= max_arguments)%Z ->
  getNextId max_arguments quotes (Int (Z.of_N s))
  = Ok (formatId (Int (Z.of_N (fold_left N.max (map N.succ ns) s)))).
Proof.
  intros H Hs Hb Hl. destruct ns as [|n ns].
  - destruct quotes; [reflexivity | discriminate].
  - rewrite (@getNextId_numbered max_arguments n ns quotes (Z.of_N s)
               H Hs Hl).
    do 3 f_equal. simpl. rewrite (N.max_comm s), fold_max_succ. lia.
Qed.

Lemma formatId_injective (n m : N) :
  (Z.of_N n <= 2 ^ 53)%Z -> (Z.of_N m <= 2 ^ 53)%Z ->
  formatId (Int (Z.of_N n)) = formatId (Int (Z.of_N m)) -> n = m.
Proof.
  intros Hn Hm H. apply (f_equal parseInt10) in H.
  rewrite !parseInt10_formatId in H by assumption. injection H as H. lia.
Qed.

(** The number after those in use, or [s] when that is larger: it is above
    the numbers in use, and no quote has its identifier. *)
Lemma next_number_fresh (ns : list N) (quotes : list QuoteItem) (s : N) :
  map id quotes = map (fun k => formatId (Int (Z.of_N k))) ns ->
  Forall (fun k => (Z.of_N k <= max_safe)%Z) ns ->
  (Z.of_N s <= 2 ^ 53)%Z ->
  (Z.of_N (fold_left N.max (map N.succ ns) s) <= 2 ^ 53)%Z
  /\ (s <= fold_left N.max (map N.succ ns) s)%N
  /\ Forall (fun n => (n < fold_left N.max (map N.succ ns) s)%N) ns
  /\ ~ In (formatId (Int (Z.of_N (fold_left N.max (map N.succ ns) s))))
          (map id quotes).
Proof.
  intros H Hs Hb.
  assert (B : (fold_left N.max (map N.succ ns) s <= 2 ^ 53)%N).
  { apply next_number_le; [|now apply safe_below].
    change (2 ^ 53)%N with (Z.to_N (2 ^ 53)). lia. }
  change (2 ^ 53)%N with (Z.to_N (2 ^ 53)) in B.
  assert (A : Forall (fun n => (n < fold_left N.max (map N.succ ns) s)%N)
                ns).
  { apply Forall_forall. intros n Hn.
    pose proof (@fold_max_bound (map N.succ ns) s (N.succ n)
                  (in_map N.succ _ _ Hn)). lia. }
  split; [lia|]. split.
  { clear. revert s. induction ns as [|n ns IH]; intros s; simpl; [lia|].
    specialize (IH (N.max s (N.succ n))). lia. }
  split; [exact A|].
  rewrite H. intros Hin. apply in_map_iff in Hin as [k [E Hk]].
  rewrite Forall_forall in A, Hs. specialize (A k Hk).
  specialize (Hs k Hk). unfold max_safe in Hs.
  apply formatId_injective in E; lia.
Qed.

(** An identifier that [getNextId] gives is written from that number. *)
Lemma getNextId_Ok (max_arguments : Z) (ns : list N)
    (quotes : list QuoteItem) (s : N) (i : jsstring) :
  map id quotes = map (fun k => formatId (Int (Z.of_N k))) ns ->
  Forall (fun k => (Z.of_N k <= max_safe)%Z) ns ->
  (Z.of_N s <= 2 ^ 53)%Z ->
  getNextId max_arguments quotes (Int (Z.of_N s)) = Ok i ->
  i = formatId (Int (Z.of_N (fold_left N.max (map N.succ ns) s))).
Proof.
  intros H Hs Hb G.
  destruct (Z.leb_spec (Z.of_nat (List.length quotes)) max_arguments)
    as [L|L].
  - rewrite (@getNextId_naturals max_arguments ns quotes s H Hs Hb L) in G.
    now injection G as <-.
  - destruct quotes as [|q quotes].
    + destruct ns; [|discriminate]. now injection G as <-.
    + unfold getNextId, Math_max_spread in G. rewrite length_map in G.
      apply Z.leb_gt in L. rewrite L in G. discriminate.
Qed.

(** X3.  An identifier written by [formatId] from a natural number of at
    most 2^53 is read back by [parseInt] as that number, so two such numbers
    never get the same identifier; the identifier has at least three code
    units, all of them decimal digits. *)
Theorem formatId_round_trip (n m : N) :
  (Z.of_N n <= 2 ^ 53)%Z -> (Z.of_N m <= 2 ^ 53)%Z ->
  parseInt10 (formatId (Int (Z.of_N n))) = Int (Z.of_N n)
  /\ (formatId (Int (Z.of_N n)) = formatId (Int (Z.of_N m)) -> n = m)
  /\ (3 <= List.length (formatId (Int (Z.of_N n))))%nat
  /\ Forall (fun c => is_digit c = true) (formatId (Int (Z.of_N n))).
Proof.
  intros Hn Hm.
  split; [now apply parseInt10_formatId|].
  split; [now apply formatId_injective|].
  split; [now apply formatId_nat_length|].
  rewrite formatId_nat by exact Hn. apply Forall_app. split.
  - apply Forall_forall. intros c Hc. apply repeat_spec in Hc. now subst.
  - apply digits_from_are_digits. constructor.
Qed.

Lemma formatId_round_trip_sample :
  parseInt10 (formatId (Int (Z.of_N 9007199254740992)))
  = Int (Z.of_N 9007199254740992)
  /\ (formatId (Int (Z.of_N 9007199254740992)) = formatId (Int (Z.of_N 42))
      -> 9007199254740992%N = 42%N)
  /\ (3 <= List.length (formatId (Int (Z.of_N 9007199254740992))))%nat
  /\ Forall (fun c => is_digit c = true)
       (formatId (Int (Z.of_N 9007199254740992))).
Proof.
  apply (@formatId_round_trip 9007199254740992 42);
    vm_compute; discriminate.
Defined.

(** X4.  When the identifiers of the quotes were all written by [formatId]
    from natural numbers of at most 2^53 - 1, [startingId] is a natural
    number of at most 2^53 and the quotes are at most as many as a call
    takes arguments, [getNextId] gives the identifier of a natural number
    that is at least [startingId] and above every number in use; no quote
    has it. *)
Theorem getNextId_is_fresh (max_arguments : Z) (ns : list N)
    (quotes : list QuoteItem) (s : N) :
  map id quotes = map (fun k => formatId (Int (Z.of_N k))) ns ->
  Forall (fun k => (Z.of_N k <= max_safe)%Z) ns ->
  (Z.of_N s <= 2 ^ 53)%Z ->
  (Z.of_nat (List.length quotes) <= max_arguments)%Z ->
  exists k,
    getNextId max_arguments quotes (Int (Z.of_N s))
    = Ok (formatId (Int (Z.of_N k)))
    /\ (s <= k)%N /\ Forall (fun n => (n < k)%N) ns
    /\ ~ In (formatId (Int (Z.of_N k))) (map id quotes).
Proof.
  intros H Hs Hb Hl.
  destruct (@next_number_fresh ns quotes s H Hs Hb) as [_ F].
  exists (fold_left N.max (map N.succ ns) s).
  split; [now apply getNextId_naturals | exact F].
Qed.

Lemma getNextId_is_fresh_sample :
  exists k,
    getNextId 65535
      [quote_with_id (js "012"); quote_with_id (js "1000");
       quote_with_id (js "007")] (Int (Z.of_N 5))
    = Ok (formatId (Int (Z.of_N k)))
    /\ (5 <= k)%N /\ Forall (fun n => (n < k)%N) [12; 1000; 7]%N
    /\ ~ In (formatId (Int (Z.of_N k)))
           (map id [quote_with_id (js "012"); quote_with_id (js "1000");
                    quote_with_id (js "007")]).
Proof.
  apply (@getNextId_is_fresh 65535 [12; 1000; 7]%N).
  - vm_compute. reflexivity.
  - repeat constructor; vm_compute; discriminate.
  - vm_compute. discriminate.
  - vm_compute. discriminate.
Defined.

(** The bounds are needed: next to 2^53 the identifier of a quote is given
    again, and a number from 10^21 on is not read back from its
    identifier. *)
Example identifiers_above_the_bounds :
  getNextId 65535 [quote_with_id (js "9007199254740992")] (Int 1)
  = Ok (js "9007199254740992")
  /\ parseInt10 (formatId (Int (10 ^ 21))) = Int 1
  /\ getNextId 2 [quote_with_id (js "001"); quote_with_id (js "002");
                  quote_with_id (js "003")] (Int 1)
     = Throw RangeError.
Proof. repeat split; vm_compute; reflexivity. Qed.

End FreshIds.

(* ================================================================== *)
(** * References without escapes *)
(* ================================================================== *)

Module PlainPaths.

Import Path.

Local Open Scope N_scope.

Lemma unescape_plain (s : jsstring) :
  ~ In 37 s -> unescape s = Some (map Unit s).
Proof.
  induction s as [|c r IH]; simpl; intros H; [reflexivity|].
  destruct (N.eqb_spec c 37) as [->|_]; [exfalso; apply H; now left|].
  rewrite IH by (intros Hin; apply H; now right). reflexivity.
Qed.

Lemma utf8_units (s : jsstring) : utf8 (map Unit s) = Some s.
Proof.
  induction s as [|c r IH]; simpl; [reflexivity|]. now rewrite IH.
Qed.

Lemma decodeURIComponent_plain (s : jsstring) :
  ~ In 37 s -> decodeURIComponent s = Ok s.
Proof.
  intros H. unfold decodeURIComponent.
  now rewrite (unescape_plain _ H), utf8_units.
Qed.

Lemma split_not_nil (sep : N) (s : jsstring) : split sep s <> [].
Proof.
  destruct s as [|c r]; simpl; [discriminate|].
  destruct (c =? sep); [discriminate|].
  destruct (split sep r); discriminate.
Qed.

Lemma split_app (sep : N) (a b : jsstring) :
  split sep (a ++ sep :: b) = split sep a ++ split sep b.
Proof.
  induction a as [|c r IH]; simpl.
  - now rewrite N.eqb_refl.
  - destruct (c =? sep); [now rewrite IH|].
    rewrite IH. pose proof (split_not_nil sep r).
    destruct (split sep r); [congruence | reflexivity].
Qed.

Lemma split_plain (sep : N) (a : jsstring) :
  ~ In sep a -> split sep a = [a].
Proof.
  induction a as [|c r IH]; simpl; intros H; [reflexivity|].
  destruct (N.eqb_spec c sep) as [->|_]; [exfalso; apply H; now left|].
  rewrite IH by (intros Hin; apply H; now right). reflexivity.
Qed.

Lemma join_split (sep : N) (s : jsstring) : join [sep] (split sep s) = s.
Proof.
  induction s as [|c r IH]; [reflexivity|].
  cbn [split]. destruct (N.eqb_spec c sep) as [->|_].
  - pose proof (split_not_nil sep r).
    destruct (split sep r) eqn:E; [congruence|].
    cbn [join]. cbn [join] in IH. now rewrite IH.
  - pose proof (split_not_nil sep r).
    destruct (split sep r) as [|seg segs] eqn:E; [congruence|].
    rewrite <- IH. destruct segs; reflexivity.
Qed.

Lemma join_app (sep : jsstring) (l1 l2 : list jsstring) :
  l1 <> [] -> l2 <> [] ->
  join sep (l1 ++ l2) = join sep l1 ++ sep ++ join sep l2.
Proof.
  intros H1 H2. induction l1 as [|x l1 IH]; [congruence|].
  destruct l1 as [|y l1].
  - simpl. destruct l2; [congruence | reflexivity].
  - change (join sep (x :: (y :: l1) ++ l2)
            = (x ++ sep ++ join sep (y :: l1)) ++ sep ++ join sep l2).
    change (join sep (x :: (y :: l1) ++ l2))
      with (x ++ sep ++ join sep ((y :: l1) ++ l2)).
    rewrite IH by discriminate. now rewrite <- !app_assoc.
Qed.

(** Segments that are names: neither [.] nor [..]. *)
Lemma visit_names (segs : list jsstring) : forall baseParts,
  Forall (fun seg => seg <> js "." /\ seg <> js "..") segs ->
  fold_left visit segs baseParts = baseParts ++ segs.
Proof.
  induction segs as [|seg segs IH]; intros baseParts H; simpl.
  - now rewrite app_nil_r.
  - inversion H as [|? ? [H1 H2] Hr]; subst. rewrite IH by exact Hr.
    unfold visit, push.
    destruct (jseqb seg (js "..")) eqn:E2;
      [apply JSFacts.jseqb_eq in E2; congruence|].
    destruct (jseqb seg (js ".")) eqn:E1;
      [apply JSFacts.jseqb_eq in E1; congruence|].
    simpl. now rewrite <- app_assoc.
Qed.

Lemma not_rooted_plain (rel : jsstring) :
  ~ In 47 (firstn 1 rel) -> startsWith rel (js "/") = false.
Proof.
  destruct rel as [|c r]; [reflexivity|]. simpl. intros H.
  destruct (N.eqb_spec c 47) as [->|_]; [exfalso; apply H; now left|].
  reflexivity.
Qed.

Lemma resolve_in (baseParts : list jsstring) (base rel : jsstring) :
  pop (split 47 base) = baseParts ->
  ~ In 37 rel -> startsWith rel (js "/") = false ->
  resolvePath base rel
  = Ok (join (js "/") (fold_left visit (split 47 rel) baseParts)).
Proof.
  intros <- P R. unfold resolvePath. rewrite R.
  rewrite (decodeURIComponent_plain _ P). reflexivity.
Qed.

Lemma pop_file (dir file : jsstring) :
  ~ In 47 file -> pop (split 47 (dir ++ 47 :: file)) = split 47 dir.
Proof.
  intros H. rewrite split_app, (@split_plain 47 file H). apply removelast_last.
Qed.

(** X5.  A reference without escape that does not start with a slash and
    whose segments are names (neither [.] nor [..]) resolves to the
    directory of the base followed by the reference, and to the reference
    itself when the base has no directory.  With [../] in front it resolves
    from the directory above, and what would climb above the root stays at
    the root. *)
Theorem resolvePath_of_names (dir sub file rel : jsstring) :
  ~ In 47 sub -> ~ In 47 file ->
  ~ In 37 rel -> startsWith rel (js "/") = false ->
  Forall (fun seg => seg <> js "." /\ seg <> js "..") (split 47 rel) ->
  resolvePath (dir ++ 47 :: file) rel = Ok (dir ++ 47 :: rel)
  /\ resolvePath file rel = Ok rel
  /\ resolvePath (dir ++ 47 :: sub ++ 47 :: file) (js "../" ++ rel)
     = Ok (dir ++ 47 :: rel)
  /\ resolvePath (sub ++ 47 :: file) (js "../" ++ rel) = Ok rel
  /\ resolvePath file (js "../" ++ rel) = Ok rel.
Proof.
  intros Hs Hf P R Names.
  assert (P' : ~ In 37 (js "../" ++ rel)).
  { simpl. intros [H|[H|[H|H]]]; try discriminate. now apply P. }
  assert (S' : split 47 (js "../" ++ rel) = js ".." :: split 47 rel).
  { change (js "../" ++ rel) with (js ".." ++ 47 :: rel).
    rewrite split_app. reflexivity. }
  assert (J : forall l, l <> [] ->
            join (js "/") (l ++ split 47 rel) = join [47] l ++ 47 :: rel).
  { intros l Hl. change (js "/") with [47].
    rewrite join_app by (auto using split_not_nil).
    now rewrite join_split. }
  repeat split.
  - rewrite (@resolve_in _ _ rel (@pop_file dir file Hf) P R),
      (visit_names _ Names).
    rewrite J by apply split_not_nil. now rewrite join_split.
  - rewrite (@resolve_in [] file rel)
      by (rewrite ?(@split_plain 47 file Hf); auto).
    rewrite (visit_names _ Names). cbn [app].
      change (js "/") with [47]. now rewrite join_split.
  - rewrite (@resolve_in (split 47 dir ++ [sub])
               (dir ++ 47 :: sub ++ 47 :: file) (js "../" ++ rel)); auto.
    + rewrite S'. cbn [fold_left]. unfold visit at 2.
      change (jseqb (js "..") (js "..")) with true. cbv iota.
      unfold pop. rewrite removelast_last, (visit_names _ Names).
      rewrite J by apply split_not_nil. now rewrite join_split.
    + change (dir ++ 47 :: sub ++ 47 :: file)
        with (dir ++ 47 :: (sub ++ 47 :: file)).
      rewrite split_app, (split_app 47 sub file), (@split_plain 47 sub Hs),
        (@split_plain 47 file Hf).
      unfold pop. now rewrite app_assoc, removelast_last.
  - rewrite (@resolve_in [sub] (sub ++ 47 :: file) (js "../" ++ rel)); auto.
    + rewrite S'. cbn [fold_left]. unfold visit at 2.
      change (jseqb (js "..") (js "..")) with true. cbv iota.
      change (pop [sub]) with (@nil jsstring).
      rewrite (visit_names _ Names). cbn [app].
      change (js "/") with [47]. now rewrite join_split.
    + now rewrite split_app, (@split_plain 47 sub Hs),
        (@split_plain 47 file Hf).
  - rewrite (@resolve_in [] file (js "../" ++ rel)); auto.
    + rewrite S'. cbn [fold_left]. unfold visit at 2.
      change (jseqb (js "..") (js "..")) with true. cbv iota.
      change (pop []) with (@nil jsstring).
      rewrite (visit_names _ Names). cbn [app].
      change (js "/") with [47]. now rewrite join_split.
    + now rewrite (@split_plain 47 file Hf).
Qed.

Lemma resolvePath_of_names_sample :
  resolvePath (js "OEBPS/content.opf") (js "Text/ch1.xhtml")
  = Ok (js "OEBPS/Text/ch1.xhtml")
  /\ resolvePath (js "content.opf") (js "Text/ch1.xhtml")
     = Ok (js "Text/ch1.xhtml")
  /\ resolvePath (js "OEBPS/nav/content.opf") (js "../Text/ch1.xhtml")
     = Ok (js "OEBPS/Text/ch1.xhtml")
  /\ resolvePath (js "nav/content.opf") (js "../Text/ch1.xhtml")
     = Ok (js "Text/ch1.xhtml")
  /\ resolvePath (js "content.opf") (js "../Text/ch1.xhtml")
     = Ok (js "Text/ch1.xhtml").
Proof.
  apply (@resolvePath_of_names (js "OEBPS") (js "nav") (js "content.opf")
           (js "Text/ch1.xhtml")).
  - vm_compute. intuition discriminate.
  - vm_compute. intuition discriminate.
  - vm_compute. intuition discriminate.
  - reflexivity.
  - vm_compute. repeat constructor; discriminate.
Defined.

End PlainPaths.

(* ================================================================== *)
(** * The window under scrolling *)
(* ================================================================== *)

Module WindowGrowth.

Import Window.

Local Open Scope Z_scope.

Lemma handleScroll_grows (chapterCount : Z) (seen : Range)
    (nearBottom nearTop : bool) (st : Loader) :
  let st' := handleScroll chapterCount seen nearBottom nearTop st in
  start (scrollChapterRange st) - 1 <= start (scrollChapterRange st')
    <= start (scrollChapterRange st)
  /\ end_ (scrollChapterRange st) <= end_ (scrollChapterRange st')
     <= end_ (scrollChapterRange st) + 1
  /\ (prependLock st = true ->
      start (scrollChapterRange st') = start (scrollChapterRange st))
  /\ (start (scrollChapterRange st') <> start (scrollChapterRange st)
      \/ prependLock st = true ->
      prependLock st' = true).
Proof.
  unfold handleScroll, extend_end, extend_start.
  destruct st as [[s e] lock]; simpl.
  destruct (nearBottom && (end_ seen <? chapterCount - 1));
    destruct (e <? chapterCount - 1); simpl;
    destruct (nearTop && (0 <? start seen)); simpl;
    destruct lock; simpl;
    destruct (0 <? s); simpl; intuition (try lia; try congruence).
Qed.

(** X6.  Scrolling never drops a chapter from the window: every scroll
    leaves [start] or takes one from it, and leaves [end] or adds one to it.
    Whatever the scrolls of a series are, as long as no animation frame
    releases the lock between them they take at most one from [start], and
    nothing when the lock was held before. *)
Theorem scrolls_only_grow (chapterCount : Z)
    (scrolls : list (Range * bool * bool)) (st : Loader) :
  let st' :=
    run chapterCount st
      (map (fun s => Scroll (fst (fst s)) (snd (fst s)) (snd s)) scrolls) in
  start (scrollChapterRange st) - 1 <= start (scrollChapterRange st')
    <= start (scrollChapterRange st)
  /\ end_ (scrollChapterRange st) <= end_ (scrollChapterRange st')
     <= end_ (scrollChapterRange st) + Z.of_nat (List.length scrolls)
  /\ (prependLock st = true ->
      start (scrollChapterRange st') = start (scrollChapterRange st)).
Proof.
  cbv zeta. unfold run.
  assert (G : forall st,
            start (scrollChapterRange st) - 1
              <= start (scrollChapterRange
                   (fold_left (react chapterCount)
                      (map (fun s => Scroll (fst (fst s)) (snd (fst s))
                                       (snd s)) scrolls) st))
              <= start (scrollChapterRange st)
            /\ end_ (scrollChapterRange st)
               <= end_ (scrollChapterRange
                    (fold_left (react chapterCount)
                       (map (fun s => Scroll (fst (fst s)) (snd (fst s))
                                        (snd s)) scrolls) st))
               <= end_ (scrollChapterRange st)
                  + Z.of_nat (List.length scrolls)
            /\ (prependLock st = true ->
                start (scrollChapterRange
                   (fold_left (react chapterCount)
                      (map (fun s => Scroll (fst (fst s)) (snd (fst s))
                                       (snd s)) scrolls) st))
                = start (scrollChapterRange st))).
  { induction scrolls as [|[[seen nb] nt] scrolls IH]; intros st0.
    - simpl. lia.
    - cbn [map fold_left react fst snd List.length].
      pose proof (handleScroll_grows chapterCount seen nb nt st0) as H.
      cbv zeta in H. destruct H as [H1 [H2 [H3 H4]]].
      specialize (IH (handleScroll chapterCount seen nb nt st0)).
      destruct IH as [I1 [I2 I3]].
      rewrite Nat2Z.inj_succ.
      destruct (Z.eq_dec
                  (start (scrollChapterRange
                            (handleScroll chapterCount seen nb nt st0)))
                  (start (scrollChapterRange st0))) as [E|E].
      + split; [lia|]. split; [lia|]. intros L.
        rewrite I3; [exact E|]. apply H4. now right.
      + assert (L : prependLock (handleScroll chapterCount seen nb nt st0)
                    = true) by (apply H4; now left).
        specialize (I3 L). split; [lia|]. split; [lia|].
        intros L0. specialize (H3 L0). congruence. }
  apply G.
Qed.

End WindowGrowth.


(* ================================================================== *)
(** * The binary search and the title of the first page *)
(* ================================================================== *)

Module LayoutFacts.

Import Pagination Layout.

Local Open Scope Q_scope.

Section Search.

Variable offsetHeight : Style -> jsstring -> Q.
Variables (text : jsstring) (maxHeight : Q) (m : Style).

Let ok := prefix_fits offsetHeight text maxHeight m.

(** The search keeps [best = lo - 1]; [best] is 0 or fits. *)
Lemma findSplitPoint_loop_fits (fuel : nat) : forall lo hi best,
  (Z.to_nat (hi + 1 - lo) <= fuel)%nat ->
  (1 <= lo)%Z -> (hi <= jslength text - 1)%Z -> best = (lo - 1)%Z ->
  ((lo <= hi + 1)%Z \/ best = 0%Z) ->
  (best = 0%Z \/ ok best = true) ->
  exists r,
    findSplitPoint_loop offsetHeight fuel text maxHeight m lo hi best = Some r
    /\ (lo - 1 <= r)%Z /\ (r = 0%Z \/ (r <= hi)%Z)
    /\ (r = 0%Z \/ ok r = true)
    /\ ((forall i j, (1 <= i <= j)%Z -> (j <= jslength text - 1)%Z ->
                     ok j = true -> ok i = true) ->
        (forall j, (hi < j <= jslength text - 1)%Z -> ok j = false) ->
        forall j, (r < j <= jslength text - 1)%Z -> ok j = false).
Proof.
  induction fuel as [|fuel IH]; intros lo hi best F L H B W K;
    cbn [findSplitPoint_loop].
  - destruct (Z.leb_spec lo hi) as [C|C]; [lia|].
    exists best. repeat split; auto; try lia.
    intros _ Above j Hj. apply Above. lia.
  - destruct (Z.leb_spec lo hi) as [C|C].
    + assert (M : (lo <= (lo + hi) / 2 <= hi)%Z).
      { split; [apply Z.div_le_lower_bound | apply Z.div_le_upper_bound];
          lia. }
      fold (ok ((lo + hi) / 2)%Z) in *.
      change (Qle_bool (offsetHeight m (substring text 0 ((lo + hi) / 2)))
                maxHeight) with (ok ((lo + hi) / 2)%Z).
      destruct (ok ((lo + hi) / 2)%Z) eqn:E.
      * destruct (IH ((lo + hi) / 2 + 1)%Z hi ((lo + hi) / 2)%Z)
          as [r [R [R1 [R2 [R3 R4]]]]]; auto; try lia.
        exists r. repeat split; auto; lia.
      * destruct (IH lo ((lo + hi) / 2 - 1)%Z best)
          as [r [R [R1 [R2 [R3 R4]]]]]; auto; try lia.
        exists r. repeat split; auto; try lia.
        intros Mono Above. apply R4; [exact Mono|].
        intros j Hj. destruct (Z_le_gt_dec j hi) as [J|J].
        -- destruct (ok j) eqn:Ej; [|reflexivity].
           rewrite (Mono ((lo + hi) / 2)%Z j) in E; auto; try lia.
        -- apply Above. lia.
    + exists best. repeat split; auto; try lia.
      intros _ Above j Hj. apply Above. lia.
Qed.

Lemma findSplitPoint_fits :
  exists r,
    findSplitPoint offsetHeight text maxHeight m = Some r
    /\ (r = 0%Z \/ ((1 <= r <= jslength text - 1)%Z /\ ok r = true))
    /\ ((forall i j, (1 <= i <= j)%Z -> (j <= jslength text - 1)%Z ->
                     ok j = true -> ok i = true) ->
        forall j, (1 <= j <= jslength text - 1)%Z ->
                  (ok j = true <-> (j <= r)%Z)).
Proof.
  unfold findSplitPoint.
  destruct (@findSplitPoint_loop_fits (List.length text) 1%Z
              (jslength text - 1)%Z 0%Z)
    as [r [R [R1 [R2 [R3 R4]]]]]; auto; try (unfold jslength; lia).
  exists r. split; [exact R|]. split.
  - destruct R3 as [->|R3]; [now left|].
    destruct (Z.eq_dec r 0) as [->|N]; [now left|]. right. split; [lia|auto].
  - intros Mono j Hj. split.
    + intros Ej. destruct (Z_le_gt_dec j r) as [J|J]; [exact J|].
      rewrite R4 in Ej; auto; [discriminate | lia | lia].
    + intros J. destruct R3 as [->|R3]; [lia|].
      apply (Mono j r); auto; lia.
Qed.

End Search.

(** X7.  The binary search comes to its end for every text and gives 0 or
    the length of a prefix that is shorter than the text, is not empty and
    is measured within [maxHeight].  When the prefixes that fit are closed
    downwards (a shorter prefix of one that fits fits as well), a prefix
    fits exactly when it is not longer than the result: the result is the
    longest prefix that fits, or 0 when none does. *)
Theorem findSplitPoint_is_longest_fit
    (offsetHeight : Style -> jsstring -> Q) (text : jsstring)
    (maxHeight : Q) (m : Style) :
  exists r,
    findSplitPoint offsetHeight text maxHeight m = Some r
    /\ (r = 0%Z
        \/ ((1 <= r <= jslength text - 1)%Z
            /\ offsetHeight m (substring text 0 r) <= maxHeight))
    /\ ((forall i j, (1 <= i <= j)%Z -> (j <= jslength text - 1)%Z ->
           offsetHeight m (substring text 0 j) <= maxHeight ->
           offsetHeight m (substring text 0 i) <= maxHeight) ->
        forall j, (1 <= j <= jslength text - 1)%Z ->
          (offsetHeight m (substring text 0 j) <= maxHeight <-> (j <= r)%Z)).
Proof.
  destruct (findSplitPoint_fits offsetHeight text maxHeight m)
    as [r [R [F M]]].
  unfold prefix_fits in F, M.
  exists r. split; [exact R|]. split.
  - destruct F as [->|[B F]]; [now left|]. right. split; [exact B|].
    now apply Qle_bool_iff.
  - intros Mono j Hj. rewrite <- Qle_bool_iff. apply M; [|exact Hj].
    intros i j' Hi Hj' E. apply Qle_bool_iff.
    apply (Mono i j'); auto. now apply Qle_bool_iff.
Qed.

(** The synthetic measurer never finds a prefix higher than a longer
    one. *)
Lemma fixed_width_monotone (text : jsstring) (m : Style) (i j : Z) :
  (1 <= i <= j)%Z -> (j <= jslength text - 1)%Z ->
  fixed_width 10 20 m (substring text 0 i)
  <= fixed_width 10 20 m (substring text 0 j).
Proof.
  intros Hi Hj. unfold fixed_width, jslength.
  rewrite !JSFacts.substring_length by (unfold jslength in *; lia).
  rewrite !Z2Nat.id by lia.
  apply Qmult_le_compat_r; [|discriminate].
  rewrite <- Zle_Qle. apply Z.div_le_mono; lia.
Qed.

Lemma findSplitPoint_is_longest_fit_sample :
  exists r,
    findSplitPoint (fixed_width 10 20) first_paragraph 50
      {| width := 300; font_size := 18; line_height := 1;
         semibold := false |} = Some r
    /\ forall j, (1 <= j <= jslength first_paragraph - 1)%Z ->
         (fixed_width 10 20
            {| width := 300; font_size := 18; line_height := 1;
               semibold := false |} (substring first_paragraph 0 j) <= 50
          <-> (j <= r)%Z).
Proof.
  destruct (findSplitPoint_is_longest_fit (fixed_width 10 20)
              first_paragraph 50
              {| width := 300; font_size := 18; line_height := 1;
                 semibold := false |}) as [r [R [_ M]]].
  exists r. split; [exact R|]. apply M.
  intros i j Hi Hj Fit.
  apply (Qle_trans _ _ _ (fixed_width_monotone first_paragraph _ Hi Hj) Fit).
Defined.

Example findSplitPoint_of_lines :
  findSplitPoint (fixed_width 10 20) first_paragraph 50
    {| width := 300; font_size := 18; line_height := 1; semibold := false |}
  = Some 20%Z
  /\ findSplitPoint (fixed_width 10 20) first_paragraph 19
       {| width := 300; font_size := 18; line_height := 1;
          semibold := false |}
     = Some 0%Z
  /\ findSplitPoint (fixed_width 10 20) first_paragraph 1000
       {| width := 300; font_size := 18; line_height := 1;
          semibold := false |}
     = Some 39%Z
  /\ findSplitPoint (fixed_width 10 20) (js "a") 1000
       {| width := 300; font_size := 18; line_height := 1;
          semibold := false |}
     = Some 0%Z.
Proof. vm_compute. repeat split. Qed.

Section WithMeasurer.

Variable offsetHeight : Style -> jsstring -> Q.

Variables (availableHeight fontSize lineHeight paragraphSpacing
           containerWidth : Q).

Let body := whileBody offsetHeight availableHeight fontSize lineHeight
              paragraphSpacing containerWidth.
Let loop := whileLoop offsetHeight availableHeight fontSize lineHeight
              paragraphSpacing containerWidth.
Let each := forLoop offsetHeight availableHeight fontSize lineHeight
              paragraphSpacing containerWidth.
Let h := offsetHeight (measurer fontSize lineHeight containerWidth).
Let gap := gap fontSize paragraphSpacing.
Let safe := safeHeight availableHeight.

(** ** What every turn keeps *)

Section Keeps.

Variable P : State -> Prop.

Hypothesis keeps_placed : forall st full remaining b,
  P st ->
  h remaining + gap st <= safe - currentHeight st ->
  P {| pages := pages st;
       currentPageParas :=
         push (currentPageParas st) (piece full b remaining);
       currentHeight := currentHeight st + (h remaining + gap st) |}.

Hypothesis keeps_split : forall st full remaining b k,
  P st ->
  (1 <= k <= jslength remaining - 1)%Z ->
  h (substring remaining 0 k) <= safe - currentHeight st - gap st ->
  P (flush {| pages := pages st;
              currentPageParas :=
                push (currentPageParas st)
                  (piece full b (substring remaining 0 k));
              currentHeight := currentHeight st |}).

Hypothesis keeps_flushed : forall st,
  P st -> currentPageParas st <> [] -> P (flush st).

Hypothesis keeps_forced : forall st full remaining b,
  P st -> currentPageParas st = [] ->
  P (flush {| pages := pages st;
              currentPageParas :=
                push (currentPageParas st) (piece full b remaining);
              currentHeight := currentHeight st |}).

Lemma whileBody_keeps (st : State) (full remaining : jsstring) (b : bool)
    (t : Turn) :
  P st -> body st full remaining b = Some t ->
  match t with
  | Break st' => P st'
  | Continue st' _ _ => P st'
  end.
Proof.
  intros Hp. unfold body, whileBody. cbv zeta.
  fold h. fold safe.
  change (if (0 <? List.length (currentPageParas st))%nat
          then spacingPx fontSize paragraphSpacing else 0) with (gap st).
  assert (N : forall t',
            (if (0 <? List.length (currentPageParas st))%nat
             then Continue (flush st) remaining b
             else Break (flush {| pages := pages st;
                                  currentPageParas :=
                                    push (currentPageParas st)
                                      {| text := remaining;
                                         fullText := full;
                                         isContinuation := negb b |};
                                  currentHeight := currentHeight st |}))
            = t' ->
            match t' with
            | Break st' => P st'
            | Continue st' _ _ => P st'
            end).
  { intros t' <-. destruct (currentPageParas st) as [|f fs] eqn:E.
    - simpl. rewrite <- E. apply (@keeps_forced st full remaining b Hp E).
    - simpl. apply keeps_flushed; [exact Hp | rewrite E; discriminate]. }
  destruct (Qle_bool (h remaining + gap st) (safe - currentHeight st))
    eqn:E1.
  - intros H. injection H as <-.
    apply (@keeps_placed st full remaining b Hp). now apply Qle_bool_iff.
  - destruct (Qle_bool (minLineHeight fontSize lineHeight)
                (safe - currentHeight st - gap st)) eqn:E2.
    + destruct (findSplitPoint_fits offsetHeight remaining
                  (safe - currentHeight st - gap st)
                  (measurer fontSize lineHeight containerWidth))
        as [r [R [F _]]].
      rewrite R. destruct (Z.ltb_spec 0 r) as [C|C].
      * intros H. injection H as <-.
        destruct F as [->|[B F]]; [lia|].
        apply (@keeps_split st full remaining b r Hp B).
        now apply Qle_bool_iff.
      * intros H. injection H as H. now apply N.
    + intros H. injection H as H. now apply N.
Qed.

Lemma whileLoop_keeps (full : jsstring) (fuel : nat) :
  forall st remaining b st',
  P st -> loop fuel st full remaining b = Some st' -> P st'.
Proof.
  induction fuel as [|fuel IH]; intros st remaining b st' Hp;
    unfold loop; cbn [whileLoop].
  - destruct (0 <? jslength remaining)%Z; [discriminate|].
    intros H. inversion H. now subst.
  - destruct (0 <? jslength remaining)%Z;
      [|intros H; inversion H; now subst].
    destruct (whileBody offsetHeight availableHeight fontSize lineHeight
                paragraphSpacing containerWidth st full remaining b)
      as [[st1 r1 b1|st1]|] eqn:E; [| |discriminate].
    + apply (@whileBody_keeps st full remaining b _ Hp) in E. apply IH. exact E.
    + apply (@whileBody_keeps st full remaining b _ Hp) in E.
      intros H. inversion H. now subst.
Qed.

Lemma forLoop_keeps (allParagraphs : list jsstring) :
  forall st st', P st -> each allParagraphs st = Some st' -> P st'.
Proof.
  induction allParagraphs as [|p ps IH]; intros st st' Hp;
    unfold each; cbn [forLoop].
  - intros H. inversion H. now subst.
  - destruct (whileLoop offsetHeight availableHeight fontSize lineHeight
                paragraphSpacing containerWidth (turns p) st p p true)
      as [st1|] eqn:E; [|discriminate].
    apply IH. apply (@whileLoop_keeps p (turns p) st p true st1 Hp E).
Qed.

End Keeps.

(** ** The title flag *)

Lemma title_flags_push (n : nat) :
  title_flags (S n) = title_flags n ++ [(n =? 0)%nat].
Proof.
  destruct n as [|n]; [reflexivity|]. simpl. f_equal.
  induction n as [|n IH]; [reflexivity|]. simpl. now rewrite <- IH.
Qed.

Lemma flags_flush (st : State) :
  map showTitle (pages st) = title_flags (List.length (pages st)) ->
  map showTitle (pages (flush st))
  = title_flags (List.length (pages (flush st))).
Proof.
  intros H. unfold flush, push. cbn [pages].
  rewrite map_app, length_app, H. simpl List.length.
  rewrite Nat.add_1_r, title_flags_push. reflexivity.
Qed.

Lemma forLoop_flags (allParagraphs : list jsstring) (st st' : State) :
  map showTitle (pages st) = title_flags (List.length (pages st)) ->
  each allParagraphs st = Some st' ->
  map showTitle (pages st') = title_flags (List.length (pages st')).
Proof.
  apply (forLoop_keeps
           (fun st => map showTitle (pages st)
                      = title_flags (List.length (pages st)))).
  - intros st0 full remaining b Hp _. exact Hp.
  - intros st0 full remaining b k Hp _ _. now apply flags_flush.
  - intros st0 Hp _. now apply flags_flush.
  - intros st0 full remaining b Hp _. now apply flags_flush.
Qed.

(** X8.  The engine returns at least one page; the first page of the list
    is the one that shows the chapter title, and no other page does. *)
Theorem title_on_first_page_only (allParagraphs : list jsstring)
    (chapterTitle : option jsstring) :
  exists first rest,
    paginateParagraphs offsetHeight availableHeight fontSize lineHeight
      paragraphSpacing containerWidth allParagraphs chapterTitle
    = Some (first :: rest)
    /\ showTitle first = true
    /\ Forall (fun pg => showTitle pg = false) rest.
Proof.
  assert (G : forall pgs,
            pgs <> [] ->
            map showTitle pgs = title_flags (List.length pgs) ->
            exists first rest,
              Some pgs = Some (first :: rest)
              /\ showTitle first = true
              /\ Forall (fun pg => showTitle pg = false) rest).
  { intros [|first rest] N F; [congruence|].
    exists first, rest. simpl in F. injection F as F1 F2.
    split; [reflexivity|]. split; [exact F1|].
    clear -F2. revert F2. generalize (List.length rest).
    induction rest as [|pg rest IH]; intros n F2; [constructor|].
    destruct n as [|n]; [discriminate|]. simpl in F2.
    injection F2 as E1 E2. constructor; [exact E1|].
    now apply (IH n). }
  unfold paginateParagraphs.
  destruct ((List.length allParagraphs =? 0)%nat
            || Qle_bool availableHeight 0 || Qle_bool containerWidth 0).
  { apply G; [discriminate | reflexivity]. }
  destruct (PaginationFacts.forLoop_result offsetHeight availableHeight
              fontSize lineHeight paragraphSpacing containerWidth
              allParagraphs
              (st := {| pages := []; currentPageParas := [];
                        currentHeight :=
                          titleHeight offsetHeight fontSize containerWidth
                            chapterTitle |}))
    as [st' [gs [E _]]]; [constructor|].
  rewrite E. cbv zeta.
  apply forLoop_flags in E; [|reflexivity].
  destruct (0 <? List.length (currentPageParas st'))%nat.
  - apply flags_flush in E.
    destruct (pages (flush st')) as [|pg pgs] eqn:Pg.
    + unfold flush, push in Pg. simpl in Pg.
      destruct (pages st'); discriminate.
    + simpl Nat.ltb. cbv iota. apply G; [discriminate | exact E].
  - destruct (pages st') as [|pg pgs] eqn:Pg.
    + simpl. apply G; [discriminate | reflexivity].
    + simpl Nat.ltb. cbv iota. apply G; [discriminate | exact E].
Qed.

End WithMeasurer.

Example pages_of_the_sample :
  option_map (map (fun pg => map text (paragraphs pg)))
    (paginateParagraphs (fixed_width 10 20) 100 18 1 (1 # 2) 300
       [first_paragraph; second_paragraph; js "end"] (Some (js "Title")))
  = Some [[js "01234567890123456789"];
          [js "01234567890123456789"; js "abcdefghijabcdefghij"];
          [js "end"]].
Proof. vm_compute. reflexivity. Qed.

End LayoutFacts.


(* ================================================================== *)
(** * Facts about the reader *)
(* ================================================================== *)

Module ReaderFacts.

Import Reader.

Local Open Scope Z_scope.

(** ** Finding a page *)

Lemma at_cons (A : Type) (x : A) (l : list A) (i : Z) :
  0 < i -> at_ (x :: l) i = at_ l (i - 1).
Proof.
  intros H. unfold at_.
  destruct (Z.ltb_spec i 0); [lia|]. destruct (Z.ltb_spec (i - 1) 0); [lia|].
  replace (Z.to_nat i) with (S (Z.to_nat (i - 1))) by lia. reflexivity.
Qed.

Lemma at_in_range (A : Type) (l : list A) (i : Z) :
  0 <= i < Z.of_nat (List.length l) -> exists x, at_ l i = Some x.
Proof.
  intros H. unfold at_. destruct (Z.ltb_spec i 0); [lia|].
  destruct (nth_error l (Z.to_nat i)) eqn:E; [now eexists|].
  apply nth_error_None in E. lia.
Qed.

Lemma at_In (A : Type) (l : list A) (i : Z) (x : A) :
  at_ l i = Some x -> In x l /\ 0 <= i < Z.of_nat (List.length l).
Proof.
  unfold at_. destruct (Z.ltb_spec i 0); [discriminate|]. intros E.
  split; [now apply nth_error_In in E|].
  assert (nth_error l (Z.to_nat i) <> None) by congruence.
  apply nth_error_Some in H0. lia.
Qed.

(** The first hit: it is a hit, and nothing before it is. *)
Lemma findIndex_Some (A : Type) (p : A -> bool) (l : list A) : forall i,
  findIndex p l = Some i ->
  0 <= i < Z.of_nat (List.length l)
  /\ (exists x, at_ l i = Some x /\ p x = true)
  /\ (forall j y, 0 <= j < i -> at_ l j = Some y -> p y = false).
Proof.
  induction l as [|x l IH]; intros i; cbn [findIndex]; [discriminate|].
  destruct (p x) eqn:E.
  - intros H. injection H as <-. cbn [List.length]. split; [lia|].
    split; [exists x; auto | intros; lia].
  - destruct (findIndex p l) as [k|]; [|discriminate].
    intros H. injection H as <-.
    destruct (IH k eq_refl) as [R [[y [Y1 Y2]] F]].
    cbn [List.length]. split; [lia|]. split.
    + exists y. rewrite at_cons by lia.
      replace (Z.succ k - 1) with k by lia. auto.
    + intros j z Hj. destruct (Z.eq_dec j 0) as [->|N].
      * unfold at_. simpl. intros H. injection H as <-. exact E.
      * rewrite at_cons by lia. apply F. lia.
Qed.

Lemma findIndex_hit (A : Type) (p : A -> bool) (l : list A) :
  existsb p l = true -> exists i, findIndex p l = Some i.
Proof.
  induction l as [|x l IH]; simpl; [discriminate|].
  destruct (p x); [now eexists|]. simpl. intros H.
  destruct (IH H) as [i ->]. now eexists.
Qed.

Lemma findIndex_le (A : Type) (p : A -> bool) (l : list A) (i j : Z)
    (x : A) :
  findIndex p l = Some i -> at_ l j = Some x -> p x = true -> i <= j.
Proof.
  intros F At Px. destruct (findIndex_Some _ _ F) as [R [_ B]].
  destruct (Z_le_gt_dec i j) as [L|G]; [exact L|].
  apply at_In in At as At'. destruct At' as [_ Rj].
  rewrite (B j x) in Px; [discriminate | lia | exact At].
Qed.

(** X10.  When there are pages, the effect on the pages leaves [pageIndex]
    at a page that exists, provided it was not negative before or there is a
    pending target; a pending target is used once.  Without pages the
    effect changes nothing. *)
Theorem onPagesChange_in_range (pages : list Pagination.PageData)
    (v : View) :
  (pages <> [] ->
   0 <= pageIndex v \/ truthy_ref (pendingTarget v) <> None ->
   0 <= pageIndex (onPagesChange pages v) < Z.of_nat (List.length pages)
   /\ truthy_ref (pendingTarget (onPagesChange pages v)) = None)
  /\ (pages = [] -> onPagesChange pages v = v).
Proof.
  split; [|intros ->; reflexivity].
  intros Ne H. unfold onPagesChange.
  destruct pages as [|pg pgs] eqn:E; [congruence|]. rewrite <- E.
  assert (L : 0 < Z.of_nat (List.length pages))
    by (rewrite E; simpl List.length; lia).
  replace (List.length pages =? 0)%nat with false
    by (rewrite E; reflexivity).
  destruct (truthy_ref (pendingTarget v)) as [target|] eqn:T.
  - cbn [pageIndex pendingTarget]. split; [|reflexivity].
    destruct (findIndex _ pages) as [i|] eqn:F; [|lia].
    now apply findIndex_Some in F.
  - cbn [pageIndex pendingTarget]. split; [|exact T].
    destruct H as [H | H]; [|congruence].
    unfold reposition.
    destruct (Z.eqb_spec (pageIndex v) 999); [lia|].
    assert (C : 0 <= (if Z.of_nat (List.length pages) <=? pageIndex v
                      then Z.of_nat (List.length pages) - 1
                      else pageIndex v)
                < Z.of_nat (List.length pages)).
    { destruct (Z.leb_spec (Z.of_nat (List.length pages)) (pageIndex v));
        lia. }
    cbv zeta. destruct (truthy_ref (currentFirstPara v)); [|exact C].
    destruct (findIndex _ pages) as [i|] eqn:F; [|exact C].
    now apply findIndex_Some in F.
Qed.

Lemma findIndex_shows_le (pages : list Pagination.PageData) (p : jsstring)
    (i k : Z) (pg : Pagination.PageData) :
  findIndex (shows p) pages = Some i ->
  at_ pages k = Some pg -> shows p pg = true -> i <= k.
Proof. intros F At S. exact (@findIndex_le _ _ _ i k pg F At S). Qed.

Lemma reposition_found (pages : list Pagination.PageData) (p : jsstring)
    (prev : Z) :
  prev <> 999 -> p <> [] -> existsb (shows p) pages = true ->
  findIndex (shows p) pages = Some (reposition pages (Some p) prev).
Proof.
  intros N Hp Ex. unfold reposition.
  destruct (Z.eqb_spec prev 999); [contradiction|]. cbv zeta.
  destruct p as [|c r]; [congruence|]. cbn [truthy_ref truthy].
  destruct (findIndex_hit _ _ Ex) as [i F].
  change (fun pg => existsb (is_para (c :: r)) (Pagination.paragraphs pg))
    with (shows (c :: r)).
  now rewrite F.
Qed.

(** X11.  When the pages change, the paragraph that is first on the page
    with the current index in the new pages is remembered before the
    reader is repositioned.  So, with no pending target and an index other
    than 999: when the new pages have a page with that index whose first
    paragraph is not empty, the reader is put on the first page that shows
    that paragraph, which is that page or an earlier one (the remembered
    paragraph of the old pages plays no part); in particular a reader at
    index 0 stays there.  When the new pages are too few for the index,
    the paragraph remembered before decides: the reader is put on the first
    page that shows it, and on the last page when none does. *)
Theorem reposition_after_pages_change (pages : list Pagination.PageData)
    (v : View) :
  truthy_ref (pendingTarget v) = None ->
  pageIndex v <> 999 ->
  (forall pg first rest,
     at_ pages (pageIndex v) = Some pg ->
     Pagination.paragraphs pg = first :: rest ->
     Pagination.fullText first <> [] ->
     currentFirstPara (pagesChanged pages v)
     = Some (Pagination.fullText first)
     /\ 0 <= pageIndex (pagesChanged pages v) <= pageIndex v
     /\ (exists pg',
           at_ pages (pageIndex (pagesChanged pages v)) = Some pg'
           /\ shows (Pagination.fullText first) pg' = true)
     /\ (forall j pg',
           0 <= j < pageIndex (pagesChanged pages v) ->
           at_ pages j = Some pg' ->
           shows (Pagination.fullText first) pg' = false))
  /\ (forall p,
        pages <> [] ->
        Z.of_nat (List.length pages) <= pageIndex v ->
        currentFirstPara v = Some p -> p <> [] ->
        (existsb (shows p) pages = true ->
         findIndex (shows p) pages = Some (pageIndex (pagesChanged pages v)))
        /\ (existsb (shows p) pages = false ->
            pageIndex (pagesChanged pages v)
            = Z.of_nat (List.length pages) - 1)).
Proof.
  intros T N. split.
  - intros pg first rest At Pg Full.
    assert (Ne : (List.length pages =? 0)%nat = false).
    { destruct pages; [|reflexivity]. unfold at_ in At.
      destruct (pageIndex v <? 0); [discriminate|].
      now destruct (Z.to_nat (pageIndex v)). }
    assert (Sh : shows (Pagination.fullText first) pg = true).
    { unfold shows. rewrite Pg. simpl. unfold is_para at 1.
      now rewrite JSFacts.jseqb_refl. }
    assert (Ex : existsb (shows (Pagination.fullText first)) pages = true).
    { apply existsb_exists. exists pg. split; [|exact Sh].
      now apply at_In in At. }
    unfold pagesChanged, trackFirstPara. rewrite At, Pg.
    unfold onPagesChange. rewrite Ne. cbn [pendingTarget]. rewrite T.
    cbn [pageIndex currentFirstPara]. split; [reflexivity|].
    pose proof (@reposition_found pages (Pagination.fullText first)
                  (pageIndex v) N Full Ex) as F.
    destruct (findIndex_Some _ _ F) as [R [Hit Before]].
    split; [|split; [exact Hit | exact Before]].
    split; [lia|]. exact (@findIndex_shows_le pages _ _ _ pg F At Sh).
  - intros p Ne Over Cur Hp.
    assert (At : at_ pages (pageIndex v) = None).
    { unfold at_. destruct (pageIndex v <? 0); [reflexivity|].
      apply nth_error_None. lia. }
    assert (L : (List.length pages =? 0)%nat = false)
      by (destruct pages; [congruence | reflexivity]).
    unfold pagesChanged, trackFirstPara. rewrite At.
    unfold onPagesChange. rewrite L, T. cbn [pageIndex]. rewrite Cur.
    split.
    + intros Ex. now apply reposition_found.
    + intros Ex. unfold reposition.
      destruct (Z.eqb_spec (pageIndex v) 999); [contradiction|]. cbv zeta.
      destruct p as [|c r]; [congruence|]. cbn [truthy_ref truthy].
      destruct (findIndex _ pages) as [i|] eqn:F.
      * apply findIndex_Some in F as [_ [[x [Ax Px]] _]].
        apply at_In in Ax as [Hin _].
        assert (C : existsb (shows (c :: r)) pages = true)
          by (apply existsb_exists; now exists x).
        congruence.
      * destruct (Z.leb_spec (Z.of_nat (List.length pages)) (pageIndex v));
          [reflexivity | lia].
Qed.

Lemma reposition_after_pages_change_sample :
  (forall pg first rest,
     at_ [page_one; page_two] (pageIndex on_page_two) = Some pg ->
     Pagination.paragraphs pg = first :: rest ->
     Pagination.fullText first <> [] ->
     currentFirstPara (pagesChanged [page_one; page_two] on_page_two)
     = Some (Pagination.fullText first)
     /\ 0 <= pageIndex (pagesChanged [page_one; page_two] on_page_two)
        <= pageIndex on_page_two
     /\ (exists pg',
           at_ [page_one; page_two]
             (pageIndex (pagesChanged [page_one; page_two] on_page_two))
           = Some pg'
           /\ shows (Pagination.fullText first) pg' = true)
     /\ (forall j pg',
           0 <= j < pageIndex (pagesChanged [page_one; page_two] on_page_two)
           -> at_ [page_one; page_two] j = Some pg' ->
           shows (Pagination.fullText first) pg' = false))
  /\ (forall p,
        [page_one; page_two] <> [] ->
        Z.of_nat (List.length [page_one; page_two]) <= pageIndex on_page_two
        -> currentFirstPara on_page_two = Some p -> p <> [] ->
        (existsb (shows p) [page_one; page_two] = true ->
         findIndex (shows p) [page_one; page_two]
         = Some (pageIndex (pagesChanged [page_one; page_two] on_page_two)))
        /\ (existsb (shows p) [page_one; page_two] = false ->
            pageIndex (pagesChanged [page_one; page_two] on_page_two)
            = Z.of_nat (List.length [page_one; page_two]) - 1)).
Proof.
  apply (@reposition_after_pages_change [page_one; page_two] on_page_two).
  - reflexivity.
  - discriminate.
Defined.

(** On the second page, whose first fragment continues a paragraph of the
    first page, any change of the pages (here: to the same pages) takes the
    reader back to the first page. *)
Example back_to_the_start_of_the_paragraph :
  pageIndex (pagesChanged [page_one; page_two] on_page_two) = 0.
Proof. reflexivity. Qed.

(** What was remembered from the old pages is not what decides. *)
Example remembered_paragraph_is_overwritten :
  pageIndex
    (pagesChanged [page_one; page_two]
       {| pageIndex := 0; pendingTarget := None;
          currentFirstPara := Some (js "closing") |}) = 0
  /\ pageIndex
       (onPagesChange [page_one; page_two]
          {| pageIndex := 0; pendingTarget := None;
             currentFirstPara := Some (js "closing") |}) = 1.
Proof. split; reflexivity. Qed.

(** ** Jumping to a quote *)

Lemma startsWith_app (t r : jsstring) : startsWith (t ++ r) t = true.
Proof.
  induction t as [|c t IH]; [reflexivity|]. simpl.
  now rewrite N.eqb_refl, IH.
Qed.

Lemma includes_prefix (t r : jsstring) : includes (t ++ r) t = true.
Proof.
  destruct (t ++ r) eqn:E; simpl; rewrite <- E, startsWith_app; reflexivity.
Qed.

Lemma split_head (sep : N) (s : jsstring) :
  exists line rest tail, split sep s = line :: rest /\ s = line ++ tail.
Proof.
  induction s as [|c r IH]; cbn [split].
  - now exists [], [], [].
  - destruct (N.eqb_spec c sep) as [->|N].
    + now exists [], (split sep r), (sep :: r).
    + destruct IH as [line [rest [tail [E ->]]]]. rewrite E.
      now exists (c :: line), rest, tail.
Qed.

Lemma targetText_prefix (quoteText : jsstring) :
  exists tail, quoteText = targetText quoteText ++ tail.
Proof.
  unfold targetText.
  destruct (split_head 10 quoteText) as [line [rest [tail [-> E]]]].
  now exists tail.
Qed.

Lemma targetText_join (p : jsstring) (rest : list jsstring) :
  targetText (join [10%N] (p :: rest)) = targetText p.
Proof.
  destruct rest as [|q rest]; [reflexivity|].
  change (join [10%N] (p :: q :: rest))
    with (p ++ 10%N :: join [10%N] (q :: rest)).
  unfold targetText. rewrite PlainPaths.split_app.
  pose proof (PlainPaths.split_not_nil 10 p).
  destruct (split 10 p); [congruence | reflexivity].
Qed.

Lemma targetText_not_empty (p : jsstring) :
  Shapes.trimmed p -> targetText p <> [].
Proof.
  intros H. destruct (TrimFacts.trimmed_head H) as [c [r [-> S]]].
  unfold targetText. cbn [split].
  destruct (N.eqb_spec c 10) as [->|_]; [discriminate|].
  destruct (split 10 r); discriminate.
Qed.

Lemma Forall2_In (A B : Type) (R : A -> B -> Prop) (l : list A)
    (l' : list B) (x : A) :
  Forall2 R l l' -> In x l -> exists y, In y l' /\ R x y.
Proof.
  induction 1 as [|a b l l' Hab _ IH]; intros []; [subst|].
  - exists b. split; [now left | exact Hab].
  - destruct (IH H) as [y [Y1 Y2]]. exists y. split; [now right | exact Y2].
Qed.

Section WithMeasurer.

Variable offsetHeight : Pagination.Style -> jsstring -> Q.

Variables (availableHeight fontSize lineHeight paragraphSpacing
           containerWidth : Q).

(** A paragraph that is not empty is shown on some page. *)
Lemma paragraph_is_shown (allParagraphs : list jsstring)
    (chapterTitle : option jsstring) (p : jsstring) :
  In p allParagraphs -> p <> [] ->
  exists pgs,
    Pagination.paginateParagraphs offsetHeight availableHeight fontSize
      lineHeight paragraphSpacing containerWidth allParagraphs chapterTitle
    = Some pgs
    /\ existsb (shows p) pgs = true.
Proof.
  intros Hin Hp.
  destruct (PaginationFacts.paginateParagraphs_result offsetHeight
              availableHeight fontSize lineHeight paragraphSpacing
              containerWidth allParagraphs chapterTitle)
    as [pgs [E [[_ ->]|[_ [_ [_ [gs [Fr [Pieces _]]]]]]]]];
    exists pgs || exists (Pagination.unsplit allParagraphs);
    (split; [exact E|]).
  - unfold Pagination.unsplit. cbn [existsb]. rewrite orb_false_r.
    unfold shows. cbn [Pagination.paragraphs]. apply existsb_exists.
    exists (Pagination.piece p true p). split.
    + unfold Pagination.wrapParas. apply in_map_iff. now exists p.
    + unfold is_para. simpl. apply JSFacts.jseqb_refl.
  - assert (Hf : In p (filter truthy allParagraphs)).
    { apply filter_In. split; [exact Hin|]. now destruct p. }
    destruct (@Forall2_In _ _ _ _ _ p Pieces Hf) as [g [Hg [f [r [-> [_ [_ [Full _]]]]]]]].
    inversion Full as [|? ? Ff _]; subst.
    assert (Hfr : In f (Pagination.fragments pgs)).
    { rewrite Fr. apply in_concat. exists (f :: r). split; [exact Hg|].
      now left. }
    unfold Pagination.fragments in Hfr. apply in_flat_map in Hfr.
    destruct Hfr as [pg [Hpg Hf']]. apply existsb_exists. exists pg.
    split; [exact Hpg|]. unfold shows. apply existsb_exists. exists f.
    split; [exact Hf'|]. unfold is_para. apply JSFacts.jseqb_refl.
Qed.

(** X12.  A jump to a quote whose first paragraph is a paragraph of the
    chapter always finds a page.  The target is the first line of the quote;
    it is not empty and the paragraph starts with it.  On the pages of the
    chapter the reader is put on the first page with a fragment of a
    paragraph that holds the target or is held by it, and the target is
    used up. *)
Theorem quote_jump_finds_page (allParagraphs : list jsstring)
    (chapterTitle : option jsstring) (p : jsstring) (rest : list jsstring)
    (v : View) :
  In p allParagraphs -> Shapes.trimmed p ->
  pendingTarget v = Some (targetText (join [10%N] (p :: rest))) ->
  exists pgs,
    Pagination.paginateParagraphs offsetHeight availableHeight fontSize
      lineHeight paragraphSpacing containerWidth allParagraphs chapterTitle
    = Some pgs
    /\ targetText (join [10%N] (p :: rest)) <> []
    /\ (exists tail, p = targetText (join [10%N] (p :: rest)) ++ tail)
    /\ (exists pg,
          at_ pgs (pageIndex (onPagesChange pgs v)) = Some pg
          /\ existsb (holds (targetText (join [10%N] (p :: rest))))
               (Pagination.paragraphs pg) = true)
    /\ (forall j pg,
          0 <= j < pageIndex (onPagesChange pgs v) ->
          at_ pgs j = Some pg ->
          existsb (holds (targetText (join [10%N] (p :: rest))))
            (Pagination.paragraphs pg) = false)
    /\ pendingTarget (onPagesChange pgs v) = None.
Proof.
  intros Hin Htr Hv. rewrite targetText_join in *.
  pose proof (targetText_not_empty Htr) as Ne.
  destruct (targetText_prefix p) as [tail Ep].
  destruct (@paragraph_is_shown allParagraphs chapterTitle p Hin (proj1 Htr))
    as [pgs [E Shown]].
  exists pgs. split; [exact E|]. split; [exact Ne|].
  split; [now exists tail|].
  assert (Hit : existsb (fun pg => existsb (holds (targetText p))
                                     (Pagination.paragraphs pg)) pgs = true).
  { apply existsb_exists in Shown as [pg [Hpg Hs]].
    apply existsb_exists. exists pg. split; [exact Hpg|].
    unfold shows in Hs. apply existsb_exists in Hs as [f [Hf Hp]].
    apply existsb_exists. exists f. split; [exact Hf|].
    unfold is_para in Hp. apply JSFacts.jseqb_eq in Hp.
    unfold holds. rewrite Hp. rewrite Ep at 1.
    now rewrite includes_prefix. }
  destruct (findIndex_hit _ _ Hit) as [i F].
  destruct (findIndex_Some _ _ F) as [R [Found Before]].
  unfold onPagesChange.
  destruct pgs as [|pg0 pgs'] eqn:Epg; [discriminate|]. rewrite <- Epg in *.
  replace (List.length pgs =? 0)%nat with false by (rewrite Epg; reflexivity).
  rewrite Hv. cbn [truthy_ref].
  destruct (targetText p) as [|c r] eqn:Et; [congruence|].
  cbn [truthy pageIndex pendingTarget]. rewrite F. auto.
Qed.

End WithMeasurer.

Lemma quote_jump_finds_page_sample :
  exists pgs,
    Pagination.sample two_paragraphs None = Some pgs
    /\ targetText (join [10%N] two_paragraphs) <> []
    /\ (exists tail,
          js "opening" = targetText (join [10%N] two_paragraphs) ++ tail)
    /\ (exists pg,
          at_ pgs (pageIndex (onPagesChange pgs jumping)) = Some pg
          /\ existsb (holds (targetText (join [10%N] two_paragraphs)))
               (Pagination.paragraphs pg) = true)
    /\ (forall j pg,
          0 <= j < pageIndex (onPagesChange pgs jumping) ->
          at_ pgs j = Some pg ->
          existsb (holds (targetText (join [10%N] two_paragraphs)))
            (Pagination.paragraphs pg) = false)
    /\ pendingTarget (onPagesChange pgs jumping) = None.
Proof.
  apply (@quote_jump_finds_page (Pagination.fixed_width 10 20) 100 18 1 0
           300 two_paragraphs None (js "opening")
           [[115; 101; 99; 111; 110; 100; 10; 108; 105; 110; 101]%N]
           jumping).
  - now left.
  - split; [discriminate | reflexivity].
  - reflexivity.
Defined.

(** ** Turning pages *)

(** X13.  In page turn mode, on a page of a chapter of the book, with the
    callbacks of the current render: the next page is the page after in the
    same chapter, or the first page of the chapter after, or (on the last
    page of the last chapter) the same page; the page before is the page
    before in the same chapter, or the chapter before with the mark 999, or
    (on the first page of the first chapter) the same page.  The chapter
    stays a chapter of the book.  Going on and then back leads to the page
    left: directly, or through the mark 999, which the effect on the pages
    turns into the last page.  A tick of auto play does what going on does,
    and ends auto play where going on does nothing. *)
Theorem page_turns_stay_in_book (pages : list Pagination.PageData)
    (chapterCount : Z) (first : option jsstring) (st : Turner) :
  0 <= currentChapterIndex st < chapterCount ->
  0 <= page st < Z.of_nat (List.length pages) ->
  let pagesLength := Z.of_nat (List.length pages) in
  let next := handleNextPage pagesLength chapterCount st st in
  let prev := handlePrevPage st st in
  let back := handlePrevPage next next in
  (0 <= currentChapterIndex next < chapterCount
   /\ 0 <= currentChapterIndex prev < chapterCount)
  /\ ((currentChapterIndex next = currentChapterIndex st
       /\ page next = page st + 1 /\ page next < pagesLength)
      \/ (currentChapterIndex next = currentChapterIndex st + 1
          /\ page next = 0 /\ page st = pagesLength - 1)
      \/ (next = st /\ page st = pagesLength - 1
          /\ currentChapterIndex st = chapterCount - 1))
  /\ ((currentChapterIndex prev = currentChapterIndex st
       /\ page prev = page st - 1 /\ 0 <= page prev)
      \/ (currentChapterIndex prev = currentChapterIndex st - 1
          /\ page prev = 999 /\ page st = 0)
      \/ (prev = st /\ page st = 0 /\ currentChapterIndex st = 0))
  /\ (next <> st ->
      currentChapterIndex back = currentChapterIndex st
      /\ (page back = page st
          \/ (page back = 999 /\ reposition pages first 999 = page st)))
  /\ (next <> st -> tick pagesLength chapterCount st st = next)
  /\ (next = st ->
      tick pagesLength chapterCount st st
      = {| currentChapterIndex := currentChapterIndex st;
           page := page st;
           isAutoPlaying := false |}).
Proof.
  intros Hc Hp. cbv zeta.
  unfold handleNextPage, handlePrevPage, tick, reposition.
  destruct st as [c p auto]. cbn [currentChapterIndex page isAutoPlaying] in *.
  destruct (Z.ltb_spec p (Z.of_nat (List.length pages) - 1)) as [P|P];
    destruct (Z.ltb_spec c (chapterCount - 1)) as [C|C];
    destruct (Z.ltb_spec 0 p) as [P0|P0];
    destruct (Z.ltb_spec 0 c) as [C0|C0];
    cbn [currentChapterIndex page isAutoPlaying];
    repeat match goal with
           | |- context [ (0 <? ?x) ] => destruct (Z.ltb_spec 0 x); try lia
           end;
    cbn [currentChapterIndex page isAutoPlaying];
    change (999 =? 999) with true; cbv iota;
    repeat split; try lia; try congruence; auto;
    try (left; repeat split; lia);
    try (right; left; repeat split; lia);
    try (right; right; repeat split; (reflexivity || lia));
    try (intros _; split; [lia|]; (left; lia) || (right; split; lia));
    try (intros E; injection E; intros; lia).
Qed.

Lemma page_turns_stay_in_book_sample :
  let st := {| currentChapterIndex := 3; page := 1; isAutoPlaying := true |} in
  let pagesLength := Z.of_nat (List.length [page_one; page_two]) in
  let next := handleNextPage pagesLength 5 st st in
  let prev := handlePrevPage st st in
  let back := handlePrevPage next next in
  (0 <= currentChapterIndex next < 5 /\ 0 <= currentChapterIndex prev < 5)
  /\ ((currentChapterIndex next = currentChapterIndex st
       /\ page next = page st + 1 /\ page next < pagesLength)
      \/ (currentChapterIndex next = currentChapterIndex st + 1
          /\ page next = 0 /\ page st = pagesLength - 1)
      \/ (next = st /\ page st = pagesLength - 1
          /\ currentChapterIndex st = 5 - 1))
  /\ ((currentChapterIndex prev = currentChapterIndex st
       /\ page prev = page st - 1 /\ 0 <= page prev)
      \/ (currentChapterIndex prev = currentChapterIndex st - 1
          /\ page prev = 999 /\ page st = 0)
      \/ (prev = st /\ page st = 0 /\ currentChapterIndex st = 0))
  /\ (next <> st ->
      currentChapterIndex back = currentChapterIndex st
      /\ (page back = page st
          \/ (page back = 999
              /\ reposition [page_one; page_two] None 999 = page st)))
  /\ (next <> st -> tick pagesLength 5 st st = next)
  /\ (next = st ->
      tick pagesLength 5 st st
      = {| currentChapterIndex := currentChapterIndex st;
           page := page st;
           isAutoPlaying := false |}).
Proof.
  apply (@page_turns_stay_in_book [page_one; page_two] 5 None
           {| currentChapterIndex := 3; page := 1; isAutoPlaying := true |}).
  - simpl. lia.
  - simpl. lia.
Defined.

(** ** The quote list *)

Lemma natural_ids (bound : Z) (quotes : list Ids.QuoteItem) :
  Forall (fun q => natural_id bound (Ids.id q)) quotes ->
  exists ns,
    Forall (fun k => Z.of_N k < bound) ns
    /\ map Ids.id quotes = map (fun k => Ids.formatId (Int (Z.of_N k))) ns.
Proof.
  induction 1 as [|q quotes [n [Bn Hn]] _ [ns [Bs IH]]]; [now exists []|].
  exists (n :: ns). split; [now constructor|]. simpl. now rewrite Hn, IH.
Qed.

Lemma ids_ok_mono (bound bound' : Z) (quotes : list Ids.QuoteItem) :
  bound <= bound' -> ids_ok bound quotes -> ids_ok bound' quotes.
Proof.
  intros Hb [Hd Hn]. split; [exact Hd|].
  eapply Forall_impl; [|exact Hn]. intros q [n [Bn E]].
  exists n. split; [lia | exact E].
Qed.

Lemma id_not_in (quotes : list Ids.QuoteItem) (i : jsstring) :
  ~ In i (map Ids.id quotes) ->
  filter (fun q => negb (jseqb (Ids.id q) i)) quotes = quotes.
Proof.
  induction quotes as [|q quotes IH]; simpl; intros H; [reflexivity|].
  destruct (jseqb (Ids.id q) i) eqn:E.
  - apply JSFacts.jseqb_eq in E. exfalso. apply H. now left.
  - simpl. rewrite IH; [reflexivity|]. intros Hin. apply H. now right.
Qed.

(** The identifier that [getNextId] gives for quotes numbered below a bound
    of at most 2^53 is written from a natural number that is at most the
    bound, and no quote has it. *)
Lemma next_id_below (max_arguments bound : Z) (quotes : list Ids.QuoteItem)
    (s : N) (i : jsstring) :
  ids_ok bound quotes -> bound <= 2 ^ 53 -> Z.of_N s <= bound ->
  Ids.getNextId max_arguments quotes (Int (Z.of_N s)) = Ok i ->
  natural_id (bound + 1) i /\ ~ In i (map Ids.id quotes).
Proof.
  intros [Hd Hn] Hb Hs G. destruct (natural_ids Hn) as [ns [Bs E]].
  assert (Safe : Forall (fun k => Z.of_N k <= max_safe) ns).
  { eapply Forall_impl; [|exact Bs]. cbv beta. unfold max_safe. lia. }
  assert (S53 : Z.of_N s <= 2 ^ 53) by lia.
  pose proof (@FreshIds.getNextId_Ok max_arguments ns quotes s i E Safe
                S53 G) as Ei.
  destruct (@FreshIds.next_number_fresh ns quotes s E Safe S53)
    as [_ [_ [_ Fresh]]].
  subst i. split; [|exact Fresh].
  eexists. split; [|reflexivity].
  assert (B : (fold_left N.max (map N.succ ns) s <= Z.to_N bound)%N).
  { apply FreshIds.next_number_le; [lia|].
    eapply Forall_impl; [|exact Bs]. cbv beta. lia. }
  lia.
Qed.

Lemma handleRemoveQuote_keeps_ids (bound : Z) (quotes : list Ids.QuoteItem)
    (i : jsstring) :
  ids_ok bound quotes ->
  ids_ok bound (handleRemoveQuote quotes i)
  /\ ~ In i (map Ids.id (handleRemoveQuote quotes i)).
Proof.
  intros [Hd Hn]. unfold handleRemoveQuote, ids_ok. split; [split|].
  - clear Hn. induction quotes as [|q quotes IH]; simpl; [constructor|].
    inversion Hd as [|? ? Hq Hr]; subst.
    destruct (jseqb (Ids.id q) i); simpl; [now apply IH|].
    constructor; [|now apply IH].
    intros Hin. apply Hq. apply in_map_iff in Hin as [q' [E Hq']].
    apply filter_In in Hq' as [Hq' _]. apply in_map_iff. now exists q'.
  - apply Forall_forall. intros q Hq. apply filter_In in Hq as [Hq _].
    rewrite Forall_forall in Hn. now apply Hn.
  - intros Hin. apply in_map_iff in Hin as [q [E Hq]].
    apply filter_In in Hq as [_ Hq]. subst i.
    now rewrite JSFacts.jseqb_refl in Hq.
Qed.

Lemma edit_keeps_ids (max_arguments bound : Z) (quotes : list Ids.QuoteItem)
    (e : Edit) :
  ids_ok bound quotes -> bound <= 2 ^ 53 -> starting e <= bound ->
  ids_ok (bound + 1) (edit max_arguments quotes e).
Proof.
  intros H Hb Hs. destruct e as [s bookTitle bookTags text ci ct author|i];
    cbn [edit starting] in *.
  - unfold addQuote.
    destruct (Ids.getNextId max_arguments quotes (Int (Z.of_N s)))
      as [i|err] eqn:G; [|apply (ids_ok_mono (bound := bound)); [lia|exact H]].
    destruct (@next_id_below max_arguments bound quotes s i H Hb Hs G)
      as [Ni Fresh].
    destruct (@ids_ok_mono bound (bound + 1) quotes ltac:(lia) H)
      as [Hd Hn].
    unfold handleAddQuote, ids_ok. split.
    + rewrite map_app. simpl.
      apply NoDup_app; [exact Hd | repeat constructor; intros [] |].
      intros x Hx [<-|[]]. now apply Fresh.
    + apply Forall_app. split; [exact Hn|]. now repeat constructor.
  - apply (ids_ok_mono (bound := bound)); [lia|].
    now apply handleRemoveQuote_keeps_ids.
Qed.

(** X14.  While the numbers stay at most 2^53, the quotes keep identifiers
    that are all different, each written by [formatId] from a natural
    number, whatever quotes are added and removed from the reader: when the
    identifiers are written from numbers below a bound, every starting
    identifier is at most that bound, and the bound and the number of edits
    together are at most 2^53.  (An addition to more quotes than a call
    takes arguments throws and adds nothing.) *)
Theorem quote_ids_stay_distinct (max_arguments bound : Z)
    (edits : list Edit) (quotes : list Ids.QuoteItem) :
  ids_ok bound quotes ->
  Forall (fun e => starting e <= bound) edits ->
  bound + Z.of_nat (List.length edits) <= 2 ^ 53 ->
  ids_ok (bound + Z.of_nat (List.length edits))
    (fold_left (edit max_arguments) edits quotes).
Proof.
  revert bound quotes.
  induction edits as [|e edits IH]; intros bound quotes H Hs Hb.
  - cbn [fold_left List.length]. now rewrite Z.add_0_r.
  - cbn [fold_left]. inversion Hs as [|? ? He Hr]; subst.
    cbn [List.length] in *. rewrite Nat2Z.inj_succ in *.
    replace (bound + Z.succ (Z.of_nat (List.length edits)))
      with (bound + 1 + Z.of_nat (List.length edits)) by lia.
    apply IH.
    + apply edit_keeps_ids; [exact H | lia | exact He].
    + eapply Forall_impl; [|exact Hr]. cbv beta. lia.
    + lia.
Qed.

Lemma quote_ids_stay_distinct_sample :
  ids_ok
    (8 + Z.of_nat
           (List.length
              [Add 1 (js "Book") [js "tag"] (js "one") 0 (js "I") None;
               Add 1 (js "Book") [js "tag"] (js "two") 0 (js "I") None;
               Remove (js "001");
               Add 1 (js "Book") [js "tag"] (js "three") 2 (js "III") None;
               Add 7 (js "Book") [] (js "four") 2 (js "III")
                 (Some (js "A"))]))
    (fold_left (edit 65535)
       [Add 1 (js "Book") [js "tag"] (js "one") 0 (js "I") None;
        Add 1 (js "Book") [js "tag"] (js "two") 0 (js "I") None;
        Remove (js "001");
        Add 1 (js "Book") [js "tag"] (js "three") 2 (js "III") None;
        Add 7 (js "Book") [] (js "four") 2 (js "III") (Some (js "A"))]
       []).
Proof.
  apply quote_ids_stay_distinct.
  - split; constructor.
  - repeat constructor; vm_compute; discriminate.
  - vm_compute. discriminate.
Defined.

Example ids_of_the_sample :
  map Ids.id
    (fold_left (edit 65535)
       [Add 1 (js "Book") [js "tag"] (js "one") 0 (js "I") None;
        Add 1 (js "Book") [js "tag"] (js "two") 0 (js "I") None;
        Remove (js "001");
        Add 1 (js "Book") [js "tag"] (js "three") 2 (js "III") None;
        Add 7 (js "Book") [] (js "four") 2 (js "III") (Some (js "A"))]
       [])
  = [js "002"; js "003"; js "007"].
Proof. vm_compute. reflexivity. Qed.

(** Next to 2^53 identifiers do not stay different: with 2^53 as starting
    identifier the second quote gets the identifier of the first. *)
Example ids_at_2_53 :
  map Ids.id
    (fold_left (edit 65535)
       [Add 9007199254740992 (js "Book") [] (js "one") 0 (js "I") None;
        Add 9007199254740992 (js "Book") [] (js "two") 0 (js "I") None]
       [])
  = [js "9007199254740992"; js "9007199254740992"].
Proof. vm_compute. reflexivity. Qed.

Lemma find_last (A : Type) (p : A -> bool) (l : list A) (x : A) :
  existsb p l = false -> p x = true -> find p (l ++ [x]) = Some x.
Proof.
  induction l as [|y l IH]; simpl; intros H Hx; [now rewrite Hx|].
  apply orb_false_iff in H as [Hy H]. rewrite Hy. now apply IH.
Qed.

(** X15.  Let the identifiers of the quotes be all different and written by
    [formatId] from natural numbers below 2^53, the starting identifier a
    natural number of at most 2^53, and the quotes at most as many as a call
    takes arguments.  With no author to pick from, setting a paragraph that
    is not a quote as a quote adds one quote, with that text, the identifier
    that [getNextId] gives, which no quote has, the book title between its
    marks followed by the chapter title as source, and the tags of the book;
    setting the same paragraph again removes that quote and leaves the list
    as it was before. *)
Theorem quote_toggle_round_trip (max_arguments : Z)
    (quotes : list Ids.QuoteItem)
    (authors : list jsstring) (s s' : N)
    (bookTitle : jsstring) (bookTags : list jsstring)
    (text : jsstring) (ci : Z) (ct : jsstring) :
  ids_ok (2 ^ 53) quotes ->
  Z.of_N s <= 2 ^ 53 ->
  Z.of_nat (List.length quotes) <= max_arguments ->
  existsb (fun q => jseqb (Ids.text q) text) quotes = false ->
  exists id,
    Ids.getNextId max_arguments quotes (Int (Z.of_N s)) = Ok id
    /\ ~ In id (map Ids.id quotes)
    /\ let quote :=
         {| Ids.id := id;
            Ids.text := text;
            Ids.author := None;
            Ids.source := Some ([12298%N] ++ bookTitle ++ [12299%N] ++ ct);
            Ids.tags := Some bookTags;
            Ids.chapterIndex := ci;
            Ids.chapterTitle := ct |} in
       let quotes' :=
         served quotes
           (handleSetQuote max_arguments quotes [] (Int (Z.of_N s))
              bookTitle bookTags text ci ct) in
       quotes' = quotes ++ [quote]
       /\ served quotes'
            (handleSetQuote max_arguments quotes' authors (Int (Z.of_N s'))
               bookTitle bookTags text ci ct)
          = quotes.
Proof.
  intros Hok Hs Hl No.
  destruct Hok as [Hd Hn]. destruct (natural_ids Hn) as [ns [Bs E]].
  assert (Safe : Forall (fun k => Z.of_N k <= max_safe) ns).
  { eapply Forall_impl; [|exact Bs]. cbv beta. unfold max_safe. lia. }
  destruct (@FreshIds.next_number_fresh ns quotes s E Safe Hs)
    as [_ [_ [_ Fresh]]].
  pose proof (@FreshIds.getNextId_naturals max_arguments ns quotes s E Safe
                Hs Hl) as G.
  eexists. split; [exact G|]. split; [exact Fresh|]. cbv zeta.
  assert (E1 : served quotes
                 (handleSetQuote max_arguments quotes [] (Int (Z.of_N s))
                    bookTitle bookTags text ci ct)
               = quotes ++
                 [{| Ids.id :=
                       Ids.formatId
                         (Int (Z.of_N (fold_left N.max (map N.succ ns) s)));
                     Ids.text := text;
                     Ids.author := None;
                     Ids.source := Some (source_of bookTitle ct);
                     Ids.tags := Some bookTags;
                     Ids.chapterIndex := ci;
                     Ids.chapterTitle := ct |}]).
  { unfold handleSetQuote, addQuote. rewrite No, G. reflexivity. }
  rewrite E1. split; [reflexivity|].
  unfold handleSetQuote. rewrite existsb_app. cbn [existsb Ids.text].
  rewrite JSFacts.jseqb_refl.
  change (true || false) with true. rewrite orb_true_r.
  rewrite find_last; [|exact No | apply JSFacts.jseqb_refl].
  cbn [served serve]. unfold handleRemoveQuote. rewrite filter_app.
  cbn [Ids.id].
  rewrite id_not_in by exact Fresh.
  cbn [filter Ids.id]. rewrite JSFacts.jseqb_refl.
  apply app_nil_r.
Qed.

Lemma quote_toggle_round_trip_sample :
  exists id,
    Ids.getNextId 65535 [Ids.quote_with_id (js "004")] (Int (Z.of_N 1))
    = Ok id
    /\ ~ In id (map Ids.id [Ids.quote_with_id (js "004")])
    /\ let quote :=
         {| Ids.id := id;
            Ids.text := js "a line";
            Ids.author := None;
            Ids.source :=
              Some ([12298%N] ++ js "Book" ++ [12299%N] ++ js "I");
            Ids.tags := Some [js "tag"];
            Ids.chapterIndex := 0;
            Ids.chapterTitle := js "I" |} in
       let quotes' :=
         served [Ids.quote_with_id (js "004")]
           (handleSetQuote 65535 [Ids.quote_with_id (js "004")] []
              (Int (Z.of_N 1)) (js "Book") [js "tag"] (js "a line") 0
              (js "I")) in
       quotes' = [Ids.quote_with_id (js "004")] ++ [quote]
       /\ served quotes'
            (handleSetQuote 65535 quotes' [js "an author"] (Int (Z.of_N 9))
               (js "Book") [js "tag"] (js "a line") 0 (js "I"))
          = [Ids.quote_with_id (js "004")].
Proof.
  apply (@quote_toggle_round_trip 65535 [Ids.quote_with_id (js "004")]
           [js "an author"] 1 9 (js "Book") [js "tag"] (js "a line") 0
           (js "I")).
  - split; [repeat constructor; intros [] |].
    repeat constructor. exists 4%N. split; [reflexivity|].
    vm_compute. reflexivity.
  - vm_compute. discriminate.
  - vm_compute. discriminate.
  - reflexivity.
Defined.

(** ** Tags and authors *)

Lemma has_In (entries : list jsstring) (x : jsstring) :
  has entries x = true <-> In x entries.
Proof.
  unfold has. rewrite existsb_exists. split.
  - intros [y [Hy E]]. apply JSFacts.jseqb_eq in E. now subst.
  - intros H. exists x. split; [exact H | apply JSFacts.jseqb_refl].
Qed.

Lemma entries_ok_add (entries : list jsstring) (input : jsstring) :
  entries_ok entries ->
  truthy (trim input) && negb (has entries (trim input)) = true ->
  entries_ok (entries ++ [trim input]).
Proof.
  intros [Hd Ht] H. apply andb_true_iff in H as [T N].
  apply negb_true_iff in N. split.
  - apply NoDup_app; [exact Hd | repeat constructor; intros [] |].
    intros x Hx [<-|[]]. apply has_In in Hx. congruence.
  - apply Forall_app. split; [exact Ht|]. constructor; [|constructor].
    now apply TrimFacts.trimmed_trim.
Qed.

Lemma entries_ok_filter (p : jsstring -> bool) (entries : list jsstring) :
  entries_ok entries -> entries_ok (filter p entries).
Proof.
  intros [Hd Ht]. split; [now apply NoDup_filter|].
  apply Forall_forall. intros x Hx. apply filter_In in Hx as [Hx _].
  rewrite Forall_forall in Ht. now apply Ht.
Qed.

Lemma entries_ok_removelast (entries : list jsstring) :
  entries_ok entries -> entries_ok (removelast entries).
Proof.
  intros [Hd Ht].
  destruct entries as [|e entries]; [unfold entries_ok; simpl; auto|].
  destruct (@exists_last _ (e :: entries)) as [l [x E]]; [discriminate|].
  rewrite E in *. rewrite removelast_last.
  apply NoDup_app_remove_r in Hd. apply Forall_app in Ht as [Ht _].
  now split.
Qed.

(** X16.  A list of tags or authors whose entries are not empty, have no
    white space at their ends and are all different stays such a list when
    an entry is added or removed on the settings page, and under the keys
    and the removals of the tag editor of the upload page (with the
    callbacks of the current render).  What is added is the trimmed input,
    at the end; nothing is added when the trimmed input is empty or already
    an entry; a removed entry is no entry afterwards. *)
Theorem entries_stay_distinct (entries : list jsstring)
    (input entry : jsstring) (key : Key) (st : Editor) :
  entries_ok entries -> entries_ok (tags st) ->
  match add_entry input entries with
  | Some entries' =>
      entries' = entries ++ [trim input] /\ entries_ok entries'
      /\ trim input <> [] /\ ~ In (trim input) entries
  | None => trim input = [] \/ In (trim input) entries
  end
  /\ entries_ok (remove_entry entry entries)
  /\ ~ In entry (remove_entry entry entries)
  /\ entries_ok (tags (handleTagKeyDown key st st))
  /\ entries_ok (tags (handleAddTag st st))
  /\ entries_ok (tags (handleRemoveTag entry st))
  /\ ~ In entry (tags (handleRemoveTag entry st)).
Proof.
  intros He Hs.
  assert (R : forall l, ~ In entry (filter (fun t => negb (jseqb t entry)) l)).
  { intros l Hin. apply filter_In in Hin as [_ Hin].
    now rewrite JSFacts.jseqb_refl in Hin. }
  assert (A : entries_ok (tags (handleAddTag st st))).
  { unfold handleAddTag. cbv zeta.
    destruct (truthy (trim (tagInput st))
              && negb (has (tags st) (trim (tagInput st)))) eqn:E;
      [|exact Hs].
    cbn [tags]. now apply entries_ok_add. }
  split; [|split; [|split; [|split; [|split; [|split]]]]].
  - unfold add_entry. cbv zeta.
    destruct (truthy (trim input) && negb (has entries (trim input))) eqn:E.
    + split; [reflexivity|]. split; [now apply entries_ok_add|].
      apply andb_true_iff in E as [T N]. apply negb_true_iff in N. split.
      * now destruct (trim input).
      * intros Hin. apply has_In in Hin. congruence.
    + apply andb_false_iff in E as [T|N].
      * left. now destruct (trim input).
      * right. apply negb_false_iff in N. now apply has_In.
  - now apply entries_ok_filter.
  - apply R.
  - destruct key; cbn [handleTagKeyDown]; try exact A; try exact Hs.
    destruct (jseqb (tagInput st) [] && (0 <? List.length (tags st))%nat);
      [|exact Hs].
    cbn [tags]. now apply entries_ok_removelast.
  - exact A.
  - cbn [handleRemoveTag tags]. now apply entries_ok_filter.
  - cbn [handleRemoveTag tags]. apply R.
Qed.

Lemma entries_stay_distinct_sample :
  match add_entry (js "  essays ") [js "history"; js "travel"] with
  | Some entries' =>
      entries' = [js "history"; js "travel"] ++ [trim (js "  essays ")]
      /\ entries_ok entries'
      /\ trim (js "  essays ") <> []
      /\ ~ In (trim (js "  essays ")) [js "history"; js "travel"]
  | None =>
      trim (js "  essays ") = []
      \/ In (trim (js "  essays ")) [js "history"; js "travel"]
  end
  /\ entries_ok (remove_entry (js "travel") [js "history"; js "travel"])
  /\ ~ In (js "travel") (remove_entry (js "travel")
                           [js "history"; js "travel"])
  /\ entries_ok
       (tags (handleTagKeyDown Comma
                {| tags := [js "history"]; tagInput := js " history" |}
                {| tags := [js "history"]; tagInput := js " history" |}))
  /\ entries_ok
       (tags (handleAddTag
                {| tags := [js "history"]; tagInput := js " history" |}
                {| tags := [js "history"]; tagInput := js " history" |}))
  /\ entries_ok
       (tags (handleRemoveTag (js "travel")
                {| tags := [js "history"]; tagInput := js " history" |}))
  /\ ~ In (js "travel")
         (tags (handleRemoveTag (js "travel")
                  {| tags := [js "history"]; tagInput := js " history" |})).
Proof.
  apply (@entries_stay_distinct [js "history"; js "travel"]
           (js "  essays ") (js "travel") Comma
           {| tags := [js "history"]; tagInput := js " history" |}).
  - split.
    + repeat constructor; simpl; intuition discriminate.
    + repeat constructor; discriminate.
  - split.
    + repeat constructor; simpl; intuition discriminate.
    + repeat constructor; discriminate.
Defined.

End ReaderFacts.


(* ================================================================== *)
(** * Facts about the database *)
(* ================================================================== *)

Module StoreFacts.

Import Store.

Local Open Scope Z_scope.

(** ** Object stores *)

Section ObjectStore.

Variables (K V : Type) (key : V -> K) (eqb ltb : K -> K -> bool).

Hypothesis eqb_eq : forall a b, eqb a b = true <-> a = b.
Hypothesis ltb_irrefl : forall a, ltb a a = false.
Hypothesis ltb_trans :
  forall a b c, ltb a b = true -> ltb b c = true -> ltb a c = true.
Hypothesis ltb_total :
  forall a b, eqb a b = false -> ltb a b = false -> ltb b a = true.

Let put := put key eqb ltb.
Let get := get key eqb.
Let put_each := put_each key eqb ltb.
Let ordered := ordered key ltb.

Lemma eqb_refl (a : K) : eqb a a = true.
Proof. now apply eqb_eq. Qed.

Lemma eqb_neq (a b : K) : a <> b -> eqb a b = false.
Proof.
  intros H. destruct (eqb a b) eqn:E; [|reflexivity].
  apply eqb_eq in E. contradiction.
Qed.

Lemma put_In (v x : V) (s : list V) : In x (put v s) -> x = v \/ In x s.
Proof.
  induction s as [|w r IH]; simpl.
  - intros [<-|[]]. now left.
  - destruct (eqb (key v) (key w)); [|destruct (ltb (key v) (key w))];
      simpl; intuition.
Qed.

Lemma put_ordered (v : V) (s : list V) : ordered s -> ordered (put v s).
Proof.
  unfold ordered, Store.ordered.
  induction 1 as [|w r Hs IH Hw]; simpl.
  - repeat constructor.
  - destruct (eqb (key v) (key w)) eqn:E.
    + apply eqb_eq in E. constructor; [exact Hs|]. now rewrite E.
    + destruct (ltb (key v) (key w)) eqn:L.
      * constructor; [now constructor|]. constructor; [exact L|].
        apply Forall_forall. intros x Hx. rewrite Forall_forall in Hw.
        apply (ltb_trans L (Hw x Hx)).
      * constructor; [exact IH|]. apply Forall_forall. intros x Hx.
        apply put_In in Hx as [->|Hx].
        -- apply ltb_total; [exact E | exact L].
        -- rewrite Forall_forall in Hw. now apply Hw.
Qed.

Lemma put_each_ordered (vs : list V) : forall s,
  ordered s -> ordered (put_each vs s).
Proof.
  induction vs as [|v vs IH]; intros s H; [exact H|].
  apply IH. now apply put_ordered.
Qed.

Lemma get_put_same (v : V) (s : list V) : get (key v) (put v s) = Some v.
Proof.
  unfold get, Store.get. induction s as [|w r IH]; simpl.
  - now rewrite eqb_refl.
  - destruct (eqb (key v) (key w)) eqn:E; simpl.
    + now rewrite eqb_refl.
    + destruct (ltb (key v) (key w)); simpl;
        [now rewrite eqb_refl | rewrite E; exact IH].
Qed.

Lemma get_put_other (k : K) (v : V) (s : list V) :
  k <> key v -> get k (put v s) = get k s.
Proof.
  intros N. unfold get, Store.get. induction s as [|w r IH]; simpl.
  - now rewrite (eqb_neq N).
  - destruct (eqb (key v) (key w)) eqn:E; simpl.
    + apply eqb_eq in E. rewrite <- E. now rewrite (eqb_neq N).
    + destruct (ltb (key v) (key w)); simpl.
      * now rewrite (eqb_neq N).
      * destruct (eqb k (key w)); [reflexivity | exact IH].
Qed.

(** A record whose key is above all keys goes to the end. *)
Lemma put_last (v : V) (s : list V) :
  Forall (fun w => ltb (key w) (key v) = true) s -> put v s = s ++ [v].
Proof.
  induction 1 as [|w r Hw _ IH]; simpl; [reflexivity|].
  destruct (eqb (key v) (key w)) eqn:E.
  - apply eqb_eq in E. rewrite E, ltb_irrefl in Hw. discriminate.
  - destruct (ltb (key v) (key w)) eqn:L.
    + pose proof (ltb_trans L Hw) as C.
      rewrite ltb_irrefl in C. discriminate.
    + now rewrite IH.
Qed.

Lemma ordered_app_last (s : list V) (v : V) (rest : list V) :
  ordered (s ++ v :: rest) ->
  Forall (fun w => ltb (key w) (key v) = true) s.
Proof.
  unfold ordered, Store.ordered. induction s as [|w s IH]; simpl; intros H;
    [constructor|].
  inversion H as [|? ? Hs Hw]; subst. constructor; [|now apply IH].
  rewrite Forall_forall in Hw. apply Hw. apply in_or_app. right. now left.
Qed.

(** Putting the records of an ordered list one after the other gives the
    list. *)
Lemma put_each_of_ordered (vs : list V) : forall s,
  ordered (s ++ vs) -> put_each vs s = s ++ vs.
Proof.
  induction vs as [|v vs IH]; intros s H; simpl.
  - now rewrite app_nil_r.
  - unfold put_each, Store.put_each in *. cbn [fold_left].
    fold (put v s). rewrite (put_last (@ordered_app_last s v vs H)).
    rewrite IH; rewrite <- app_assoc; [reflexivity | exact H].
Qed.

Lemma put_fresh (v : V) (s : list V) :
  ~ In (key v) (map key s) -> Permutation (v :: s) (put v s).
Proof.
  induction s as [|w r IH]; simpl; intros H; [reflexivity|].
  destruct (eqb (key v) (key w)) eqn:E.
  - apply eqb_eq in E. exfalso. apply H. left. now symmetry.
  - destruct (ltb (key v) (key w)); [reflexivity|].
    rewrite perm_swap. apply perm_skip. apply IH. intros Hin. apply H.
    now right.
Qed.

Lemma put_each_fresh (vs : list V) : forall s,
  NoDup (map key (s ++ vs)) -> Permutation (s ++ vs) (put_each vs s).
Proof.
  induction vs as [|v vs IH]; intros s H; simpl.
  - now rewrite app_nil_r.
  - unfold put_each, Store.put_each in *. cbn [fold_left]. fold (put v s).
    assert (F : ~ In (key v) (map key s)).
    { rewrite map_app in H. simpl in H. apply NoDup_remove_2 in H.
      intros Hin. apply H. apply in_or_app. now left. }
    pose proof (@put_fresh v s F) as P.
    rewrite <- IH.
    + rewrite <- P. simpl. now rewrite Permutation_middle.
    + apply (Permutation_NoDup (l := map key (s ++ v :: vs))); [|exact H].
      apply Permutation_map. rewrite <- P. simpl.
      now rewrite Permutation_middle.
Qed.

Lemma ordered_keys (s : list V) : ordered s -> NoDup (map key s).
Proof.
  unfold ordered, Store.ordered.
  induction 1 as [|w r _ IH Hw]; simpl; constructor; [|exact IH].
  intros Hin. apply in_map_iff in Hin as [x [E Hx]].
  rewrite Forall_forall in Hw. specialize (Hw x Hx).
  rewrite E, ltb_irrefl in Hw. discriminate.
Qed.

End ObjectStore.

(** ** The two orders of keys *)

Lemma jseqb_iff (a b : jsstring) : jseqb a b = true <-> a = b.
Proof.
  split; [apply JSFacts.jseqb_eq | intros ->; apply JSFacts.jseqb_refl].
Qed.

Lemma jsltb_irrefl (a : jsstring) : jsltb a a = false.
Proof.
  induction a as [|x a IH]; simpl; [reflexivity|].
  now rewrite N.ltb_irrefl, N.eqb_refl, IH.
Qed.

Lemma jsltb_trans (a : jsstring) : forall b c,
  jsltb a b = true -> jsltb b c = true -> jsltb a c = true.
Proof.
  induction a as [|x a IH]; intros [|y b] [|z c]; simpl; try discriminate;
    auto.
  intros H1 H2.
  apply orb_true_iff in H1. apply orb_true_iff in H2. apply orb_true_iff.
  destruct H1 as [H1|H1]; destruct H2 as [H2|H2];
    rewrite ?andb_true_iff, ?N.ltb_lt, ?N.eqb_eq in *.
  - left. lia.
  - left. lia.
  - left. lia.
  - right. split; [lia|]. apply (IH b c); tauto.
Qed.

Lemma jsltb_total (a : jsstring) : forall b,
  jseqb a b = false -> jsltb a b = false -> jsltb b a = true.
Proof.
  induction a as [|x a IH]; intros [|y b]; simpl; try discriminate; auto.
  intros H1 H2. apply orb_false_iff in H2 as [L H2].
  apply N.ltb_ge in L. apply orb_true_iff.
  destruct (N.eqb_spec x y) as [->|N].
  - right. rewrite N.eqb_refl. simpl in *. now apply IH.
  - left. apply N.ltb_lt. lia.
Qed.

Lemma Zltb_trans (a b c : Z) :
  (a <? b) = true -> (b <? c) = true -> (a <? c) = true.
Proof. rewrite !Z.ltb_lt. lia. Qed.

Lemma Zltb_total (a b : Z) :
  (a =? b) = false -> (a <? b) = false -> (b <? a) = true.
Proof. rewrite Z.eqb_neq, Z.ltb_ge, Z.ltb_lt. lia. Qed.

(** ** A book, saved and loaded *)

Lemma put_chapters_from (chs : list Epub.Chapter) : forall i s,
  Forall (fun w => (StoredChapter.index w <? i) = true) s ->
  put_chapters i chs s = s ++ stored_from i chs.
Proof.
  induction chs as [|c chs IH]; intros i s H; simpl.
  - now rewrite app_nil_r.
  - unfold put_chapter.
    rewrite (@put_last Z _ StoredChapter.index Z.eqb Z.ltb Z.eqb_eq
               Z.ltb_irrefl Zltb_trans (stored i c) s H).
    rewrite IH; [now rewrite <- app_assoc|].
    apply Forall_app. split.
    + apply Forall_forall. intros w Hw. rewrite Forall_forall in H.
      specialize (H w Hw). rewrite Z.ltb_lt in *. lia.
    + repeat constructor. simpl. apply Z.ltb_lt. lia.
Qed.

Lemma get_stored_from (chs : list Epub.Chapter) : forall i k,
  get StoredChapter.index Z.eqb k (stored_from i chs)
  = option_map (stored k) (Reader.at_ chs (k - i)).
Proof.
  unfold get. induction chs as [|c chs IH]; intros i k; simpl.
  - unfold Reader.at_. destruct (k - i <? 0); [reflexivity|].
    now destruct (Z.to_nat (k - i)).
  - destruct (Z.eqb_spec k i) as [->|N].
    + now rewrite Z.sub_diag.
    + rewrite IH. destruct (Z_lt_le_dec 0 (k - i)) as [P|P].
      * rewrite ReaderFacts.at_cons by exact P.
        now replace (k - (i + 1)) with (k - i - 1) by lia.
      * unfold Reader.at_.
        destruct (Z.ltb_spec (k - (i + 1)) 0); [|lia].
        destruct (Z.ltb_spec (k - i) 0); [reflexivity | lia].
Qed.

Lemma saved_chapters (book : BookData.t) (db : DB) :
  chapters (saveBookToDB book db) = stored_from 0 (BookData.chapters book).
Proof.
  unfold saveBookToDB. cbn [chapters]. unfold clear.
  now rewrite put_chapters_from by constructor.
Qed.

Lemma loadChapter_saved (book : BookData.t) (db : DB) (i : Z) :
  loadChapter i (saveBookToDB book db)
  = option_map (stored i) (Reader.at_ (BookData.chapters book) i).
Proof.
  unfold loadChapter. rewrite saved_chapters, get_stored_from.
  now rewrite Z.sub_0_r.
Qed.

Lemma range_In (start end_ i : Z) :
  In i (range start end_) <-> start <= i <= end_.
Proof.
  unfold range. rewrite in_map_iff. split.
  - intros [k [<- Hk]]. apply in_seq in Hk. lia.
  - intros H. exists (Z.to_nat (i - start)). split; [lia|].
    apply in_seq. lia.
Qed.

Lemma range_NoDup (start end_ : Z) : NoDup (range start end_).
Proof.
  unfold range. generalize (seq_NoDup (Z.to_nat (end_ - start + 1)) 0).
  generalize (seq 0 (Z.to_nat (end_ - start + 1))).
  induction 1 as [|k l Hk _ IH]; simpl; constructor; [|exact IH].
  intros Hin. apply in_map_iff in Hin as [k' [E Hk']].
  assert (k' = k) by lia. now subst.
Qed.

Lemma flat_map_singletons (A B : Type) (f : A -> list B) (g : A -> B)
    (l : list A) :
  (forall x, In x l -> f x = [g x]) -> flat_map f l = map g l.
Proof.
  induction l as [|x l IH]; simpl; intros H; [reflexivity|].
  rewrite (H x) by now left. simpl. f_equal. apply IH. intros y Hy.
  apply H. now right.
Qed.

Lemma loadChapterRange_saved (book : BookData.t) (db : DB)
    (start end_ : Z) :
  0 <= start -> end_ < Z.of_nat (List.length (BookData.chapters book)) ->
  loadChapterRange start end_ (saveBookToDB book db)
  = map (fun i => match Reader.at_ (BookData.chapters book) i with
                  | Some c => stored i c
                  | None => stored i Store.chapter_one
                  end) (range start end_)
  /\ forall i, start <= i <= end_ ->
       exists c, Reader.at_ (BookData.chapters book) i = Some c.
Proof.
  intros Hs He.
  assert (A : forall i, start <= i <= end_ ->
              exists c, Reader.at_ (BookData.chapters book) i = Some c).
  { intros i Hi. apply ReaderFacts.at_in_range. lia. }
  split; [|exact A]. unfold loadChapterRange.
  apply flat_map_singletons. intros i Hi. apply range_In in Hi.
  rewrite loadChapter_saved. destruct (A i Hi) as [c ->]. reflexivity.
Qed.

Lemma flat_map_agree (A B : Type) (f g : A -> list B) (l : list A) :
  (forall x, In x l -> f x = g x) -> flat_map f l = flat_map g l.
Proof.
  induction l as [|x l IH]; simpl; intros H; [reflexivity|].
  rewrite (H x) by now left. f_equal. apply IH. intros y Hy. apply H.
  now right.
Qed.

Lemma saved_book_facts (book : BookData.t) (db : DB) :
  loadBookMeta (saveBookToDB book db) = Some (meta_of book)
  /\ BookMeta.chapterCount (meta_of book)
     = Z.of_nat (List.length (BookData.chapters book))
  /\ (forall i,
        loadChapter i (saveBookToDB book db)
        = option_map (stored i) (Reader.at_ (BookData.chapters book) i))
  /\ (forall i,
        0 <= i < Z.of_nat (List.length (BookData.chapters book))
        <-> loadChapter i (saveBookToDB book db) <> None)
  /\ (forall start end_,
        0 <= start ->
        end_ < Z.of_nat (List.length (BookData.chapters book)) ->
        map StoredChapter.index
          (loadChapterRange start end_ (saveBookToDB book db))
        = range start end_
        /\ Forall (fun r => loadChapter (StoredChapter.index r)
                              (saveBookToDB book db) = Some r)
             (loadChapterRange start end_ (saveBookToDB book db)))
  /\ loadQuotesFromDB (saveBookToDB book db) = loadQuotesFromDB db
  /\ loadSettingsFromDB (saveBookToDB book db) = loadSettingsFromDB db
  /\ loadProgressFromDB (saveBookToDB book db) = loadProgressFromDB db.
Proof.
  split; [|split; [reflexivity|split; [|split; [|split; [|auto]]]]].
  - unfold loadBookMeta, saveBookToDB, put_meta. cbn [bookMeta].
    apply (@get_put_same jsstring _ BookMeta.id jseqb jsltb jseqb_iff
             (meta_of book)).
  - apply loadChapter_saved.
  - intros i. rewrite loadChapter_saved. split.
    + intros H. destruct (@ReaderFacts.at_in_range _
                            (BookData.chapters book) i H) as [c ->].
      discriminate.
    + destruct (Reader.at_ (BookData.chapters book) i) as [c|] eqn:E;
        [|intros H; now contradiction H].
      intros _. now apply ReaderFacts.at_In in E.
  - intros start end_ Hs He.
    destruct (loadChapterRange_saved book db Hs He) as [-> A]. split.
    + rewrite map_map. rewrite <- (map_id (range start end_)) at 2.
      apply map_ext_in. intros i Hi. apply range_In in Hi.
      destruct (A i Hi) as [c ->]. reflexivity.
    + apply Forall_forall. intros r Hr. apply in_map_iff in Hr as [i [<- Hi]].
      apply range_In in Hi. destruct (A i Hi) as [c E]. rewrite E.
      cbn [stored StoredChapter.index]. rewrite loadChapter_saved, E.
      reflexivity.
Qed.

(** X17.  After a book has been saved, whatever the database held before:
    the book record is the one of the book, with the number of its chapters
    and the title and word count of each; chapter [i] is loaded as the
    [i]-th chapter of the book, with its title, paragraphs and word count,
    for every [i] from 0 to the number of chapters less one, and nothing is
    loaded for any other [i]; a range within the book is loaded whole and
    in order; quotes, settings and progress are as before. *)
Theorem saved_book_is_loaded (book : BookData.t) (db : DB) :
  loadBookMeta (saveBookToDB book db) = Some (meta_of book)
  /\ BookMeta.chapterCount (meta_of book)
     = Z.of_nat (List.length (BookData.chapters book))
  /\ (forall i,
        loadChapter i (saveBookToDB book db)
        = option_map (stored i) (Reader.at_ (BookData.chapters book) i))
  /\ (forall i,
        0 <= i < Z.of_nat (List.length (BookData.chapters book))
        <-> loadChapter i (saveBookToDB book db) <> None)
  /\ (forall start end_,
        0 <= start ->
        end_ < Z.of_nat (List.length (BookData.chapters book)) ->
        map StoredChapter.index
          (loadChapterRange start end_ (saveBookToDB book db))
        = range start end_
        /\ Forall (fun r => loadChapter (StoredChapter.index r)
                              (saveBookToDB book db) = Some r)
             (loadChapterRange start end_ (saveBookToDB book db)))
  /\ loadQuotesFromDB (saveBookToDB book db) = loadQuotesFromDB db
  /\ loadSettingsFromDB (saveBookToDB book db) = loadSettingsFromDB db
  /\ loadProgressFromDB (saveBookToDB book db) = loadProgressFromDB db.
Proof.
  apply saved_book_facts.
Qed.

Example small_book_saved :
  map StoredChapter.title (loadChapterRange (-1) 5 (saveBookToDB small_book empty))
  = [js "One"; js "Two"; js "Three"]
  /\ map StoredChapter.index
       (loadChapterRange 1 2 (saveBookToDB small_book empty))
     = [1; 2]
  /\ loadChapter 3 (saveBookToDB small_book empty) = None.
Proof. repeat split. Qed.

(** ** Quotes, saved and loaded *)

Lemma put_each_In (K V : Type) (key : V -> K) (eqb ltb : K -> K -> bool)
    (vs : list V) : forall s x,
  In x (put_each key eqb ltb vs s) -> In x vs \/ In x s.
Proof.
  induction vs as [|v vs IH]; intros s x; simpl; [auto|].
  intros H. apply IH in H as [H|H]; [auto|].
  apply put_In in H as [->|H]; auto.
Qed.

(** X18.  What is loaded after the quotes have been saved is in the order
    of the identifiers (as strings, by code units), every identifier occurs
    once, and every quote loaded is one of the quotes saved.  When the
    identifiers of the quotes saved are all different, the quotes loaded are
    the quotes saved, in that order: none is lost or doubled.  Book,
    settings and progress are as before. *)
Theorem saved_quotes_are_loaded (qs : list Ids.QuoteItem) (db : DB) :
  ordered Ids.id jsltb (loadQuotesFromDB (saveQuotesToDB qs db))
  /\ NoDup (map Ids.id (loadQuotesFromDB (saveQuotesToDB qs db)))
  /\ incl (loadQuotesFromDB (saveQuotesToDB qs db)) qs
  /\ (NoDup (map Ids.id qs) ->
      Permutation qs (loadQuotesFromDB (saveQuotesToDB qs db)))
  /\ loadBookMeta (saveQuotesToDB qs db) = loadBookMeta db
  /\ (forall i, loadChapter i (saveQuotesToDB qs db) = loadChapter i db)
  /\ loadSettingsFromDB (saveQuotesToDB qs db) = loadSettingsFromDB db
  /\ loadProgressFromDB (saveQuotesToDB qs db) = loadProgressFromDB db.
Proof.
  unfold loadQuotesFromDB, saveQuotesToDB, getAll, clear. cbn [quotes].
  assert (O : ordered Ids.id jsltb (put_each Ids.id jseqb jsltb qs [])).
  { apply (@put_each_ordered jsstring _ Ids.id jseqb jsltb jseqb_iff
             jsltb_trans jsltb_total); constructor. }
  split; [exact O|]. split.
  - apply (@ordered_keys jsstring _ Ids.id jsltb jsltb_irrefl _ O).
  - split; [|split; [|auto]].
    + intros x Hx. apply put_each_In in Hx as [Hx|[]]. exact Hx.
    + intros Hd.
      apply (@put_each_fresh jsstring _ Ids.id jseqb jsltb jseqb_iff qs []).
      exact Hd.
Qed.

Example quotes_come_back_in_string_order :
  map Ids.id
    (loadQuotesFromDB
       (saveQuotesToDB
          [Ids.quote_with_id (js "998"); Ids.quote_with_id (js "999");
           Ids.quote_with_id (js "1000")] empty))
  = [js "1000"; js "998"; js "999"].
Proof. reflexivity. Qed.

(** ** What the writers keep *)

Lemma single_put (V : Type) (v : jsstring * V) (s : list (jsstring * V)) :
  fst v = js "current" ->
  single (@fst jsstring V) s ->
  put (@fst jsstring V) jseqb jsltb v s = [v]
  /\ single (@fst jsstring V) (put (@fst jsstring V) jseqb jsltb v s).
Proof.
  intros Hv Hs. destruct s as [|w [|x s]]; simpl in *; try contradiction.
  - auto.
  - rewrite Hv, Hs. simpl. auto.
Qed.

Lemma single_put_meta (m : BookMeta.t) (s : list BookMeta.t) :
  BookMeta.id m = js "current" -> single BookMeta.id s ->
  put_meta m s = [m] /\ single BookMeta.id (put_meta m s).
Proof.
  intros Hv Hs. unfold put_meta.
  destruct s as [|w [|x s]]; simpl in *; try contradiction.
  - auto.
  - rewrite Hv, Hs. simpl. auto.
Qed.

Lemma stored_from_ordered (chs : list Epub.Chapter) : forall i,
  ordered StoredChapter.index Z.ltb (stored_from i chs)
  /\ Forall (fun w => i <= StoredChapter.index w) (stored_from i chs).
Proof.
  unfold ordered. induction chs as [|c chs IH]; intros i; simpl.
  - split; constructor.
  - destruct (IH (i + 1)) as [O F]. split.
    + constructor; [exact O|]. apply Forall_forall. intros w Hw.
      rewrite Forall_forall in F. specialize (F w Hw). simpl.
      apply Z.ltb_lt. lia.
    + constructor; [simpl; lia|]. apply Forall_forall. intros w Hw.
      rewrite Forall_forall in F. specialize (F w Hw). lia.
Qed.

Lemma importAllData_kept (data : ExportData.t) (db : DB) :
  importable data -> kept (importAllData data db).
Proof.
  intros Hw. unfold kept, importAllData, clearAllDataFromDB, clear.
  cbv zeta. cbn [bookMeta chapters quotes settings progress].
  split; [|split; [|split; [|split]]].
  - unfold importable in Hw. destruct (ExportData.bookMeta data);
      [now apply single_put_meta | exact I].
  - destruct (0 <? List.length (ExportData.chapters data))%nat;
      [|constructor].
    apply (@put_each_ordered Z _ StoredChapter.index Z.eqb Z.ltb Z.eqb_eq
             Zltb_trans Zltb_total); constructor.
  - destruct (0 <? List.length (ExportData.quotes data))%nat;
      [|constructor].
    apply (@put_each_ordered jsstring _ Ids.id jseqb jsltb jseqb_iff
             jsltb_trans jsltb_total); constructor.
  - destruct (ExportData.settings data); [|exact I].
    now apply single_put.
  - now apply single_put.
Qed.

Lemma write_kept (db : DB) (w : Write) :
  sound w -> kept db -> kept (write db w).
Proof.
  intros Hw [Hm [Hc [Hq [Hs Hp]]]]. unfold kept.
  destruct w; cbn [write sound] in *.
  - cbn [saveBookToDB bookMeta chapters quotes settings progress].
    split; [now apply single_put_meta|].
    split; [|auto]. change (put_chapters 0 (BookData.chapters book) (clear _))
      with (chapters (saveBookToDB book db)).
    rewrite saved_chapters. apply stored_from_ordered.
  - cbn. repeat split; auto; constructor.
  - cbn [saveQuotesToDB bookMeta chapters quotes settings progress].
    split; [exact Hm|]. split; [exact Hc|]. split; [|auto].
    apply (@put_each_ordered jsstring _ Ids.id jseqb jsltb jseqb_iff
             jsltb_trans jsltb_total); constructor.
  - cbn [saveSettingsToDB bookMeta chapters quotes settings progress].
    repeat split; auto. now apply single_put.
  - cbn [saveProgressToDB bookMeta chapters quotes settings progress].
    repeat split; auto. now apply single_put.
  - cbn. repeat split; auto; constructor.
  - now apply importAllData_kept.
Qed.

(** X19.  Every database that the writers make from an empty one (a book
    saved or cleared, quotes, settings or progress saved, everything
    cleared, a backup imported whose book record has the key [current])
    holds its chapters in the order of their indices and its quotes in the
    order of their identifiers, each key once, and holds at most one book
    record, one record of settings and one of progress, under the key
    [current]. *)
Theorem writers_keep_the_database (writes : list Write) (db : DB) :
  kept db -> Forall sound writes -> kept (fold_left write writes db).
Proof.
  revert db. induction writes as [|w writes IH]; intros db Hk Hs;
    [exact Hk|].
  inversion Hs as [|? ? Hw Hr]; subst. cbn [fold_left].
  apply IH; [|exact Hr]. now apply write_kept.
Qed.

Lemma writers_keep_the_database_sample :
  kept (fold_left write
          [SaveBook small_book;
           SaveQuotes [Ids.quote_with_id (js "002");
                       Ids.quote_with_id (js "001")];
           SaveProgress no_progress;
           Import (exportAllData (js "2026") (saveBookToDB small_book empty));
           SaveBook small_book]
          empty).
Proof.
  apply writers_keep_the_database.
  - unfold kept, empty. simpl. repeat split; constructor.
  - repeat constructor.
Defined.

(** ** Export and import *)

Lemma put_each_nonempty (K V : Type) (key : V -> K)
    (eqb ltb : K -> K -> bool) (l : list V) :
  put_each key eqb ltb l [] = l ->
  (if (0 <? List.length l)%nat then put_each key eqb ltb l [] else []) = l.
Proof. destruct l; [reflexivity|]. simpl Nat.ltb. auto. Qed.

(** X20.  A backup of a database kept by the writers, imported into any
    database, gives back what was there: the book record, every chapter,
    the quotes and the settings are stored as before, and the progress is
    loaded as before.  The database is kept again, and the backup is one
    that can be imported. *)
Theorem export_import_round_trip (now : jsstring) (db other : DB) :
  kept db ->
  bookMeta (importAllData (exportAllData now db) other) = bookMeta db
  /\ chapters (importAllData (exportAllData now db) other) = chapters db
  /\ quotes (importAllData (exportAllData now db) other) = quotes db
  /\ settings (importAllData (exportAllData now db) other) = settings db
  /\ loadProgressFromDB (importAllData (exportAllData now db) other)
     = loadProgressFromDB db
  /\ loadBookMeta (importAllData (exportAllData now db) other)
     = loadBookMeta db
  /\ (forall i,
        loadChapter i (importAllData (exportAllData now db) other)
        = loadChapter i db)
  /\ loadQuotesFromDB (importAllData (exportAllData now db) other)
     = loadQuotesFromDB db
  /\ loadSettingsFromDB (importAllData (exportAllData now db) other)
     = loadSettingsFromDB db
  /\ importable (exportAllData now db)
  /\ kept (importAllData (exportAllData now db) other).
Proof.
  intros [Hm [Hc [Hq [Hs Hp]]]].
  assert (M : bookMeta (importAllData (exportAllData now db) other)
              = bookMeta db).
  { unfold importAllData, exportAllData, clearAllDataFromDB, clear, getAll.
    cbn. destruct (bookMeta db) as [|m [|m' ms]]; simpl in *;
      [reflexivity | | contradiction].
    unfold put_meta. reflexivity. }
  assert (C : chapters (importAllData (exportAllData now db) other)
              = chapters db).
  { unfold importAllData, exportAllData, clearAllDataFromDB, clear, getAll.
    cbn. apply put_each_nonempty.
    apply (@put_each_of_ordered Z _ StoredChapter.index Z.eqb Z.ltb Z.eqb_eq
             Z.ltb_irrefl Zltb_trans (chapters db) []). exact Hc. }
  assert (Q : quotes (importAllData (exportAllData now db) other)
              = quotes db).
  { unfold importAllData, exportAllData, clearAllDataFromDB, clear, getAll.
    cbn. apply put_each_nonempty.
    apply (@put_each_of_ordered jsstring _ Ids.id jseqb jsltb jseqb_iff
             jsltb_irrefl jsltb_trans (quotes db) []). exact Hq. }
  assert (S : settings (importAllData (exportAllData now db) other)
              = settings db).
  { unfold importAllData, exportAllData, clearAllDataFromDB, clear, getAll.
    cbn. destruct (settings db) as [|[k v] [|m' ms]]; simpl in *;
      [reflexivity | | contradiction].
    unfold put_settings. simpl. now rewrite Hs. }
  assert (P : loadProgressFromDB (importAllData (exportAllData now db) other)
              = loadProgressFromDB db).
  { unfold loadProgressFromDB, importAllData, exportAllData,
      clearAllDataFromDB, clear, getAll.
    cbn. destruct (progress db) as [|[k v] [|m' ms]]; simpl in *;
      [reflexivity | | contradiction].
    rewrite Hp. reflexivity. }
  assert (I : importable (exportAllData now db)).
  { unfold importable, exportAllData, getAll. cbn.
    destruct (bookMeta db) as [|m [|m' ms]]; simpl in *;
      try contradiction; auto. }
  split; [exact M|]. split; [exact C|]. split; [exact Q|].
  split; [exact S|]. split; [exact P|].
  split; [unfold loadBookMeta; now rewrite M|].
  split; [intros i; unfold loadChapter; now rewrite C|].
  split; [unfold loadQuotesFromDB; now rewrite Q|].
  split; [unfold loadSettingsFromDB; now rewrite S|].
  split; [exact I | now apply importAllData_kept].
Qed.

Lemma export_import_round_trip_sample :
  let db :=
    saveQuotesToDB [Ids.quote_with_id (js "002");
                    Ids.quote_with_id (js "001")]
      (saveBookToDB small_book empty) in
  let other := saveProgressToDB no_progress empty in
  bookMeta (importAllData (exportAllData (js "2026") db) other) = bookMeta db
  /\ chapters (importAllData (exportAllData (js "2026") db) other)
     = chapters db
  /\ quotes (importAllData (exportAllData (js "2026") db) other) = quotes db
  /\ settings (importAllData (exportAllData (js "2026") db) other)
     = settings db
  /\ loadProgressFromDB (importAllData (exportAllData (js "2026") db) other)
     = loadProgressFromDB db
  /\ loadBookMeta (importAllData (exportAllData (js "2026") db) other)
     = loadBookMeta db
  /\ (forall i,
        loadChapter i (importAllData (exportAllData (js "2026") db) other)
        = loadChapter i db)
  /\ loadQuotesFromDB (importAllData (exportAllData (js "2026") db) other)
     = loadQuotesFromDB db
  /\ loadSettingsFromDB (importAllData (exportAllData (js "2026") db) other)
     = loadSettingsFromDB db
  /\ importable (exportAllData (js "2026") db)
  /\ kept (importAllData (exportAllData (js "2026") db) other).
Proof.
  apply (@export_import_round_trip (js "2026")
           (saveQuotesToDB [Ids.quote_with_id (js "002");
                            Ids.quote_with_id (js "001")]
              (saveBookToDB small_book empty))
           (saveProgressToDB no_progress empty)).
  unfold kept. simpl. split; [reflexivity|]. split; [|split; [|auto]].
  - repeat constructor.
  - repeat constructor.
Defined.

(** ** The chapters the reader holds *)

Lemma loaded_get_set_same (m : Loaded) (k : Z) (v : StoredChapter.t) :
  loaded_get (loaded_set m k v) k = Some v.
Proof.
  unfold loaded_get. induction m as [|[k' v'] m IH]; simpl.
  - now rewrite Z.eqb_refl.
  - destruct (Z.eqb_spec k' k) as [->|N]; simpl.
    + now rewrite Z.eqb_refl.
    + destruct (Z.eqb_spec k' k); [contradiction | exact IH].
Qed.

Lemma loaded_get_set_other (m : Loaded) (k k' : Z) (v : StoredChapter.t) :
  k <> k' -> loaded_get (loaded_set m k v) k' = loaded_get m k'.
Proof.
  intros N. unfold loaded_get. induction m as [|[k0 v0] m IH]; simpl.
  - destruct (Z.eqb_spec k k'); [contradiction | reflexivity].
  - destruct (Z.eqb_spec k0 k) as [->|N0]; simpl.
    + destruct (Z.eqb_spec k k'); [contradiction | reflexivity].
    + destruct (Z.eqb_spec k0 k'); [reflexivity | exact IH].
Qed.

Lemma merged_get_other (l : list StoredChapter.t) : forall m k,
  ~ In k (map StoredChapter.index l) ->
  loaded_get
    (fold_left (fun m ch => loaded_set m (StoredChapter.index ch) ch) l m) k
  = loaded_get m k.
Proof.
  induction l as [|ch l IH]; intros m k H; simpl; [reflexivity|].
  rewrite IH by (intros Hin; apply H; now right).
  apply loaded_get_set_other. intros E. apply H. now left.
Qed.

Lemma merged_get (l : list StoredChapter.t) : forall m ch,
  NoDup (map StoredChapter.index l) -> In ch l ->
  loaded_get
    (fold_left (fun m ch => loaded_set m (StoredChapter.index ch) ch) l m)
    (StoredChapter.index ch)
  = Some ch.
Proof.
  induction l as [|c l IH]; intros m ch Hd []; simpl in *;
    inversion Hd as [|? ? Hc Hl]; subst.
  - rewrite merged_get_other by exact Hc. apply loaded_get_set_same.
  - now apply IH.
Qed.

(** X21.  With a book saved and the window of chapters within the book,
    after the load of the reader has come back, whatever chapters the
    reader held before: scroll mode renders every chapter of the window,
    from its first to its last, each the chapter of the book with that
    index; chapters held outside the window are left as they were.  In page
    turn mode the chapter to read, when it is a chapter of the book, is
    held after the load. *)
Theorem window_is_rendered (book : BookData.t) (db : DB)
    (r : Window.Range) (prev : Loaded) :
  Window.invariant (Z.of_nat (List.length (BookData.chapters book))) r ->
  let db' := saveBookToDB book db in
  let chapterCount := BookMeta.chapterCount (meta_of book) in
  let loaded := load_window chapterCount r db' prev in
  scrollChapters r loaded
  = loadChapterRange (Window.start r) (Window.end_ r) db'
  /\ map StoredChapter.index (scrollChapters r loaded)
     = range (Window.start r) (Window.end_ r)
  /\ Forall (fun ch =>
               exists c,
                 Reader.at_ (BookData.chapters book) (StoredChapter.index ch)
                 = Some c
                 /\ ch = stored (StoredChapter.index ch) c)
       (scrollChapters r loaded)
  /\ (forall k, ~ Window.start r <= k <= Window.end_ r ->
                loaded_get loaded k = loaded_get prev k)
  /\ (forall current,
        0 <= current < chapterCount ->
        loaded_get (load_around chapterCount current db' prev) current
        = loadChapter current db'
        /\ loadChapter current db' <> None).
Proof.
  intros [I1 [I2 I3]]. cbv zeta. cbn [meta_of BookMeta.chapterCount].
  set (n := Z.of_nat (List.length (BookData.chapters book))) in *.
  assert (G : forall start end_,
            0 <= start -> end_ < n ->
            NoDup (map StoredChapter.index
                     (loadChapterRange start end_ (saveBookToDB book db)))
            /\ forall i, start <= i <= end_ ->
                 exists ch,
                   loadChapter i (saveBookToDB book db) = Some ch
                   /\ StoredChapter.index ch = i
                   /\ In ch (loadChapterRange start end_
                               (saveBookToDB book db))).
  { intros start end_ Hs He.
    destruct (loadChapterRange_saved book db Hs He) as [E A]. split.
    - rewrite E, map_map.
      rewrite (map_ext_in _ (fun i => i)), map_id; [apply range_NoDup|].
      intros i Hi. apply range_In in Hi. destruct (A i Hi) as [c ->].
      reflexivity.
    - intros i Hi. destruct (A i Hi) as [c Ec].
      exists (stored i c). rewrite loadChapter_saved, Ec.
      split; [reflexivity|]. split; [reflexivity|].
      rewrite E. apply in_map_iff. exists i. rewrite Ec.
      split; [reflexivity | now apply range_In]. }
  assert (W : load_window n r (saveBookToDB book db) prev
              = fold_left
                  (fun m ch => loaded_set m (StoredChapter.index ch) ch)
                  (loadChapterRange (Window.start r) (Window.end_ r)
                     (saveBookToDB book db)) prev).
  { unfold load_window. cbv zeta.
    now rewrite Z.max_r, Z.min_r by lia. }
  destruct (G (Window.start r) (Window.end_ r)) as [Nd In_]; [lia | lia |].
  assert (S : scrollChapters r
                (load_window n r (saveBookToDB book db) prev)
              = loadChapterRange (Window.start r) (Window.end_ r)
                  (saveBookToDB book db)).
  { rewrite W. unfold scrollChapters. unfold loadChapterRange at 2.
    apply flat_map_agree. intros i Hi. apply range_In in Hi.
    destruct (In_ i Hi) as [ch [E [Ei Hin]]].
    rewrite E, <- Ei. now rewrite (@merged_get _ prev ch Nd Hin). }
  destruct (saved_book_facts book db) as [_ [_ [_ [_ [R _]]]]].
  fold n in R.
  split; [exact S|]. split; [|split; [|split]].
  - rewrite S. apply R; lia.
  - rewrite S. apply Forall_forall. intros ch Hch.
    unfold loadChapterRange in Hch. apply in_flat_map in Hch as [i [Hi Hch]].
    rewrite loadChapter_saved in Hch.
    destruct (Reader.at_ (BookData.chapters book) i) as [c|] eqn:E;
      simpl in Hch; [|contradiction].
    destruct Hch as [<-|[]]. exists c. cbn [stored StoredChapter.index].
    auto.
  - intros k Hk. rewrite W. apply merged_get_other. intros Hin.
    apply Hk. apply range_In.
    rewrite (proj1 (R (Window.start r) (Window.end_ r) I1 ltac:(lia)))
      in Hin.
    exact Hin.
  - intros current Hc. unfold load_around. cbv zeta.
    destruct (G (Z.max 0 (current - 1)) (Z.min (n - 1) (current + 1)))
      as [Nd' In'];
      [lia | lia |].
    destruct (In' current) as [ch [E [Ei Hin]]]; [lia|].
    rewrite E. split; [|discriminate].
    pose proof (@merged_get _ prev ch Nd' Hin) as Mg.
    rewrite Ei in Mg. exact Mg.
Qed.

Lemma window_is_rendered_sample :
  let r := {| Window.start := 1; Window.end_ := 2 |} in
  let db' := saveBookToDB small_book empty in
  let chapterCount := BookMeta.chapterCount (meta_of small_book) in
  let loaded := load_window chapterCount r db' [(2, stored 2 chapter_one)] in
  scrollChapters r loaded
  = loadChapterRange (Window.start r) (Window.end_ r) db'
  /\ map StoredChapter.index (scrollChapters r loaded)
     = range (Window.start r) (Window.end_ r)
  /\ Forall (fun ch =>
               exists c,
                 Reader.at_ (BookData.chapters small_book)
                   (StoredChapter.index ch)
                 = Some c
                 /\ ch = stored (StoredChapter.index ch) c)
       (scrollChapters r loaded)
  /\ (forall k, ~ Window.start r <= k <= Window.end_ r ->
                loaded_get loaded k
                = loaded_get [(2, stored 2 chapter_one)] k)
  /\ (forall current,
        0 <= current < chapterCount ->
        loaded_get (load_around chapterCount current db'
                      [(2, stored 2 chapter_one)]) current
        = loadChapter current db'
        /\ loadChapter current db' <> None).
Proof.
  apply (@window_is_rendered small_book empty
           {| Window.start := 1; Window.end_ := 2 |}
           [(2, stored 2 chapter_one)]).
  unfold Window.invariant. simpl. lia.
Defined.

Example stale_chapter_is_replaced :
  map StoredChapter.title
    (scrollChapters {| Window.start := 1; Window.end_ := 2 |}
       (load_window 3 {| Window.start := 1; Window.end_ := 2 |}
          (saveBookToDB small_book empty) [(2, stored 2 chapter_one)]))
  = [js "Two"; js "Three"].
Proof. reflexivity. Qed.

End StoreFacts.


(* ================================================================== *)
(** * From the archive to the pages *)
(* ================================================================== *)

Module UploadFacts.

Import Store.

Local Open Scope Z_scope.

Lemma unknown_trimmed : Shapes.trimmed (js "Unknown").
Proof. split; [discriminate | reflexivity]. Qed.

(** The title of the book is never empty. *)
Lemma bookTitle_trimmed (dom : Epub.DOM) (opfDoc : Epub.Document dom) :
  Shapes.trimmed (Epub.bookTitle_of dom opfDoc).
Proof.
  unfold Epub.bookTitle_of.
  destruct (Epub.getElementsByTagName dom opfDoc "dc:title") as [|first _].
  - destruct (Epub.first_truthy _) as [t|] eqn:E; [|apply unknown_trimmed].
    unfold Epub.first_truthy in E. apply find_some in E as [Hin Ht].
    apply in_map_iff in Hin as [e [<- _]].
    now apply TrimFacts.trimmed_trim.
  - unfold or_else, Epub.trimmed_text.
    destruct (truthy (trim (Epub.textContent dom first))) eqn:E;
      [now apply TrimFacts.trimmed_trim | apply unknown_trimmed].
Qed.

Lemma parseEpub_title (dom : Epub.DOM) (zip : Epub.Archive)
    (book : Epub.Book) :
  Epub.parseEpub dom zip = Ok book -> Shapes.trimmed (Epub.book_title book).
Proof.
  unfold Epub.parseEpub.
  destruct (zip (js "META-INF/container.xml")) as [containerXml|];
    [|discriminate].
  destruct (Epub.opfPath_of dom _) as [[|c r]|]; try discriminate.
  destruct (zip (c :: r)) as [opfContent|]; [|discriminate].
  destruct (Epub.toc_from_ncx dom zip (c :: r) _) as [tocMap|]; simpl;
    [|discriminate].
  destruct (Epub.toc_from_nav dom zip (c :: r) _ tocMap) as [tocMap'|];
    simpl; [|discriminate].
  destruct (Epub.visit_spine dom zip (c :: r) _ tocMap' _ []) as [chs|];
    simpl; [|discriminate].
  intros H. injection H as <-. apply bookTitle_trimmed.
Qed.

Lemma parseEpub_chapters (dom : Epub.DOM) (zip : Epub.Archive)
    (book : Epub.Book) :
  Epub.parseEpub dom zip = Ok book ->
  Forall Shapes.chapter_ok (Epub.chapters book).
Proof.
  unfold Epub.parseEpub.
  destruct (zip (js "META-INF/container.xml")) as [containerXml|];
    [|discriminate].
  destruct (Epub.opfPath_of dom _) as [[|c r]|]; try discriminate.
  destruct (zip (c :: r)) as [opfContent|]; [|discriminate].
  destruct (Epub.toc_from_ncx dom zip (c :: r) _) as [tocMap|]; simpl;
    [|discriminate].
  destruct (Epub.toc_from_nav dom zip (c :: r) _ tocMap) as [tocMap'|];
    simpl; [|discriminate].
  destruct (Epub.visit_spine dom zip (c :: r) _ tocMap' _ []) as [chs|]
    eqn:E; simpl; [|discriminate].
  intros H. injection H as <-. simpl.
  apply ChapterFacts.visit_spine_appends in E as [added [-> [_ F]]].
  exact F.
Qed.

Lemma loadProgress_saved (p : ReadingProgress.t) (db : DB) :
  loadProgressFromDB (saveProgressToDB p db) = p.
Proof.
  unfold loadProgressFromDB, saveProgressToDB, put_progress.
  cbn [progress].
  change (js "current") with (fst (js "current", p)) at 1.
  now rewrite (@StoreFacts.get_put_same jsstring _
                 (@fst jsstring ReadingProgress.t) jseqb jsltb
                 StoreFacts.jseqb_iff (js "current", p) (progress db)).
Qed.

(** X22.  An upload whose archive cannot be parsed reports the error and
    leaves what the application holds, the database included, as it was.
    After any other upload: the book record shown is the one loaded from the
    database, its title is not empty and has no white space at its ends,
    its tags are the tags given and its chapter count is the number of
    chapters parsed; the progress shown and stored is the start of the book;
    a chapter is loaded exactly for the indices below the chapter count, and
    every chapter loaded has its index, a title that is not empty and at
    least one paragraph, all paragraphs trimmed and not empty; for every
    measurer and layout, every paragraph of such a chapter is shown on some
    page of the pages made for the chapter.  Quotes and settings are as
    before. *)
Theorem uploaded_book_is_sound (dom : Epub.DOM) (zip : Epub.Archive)
    (tags : list jsstring) (lib : Library) :
  match Epub.parseEpub dom zip with
  | Throw e => handleBookLoaded dom zip tags lib = (lib, Some e)
  | Ok parsed =>
      exists lib' meta,
        handleBookLoaded dom zip tags lib = (lib', None)
        /\ shownMeta lib' = Some meta
        /\ loadBookMeta (database lib') = Some meta
        /\ Shapes.trimmed (BookMeta.title meta)
        /\ BookMeta.tags meta = tags
        /\ BookMeta.chapterCount meta
           = Z.of_nat (List.length (Epub.chapters parsed))
        /\ shownProgress lib' = no_progress
        /\ loadProgressFromDB (database lib') = no_progress
        /\ (forall i,
              0 <= i < BookMeta.chapterCount meta
              <-> loadChapter i (database lib') <> None)
        /\ (forall i ch,
              loadChapter i (database lib') = Some ch ->
              StoredChapter.index ch = i /\ stored_ok ch
              /\ forall offsetHeight availableHeight fontSize lineHeight
                        paragraphSpacing containerWidth,
                   exists pgs,
                     Pagination.paginateParagraphs offsetHeight
                       availableHeight fontSize lineHeight paragraphSpacing
                       containerWidth (StoredChapter.paragraphs ch)
                       (Some (StoredChapter.title ch)) = Some pgs
                     /\ Forall (fun p => existsb (Reader.shows p) pgs = true)
                          (StoredChapter.paragraphs ch))
        /\ loadQuotesFromDB (database lib') = loadQuotesFromDB (database lib)
        /\ loadSettingsFromDB (database lib')
           = loadSettingsFromDB (database lib)
  end.
Proof.
  unfold handleBookLoaded.
  destruct (Epub.parseEpub dom zip) as [parsed|e] eqn:E; [|reflexivity].
  cbv zeta. eexists. eexists. split; [reflexivity|].
  cbn [shownMeta shownProgress database].
  set (book := {| BookData.title := Epub.book_title parsed;
                  BookData.chapters := Epub.chapters parsed;
                  BookData.tags := tags |}).
  destruct (StoreFacts.saved_book_facts book (database lib))
    as [M [_ [L [R [_ [Q [S _]]]]]]].
  split; [reflexivity|]. split; [exact M|].
  split; [exact (parseEpub_title _ _ E)|].
  split; [reflexivity|]. split; [reflexivity|]. split; [reflexivity|].
  split; [apply loadProgress_saved|]. split; [exact R|].
  split; [|split; [exact Q|exact S]].
  intros i ch. change (loadChapter i (saveProgressToDB _ ?d))
    with (loadChapter i d).
  rewrite L. cbn [BookData.chapters book].
  destruct (Reader.at_ (Epub.chapters parsed) i) as [c|] eqn:A;
    [|discriminate].
  intros H. injection H as <-. split; [reflexivity|].
  apply ReaderFacts.at_In in A as [Hin _].
  pose proof (parseEpub_chapters _ _ E) as F. rewrite Forall_forall in F.
  destruct (F c Hin) as [T [P [Tr W]]].
  split; [unfold stored_ok; cbn; auto|].
  intros offsetHeight availableHeight fontSize lineHeight paragraphSpacing
    containerWidth.
  cbn [stored StoredChapter.paragraphs StoredChapter.title].
  destruct (PaginationFacts.paginateParagraphs_result offsetHeight
              availableHeight fontSize lineHeight paragraphSpacing
              containerWidth (Epub.paragraphs c) (Some (Epub.title c)))
    as [pgs [Ep _]].
  exists pgs. split; [exact Ep|]. apply Forall_forall. intros p Hp.
  rewrite Forall_forall in Tr.
  destruct (@ReaderFacts.paragraph_is_shown offsetHeight availableHeight
              fontSize lineHeight paragraphSpacing containerWidth
              (Epub.paragraphs c) (Some (Epub.title c)) p Hp
              (proj1 (Tr p Hp))) as [pgs' [Ep' Sh]].
  rewrite Ep in Ep'. injection Ep' as <-. exact Sh.
Qed.

Example upload_of_the_titled_book :
  option_map
    (fun lib => (option_map BookMeta.chapterCount (shownMeta lib),
                 map StoredChapter.title
                   (loadChapterRange 0 5 (database lib))))
    (match handleBookLoaded Epub.titled_dom Epub.titled_archive [js "tag"]
             {| shownMeta := None; shownProgress := no_progress;
                database := empty |} with
     | (lib, None) => Some lib
     | (_, Some _) => None
     end)
  = Some (Some 3, [js "One"; Epub.chapter_label ++ js "2"; js "Two"]).
Proof. vm_compute. reflexivity. Qed.

Example upload_of_a_broken_archive :
  handleBookLoaded Epub.stray_percent_dom Epub.stray_percent_archive
    [js "tag"]
    {| shownMeta := None; shownProgress := no_progress; database := empty |}
  = ({| shownMeta := None; shownProgress := no_progress;
        database := empty |}, Some URIError).
Proof. vm_compute. reflexivity. Qed.

End UploadFacts.


(* ================================================================== *)
(** * Facts about the list of quotes *)
(* ================================================================== *)

Module QuoteListFacts.

Import QuoteList.

Local Open Scope Z_scope.

(** ** Sorting *)

Section Sort.

Variables (A : Type) (comparefn : A -> A -> number) (k : A -> Z).

Lemma insert_perm (x : A) (l : list A) :
  Permutation (x :: l) (insert comparefn x l).
Proof.
  induction l as [|y l IH]; simpl; [reflexivity|].
  destruct (comes_after (comparefn x y)); [|reflexivity].
  rewrite perm_swap. now apply perm_skip.
Qed.

Lemma sort_perm (l : list A) : Permutation l (sort comparefn l).
Proof.
  induction l as [|x l IH]; simpl; [reflexivity|].
  rewrite <- insert_perm. now apply perm_skip.
Qed.

Lemma insert_sorted (x : A) (l : list A) :
  (forall y, In y l -> comparefn x y = Int (k x - k y)) ->
  StronglySorted (fun a b => k a <= k b) l ->
  StronglySorted (fun a b => k a <= k b) (insert comparefn x l).
Proof.
  intros Hc Hs. induction Hs as [|y l Hs IH Hy]; simpl.
  - repeat constructor.
  - rewrite (Hc y) by now left. cbn [comes_after].
    destruct (Z.ltb_spec 0 (k x - k y)) as [L|L].
    + constructor; [apply IH; intros z Hz; apply Hc; now right|].
      apply Forall_forall. intros z Hz.
      apply (Permutation_in _ (Permutation_sym (insert_perm x l))) in Hz.
      destruct Hz as [<-|Hz]; [lia|].
      rewrite Forall_forall in Hy. now apply Hy.
    + constructor; [now constructor|]. constructor; [lia|].
      apply Forall_forall. intros z Hz. rewrite Forall_forall in Hy.
      specialize (Hy z Hz). lia.
Qed.

Lemma sort_sorted (l : list A) :
  (forall x y, In x l -> In y l -> comparefn x y = Int (k x - k y)) ->
  StronglySorted (fun a b => k a <= k b) (sort comparefn l).
Proof.
  induction l as [|x l IH]; simpl; intros Hc; [constructor|].
  apply insert_sorted.
  - intros y Hy. apply Hc; [now left | right].
    now apply (Permutation_in _ (Permutation_sym (sort_perm l))).
  - apply IH. intros a b Ha Hb. apply Hc; now right.
Qed.

Lemma sorted_strictly (l : list A) :
  NoDup (map k l) ->
  StronglySorted (fun a b => k a <= k b) l ->
  StronglySorted (fun a b => k a < k b) l.
Proof.
  intros Hd Hs. induction Hs as [|x l Hs IH Hx]; [constructor|].
  simpl in Hd. inversion Hd as [|? ? Hn Hl]; subst.
  constructor; [now apply IH|]. apply Forall_forall. intros y Hy.
  rewrite Forall_forall in Hx. specialize (Hx y Hy).
  assert (k x <> k y); [|lia].
  intros E. apply Hn. rewrite E. now apply in_map.
Qed.

End Sort.

(** ** Identifiers as numbers *)

Lemma parseInt_of_digits (c c' : N) (r : jsstring) :
  Ids.is_digit c = true -> Ids.is_digit c' = true ->
  parseInt (c :: c' :: r) = Ids.parseInt10 (c :: c' :: r).
Proof.
  intros Hc Hc'.
  destruct (IdsFacts.digit_cases _ Hc)
    as [E|[E|[E|[E|[E|[E|[E|[E|[E|E]]]]]]]]]; subst c; try reflexivity.
  destruct (IdsFacts.digit_cases _ Hc')
    as [E|[E|[E|[E|[E|[E|[E|[E|[E|E]]]]]]]]]; subst c'; reflexivity.
Qed.

Lemma parseInt_formatId (n : N) :
  Z.of_N n <= 2 ^ 53 ->
  parseInt (Ids.formatId (Int (Z.of_N n))) = Int (Z.of_N n).
Proof.
  intros Hn. rewrite <- (IdsFacts.parseInt10_formatId n Hn) at 2.
  pose proof (IdsFacts.formatId_nat_length n Hn) as L.
  assert (D : Forall (fun c => Ids.is_digit c = true)
                (Ids.formatId (Int (Z.of_N n)))).
  { rewrite IdsFacts.formatId_nat by exact Hn. apply Forall_app. split.
    - apply Forall_forall. intros c Hc. apply repeat_spec in Hc. now subst.
    - apply IdsFacts.digits_from_are_digits. constructor. }
  destruct (Ids.formatId (Int (Z.of_N n))) as [|c [|c' r]];
    simpl in L; try lia.
  inversion D as [|? ? Hc D']; subst. inversion D' as [|? ? Hc' _]; subst.
  now apply parseInt_of_digits.
Qed.

(** The difference of two safe natural numbers is a double. *)
Lemma minus_safe (x y : N) :
  Z.of_N x <= max_safe -> Z.of_N y <= max_safe ->
  minus (Int (Z.of_N x)) (Int (Z.of_N y)) = Int (Z.of_N x - Z.of_N y).
Proof.
  unfold max_safe. intros Hx Hy. cbn [minus].
  apply JSFacts.double_safe. lia.
Qed.

Lemma numbered_number_of (ns : list N) : forall quotes,
  numbered ns quotes -> safe ns -> map number_of quotes = map Z.of_N ns.
Proof.
  unfold numbered, safe.
  induction ns as [|n ns IH]; intros [|q quotes]; simpl; try discriminate;
    [reflexivity|].
  intros H Hs. injection H as Hq Hr. inversion Hs as [|? ? Hn Hs']; subst.
  f_equal; [|now apply IH].
  unfold number_of. rewrite Hq, parseInt_formatId; [reflexivity|].
  unfold max_safe in Hn. lia.
Qed.

Lemma numbered_In (ns : list N) (quotes : list Ids.QuoteItem)
    (q : Ids.QuoteItem) :
  numbered ns quotes -> safe ns -> In q quotes ->
  exists n, Ids.id q = Ids.formatId (Int (Z.of_N n))
            /\ Z.of_N n <= max_safe
            /\ number_of q = Z.of_N n
            /\ parseInt (Ids.id q) = Int (Z.of_N n).
Proof.
  intros H Hs Hq. assert (Hin : In (Ids.id q) (map Ids.id quotes))
    by now apply in_map.
  rewrite H in Hin. apply in_map_iff in Hin as [n [E Hn]].
  unfold safe in Hs. rewrite Forall_forall in Hs. specialize (Hs n Hn).
  assert (P : parseInt (Ids.id q) = Int (Z.of_N n)).
  { rewrite <- E. apply parseInt_formatId. unfold max_safe in Hs. lia. }
  exists n. split; [now symmetry|]. split; [exact Hs|].
  split; [|exact P]. unfold number_of. now rewrite P.
Qed.

Lemma by_id_numbered (ns : list N) (quotes : list Ids.QuoteItem)
    (a b : Ids.QuoteItem) :
  numbered ns quotes -> safe ns -> In a quotes -> In b quotes ->
  by_id a b = Int (number_of a - number_of b).
Proof.
  intros H Hs Ha Hb.
  destruct (@numbered_In ns quotes a H Hs Ha) as [x [Ex [Sx [Nx Px]]]].
  destruct (@numbered_In ns quotes b H Hs Hb) as [y [Ey [Sy [Ny Py]]]].
  unfold by_id. rewrite Nx, Ny, Px, Py. now apply minus_safe.
Qed.

Lemma filter_filter (A : Type) (p q : A -> bool) (l : list A) :
  filter q (filter p l) = filter (fun x => p x && q x) l.
Proof.
  induction l as [|x l IH]; simpl; [reflexivity|].
  destruct (p x); simpl; [|exact IH]. destruct (q x); now rewrite IH.
Qed.

Lemma filter_keeps_distinct (A B : Type) (key : A -> B) (keep : A -> bool)
    (items : list A) (D : NoDup (map key items)) :
  NoDup (map key (filter keep items)).
Proof.
  induction items as [|x items IH]; [constructor|].
  cbn [map] in D. apply NoDup_cons_iff in D as [Hx D]. cbn [filter].
  destruct (keep x); [|now apply IH].
  cbn [map]. apply NoDup_cons; [|now apply IH].
  intros Hin. apply Hx. apply in_map_iff in Hin as [y [E Hy]].
  apply filter_In in Hy as [Hy _]. rewrite <- E. now apply in_map.
Qed.

Lemma sorted_among (A : Type) (R R' : A -> A -> Prop) (l : list A) :
  (forall a b, In a l -> In b l -> R a b -> R' a b) ->
  StronglySorted R l -> StronglySorted R' l.
Proof.
  intros H Hs. induction Hs as [|x l Hs IH Hx]; [constructor|].
  constructor.
  - apply IH. intros a b Ha Hb. apply H; now right.
  - apply Forall_forall. intros y Hy. rewrite Forall_forall in Hx.
    apply H; [now left | now right | now apply Hx].
Qed.

Lemma shown_is_sorted (ns : list N) (quotes l : list Ids.QuoteItem) :
  numbered ns quotes -> safe ns -> NoDup ns -> incl l quotes ->
  NoDup (map number_of l) ->
  StronglySorted id_below (sort by_id l).
Proof.
  intros H Safe Hd Hincl Hn.
  assert (P : Permutation l (sort by_id l)) by apply sort_perm.
  apply (sorted_among (R := fun a b => number_of a < number_of b)).
  - intros a b Ha Hb Lt.
    apply (Permutation_in _ (Permutation_sym P)) in Ha.
    apply (Permutation_in _ (Permutation_sym P)) in Hb.
    destruct (@numbered_In ns quotes a H Safe (Hincl _ Ha))
      as [x [Ex [_ [Nx _]]]].
    destruct (@numbered_In ns quotes b H Safe (Hincl _ Hb))
      as [y [Ey [_ [Ny _]]]].
    exists x, y. split; [exact Ex|]. split; [exact Ey|]. lia.
  - apply sorted_strictly.
    + apply (Permutation_NoDup (l := map number_of l)); [|exact Hn].
      now apply Permutation_map.
    + apply sort_sorted. intros a b Ha Hb.
      apply (@by_id_numbered ns quotes a b H Safe); auto.
Qed.

(** X23.  For quotes whose identifiers are written by [formatId] from
    natural numbers of at most 2^53 - 1 that are all different: the quotes
    shown are those that
    pass the chapter filter and the search (each once), in the order of the
    numbers of their identifiers, smallest first.  The array of quotes of
    the application holds the same quotes afterwards; it is left as it was
    when a filter applies, and is itself the sorted array when none
    does. *)
Theorem quote_list_in_numeric_order (ns : list N)
    (quotes : list Ids.QuoteItem) (filterChapter : option Z)
    (searchId : jsstring) :
  numbered ns quotes -> safe ns -> NoDup ns ->
  let shown := fst (filteredQuotes quotes filterChapter searchId) in
  let held := snd (filteredQuotes quotes filterChapter searchId) in
  Permutation shown (filter (passes filterChapter searchId) quotes)
  /\ StronglySorted id_below shown
  /\ Permutation held quotes
  /\ (held = quotes
      \/ (filterChapter = None /\ trim searchId = [] /\ held = shown)).
Proof.
  intros H Safe Hd. cbv zeta.
  assert (Hq : NoDup (map number_of quotes)).
  { rewrite (@numbered_number_of ns quotes H Safe).
    clear H Safe. induction Hd as [|n ns Hn _ IH]; simpl; constructor; auto.
    intros Hin. apply in_map_iff in Hin as [m [E Hm]].
    apply N2Z.inj in E. now subst. }
  unfold filteredQuotes. cbv zeta. cbn [fst snd].
  set (result :=
         if truthy (trim searchId)
         then filter (fun q => includes (Ids.id q) (trim searchId))
                (match filterChapter with
                 | Some chapter =>
                     filter (fun q => Ids.chapterIndex q =? chapter) quotes
                 | None => quotes
                 end)
         else match filterChapter with
              | Some chapter =>
                  filter (fun q => Ids.chapterIndex q =? chapter) quotes
              | None => quotes
              end).
  assert (R : result = filter (passes filterChapter searchId) quotes).
  { unfold result, passes.
    destruct filterChapter as [chapter|]; destruct (truthy (trim searchId)).
    - apply filter_filter.
    - apply filter_ext. intros q. now rewrite andb_true_r.
    - reflexivity.
    - clear. induction quotes as [|q l IH]; [reflexivity|].
      cbn [filter andb]. now f_equal. }
  assert (Hincl : incl result quotes).
  { rewrite R. intros q Hin. now apply filter_In in Hin. }
  assert (Hn : NoDup (map number_of result)).
  { rewrite R. now apply filter_keeps_distinct. }
  split; [rewrite <- R; symmetry; apply sort_perm|].
  split; [now apply (@shown_is_sorted ns quotes result H Safe Hd)|].
  destruct filterChapter as [chapter|]; [split; [reflexivity | now left]|].
  destruct (truthy (trim searchId)) eqn:T;
    [split; [reflexivity | now left]|].
  unfold result. split; [symmetry; apply sort_perm|].
  right. split; [reflexivity|]. split; [|reflexivity].
  now destruct (trim searchId).
Qed.

Lemma quote_list_in_numeric_order_sample :
  let quotes :=
    [Ids.quote_with_id (js "1000"); Ids.quote_with_id (js "998");
     Ids.quote_with_id (js "999")] in
  let shown := fst (filteredQuotes quotes None (js " ")) in
  let held := snd (filteredQuotes quotes None (js " ")) in
  Permutation shown (filter (passes None (js " ")) quotes)
  /\ StronglySorted id_below shown
  /\ Permutation held quotes
  /\ (held = quotes
      \/ (@None Z = None /\ trim (js " ") = [] /\ held = shown)).
Proof.
  apply (@quote_list_in_numeric_order [1000; 998; 999]%N
           [Ids.quote_with_id (js "1000"); Ids.quote_with_id (js "998");
            Ids.quote_with_id (js "999")] None (js " ")).
  - vm_compute. reflexivity.
  - repeat constructor; vm_compute; discriminate.
  - repeat constructor; simpl; intuition discriminate.
Defined.

Example shown_in_numeric_order :
  map Ids.id
    (fst (filteredQuotes
            [Ids.quote_with_id (js "1000"); Ids.quote_with_id (js "998");
             Ids.quote_with_id (js "999")] None (js " ")))
  = [js "998"; js "999"; js "1000"]
  /\ map Ids.id
       (fst (filteredQuotes
               [Ids.quote_with_id (js "1000"); Ids.quote_with_id (js "998");
                Ids.quote_with_id (js "999")] (Some 0) (js "99")))
     = [js "998"; js "999"].
Proof. split; reflexivity. Qed.

(** ** Editing a quote *)

(** X24.  Saving an edited quote leaves the identifiers of all quotes, and
    their order, as they were, and changes no quote with another identifier.
    When the identifiers are all different and the quote is on the list,
    the quote with its identifier has the trimmed text afterwards, and
    everything else of it as before; when the trimmed text is the text it
    had, the list is unchanged. *)
Theorem edited_quote_keeps_its_id (editText : jsstring)
    (quote : Ids.QuoteItem) (prev : list Ids.QuoteItem) :
  map Ids.id (handleSave editText quote prev) = map Ids.id prev
  /\ (forall q, Ids.id q <> Ids.id quote ->
                (In q (handleSave editText quote prev) <-> In q prev))
  /\ (NoDup (map Ids.id prev) -> In quote prev ->
      forall q, In q (handleSave editText quote prev) ->
                Ids.id q = Ids.id quote ->
                q = {| Ids.id := Ids.id quote;
                       Ids.text := trim editText;
                       Ids.author := Ids.author quote;
                       Ids.source := Ids.source quote;
                       Ids.tags := Ids.tags quote;
                       Ids.chapterIndex := Ids.chapterIndex quote;
                       Ids.chapterTitle := Ids.chapterTitle quote |})
  /\ (trim editText = Ids.text quote ->
      handleSave editText quote prev = prev).
Proof.
  assert (U : NoDup (map Ids.id prev) -> In quote prev ->
              forall q, In q prev -> Ids.id q = Ids.id quote -> q = quote).
  { intros Hd Hq. induction prev as [|x l IH]; [contradiction|].
    simpl in Hd. inversion Hd as [|? ? Hx Hl]; subst.
    intros q [<-|Hin] E; destruct Hq as [<-|Hq']; auto.
    - exfalso. apply Hx. rewrite E. now apply in_map.
    - exfalso. apply Hx. rewrite <- E. now apply in_map. }
  unfold handleSave, handleUpdateQuote.
  destruct (jseqb (trim editText) (Ids.text quote)) eqn:E; cbn [negb].
  - apply JSFacts.jseqb_eq in E.
    split; [reflexivity|]. split; [reflexivity|]. split; [|reflexivity].
    intros Hd Hq q Hin Eq. rewrite (U Hd Hq q Hin Eq), E. now destruct quote.
  - split; [|split; [|split]].
    + rewrite map_map. apply map_ext. intros q.
      destruct (jseqb (Ids.id q) (Ids.id quote)) eqn:Eq; [|reflexivity].
      cbn. now apply JSFacts.jseqb_eq in Eq.
    + intros q Nq. rewrite in_map_iff. split.
      * intros [x [Ex Hx]].
        destruct (jseqb (Ids.id x) (Ids.id quote)) eqn:Eq.
        -- subst q. cbn in Nq. apply JSFacts.jseqb_eq in Eq.
           contradiction.
        -- now subst.
      * intros Hin. exists q. split; [|exact Hin].
        destruct (jseqb (Ids.id q) (Ids.id quote)) eqn:Eq; [|reflexivity].
        apply JSFacts.jseqb_eq in Eq. contradiction.
    + intros Hd Hq q Hin Eq. apply in_map_iff in Hin as [x [Ex Hx]].
      destruct (jseqb (Ids.id x) (Ids.id quote)) eqn:Ex'.
      * apply JSFacts.jseqb_eq in Ex'. rewrite (U Hd Hq x Hx Ex') in Ex.
        subst q. reflexivity.
      * subst q. rewrite Eq, JSFacts.jseqb_refl in Ex'. discriminate.
    + intros T. rewrite T, JSFacts.jseqb_refl in E. discriminate.
Qed.

Lemma edited_quote_keeps_its_id_sample :
  let quote := Ids.quote_with_id (js "002") in
  let prev := [Ids.quote_with_id (js "001"); Ids.quote_with_id (js "002")] in
  NoDup (map Ids.id prev) /\ In quote prev
  /\ (forall q, In q (handleSave (js " new text ") quote prev) ->
                Ids.id q = Ids.id quote ->
                q = {| Ids.id := Ids.id quote;
                       Ids.text := trim (js " new text ");
                       Ids.author := Ids.author quote;
                       Ids.source := Ids.source quote;
                       Ids.tags := Ids.tags quote;
                       Ids.chapterIndex := Ids.chapterIndex quote;
                       Ids.chapterTitle := Ids.chapterTitle quote |}).
Proof.
  assert (D : NoDup (map Ids.id [Ids.quote_with_id (js "001");
                                 Ids.quote_with_id (js "002")]))
    by (repeat constructor; simpl; intuition discriminate).
  assert (I : In (Ids.quote_with_id (js "002"))
                [Ids.quote_with_id (js "001"); Ids.quote_with_id (js "002")])
    by (right; now left).
  split; [exact D|]. split; [exact I|].
  exact (proj1 (proj2 (proj2
           (edited_quote_keeps_its_id (js " new text ")
              (Ids.quote_with_id (js "002"))
              [Ids.quote_with_id (js "001"); Ids.quote_with_id (js "002")])))
           D I).
Defined.

(** Identifiers that are not decimals of numbers up to 2^53 - 1 are ordered
    by what [parseInt] reads from them: the identifier of 10^21 is read as 1
    and comes before 005. *)
Example order_above_the_bounds :
  map Ids.id
    (fst (filteredQuotes
            [Ids.quote_with_id (js "005");
             Ids.quote_with_id (Ids.formatId (Int (10 ^ 21)))] None []))
  = [js "1e+21"; js "005"].
Proof. vm_compute. reflexivity. Qed.

End QuoteListFacts.

(* ================================================================== *)
(** * Facts about auto play *)
(* ================================================================== *)

Module AutoPlayFacts.

Import AutoPlay.

Local Open Scope Z_scope.

(** X25.  One frame of auto scroll leaves [start], never lowers [end] and
    raises it by one at most.  With the effect of the current render, the
    range stays within the book: below the last chapter a frame near the
    bottom adds the next chapter, at the last chapter it ends auto play and
    leaves the range. *)
Theorem autoScroll_within_book (chapterCount seenEnd : Z)
    (nearBottom : bool) (st : Auto) :
  Window.start (scrollChapterRange
                  (autoScroll chapterCount seenEnd nearBottom st))
  = Window.start (scrollChapterRange st)
  /\ Window.end_ (scrollChapterRange st)
     <= Window.end_ (scrollChapterRange
                       (autoScroll chapterCount seenEnd nearBottom st))
     <= Window.end_ (scrollChapterRange st) + 1
  /\ (seenEnd = Window.end_ (scrollChapterRange st) ->
      (Window.invariant chapterCount (scrollChapterRange st) ->
       Window.invariant chapterCount
         (scrollChapterRange
            (autoScroll chapterCount seenEnd nearBottom st)))
      /\ (nearBottom = true ->
          if seenEnd <? chapterCount - 1
          then Window.end_ (scrollChapterRange
                              (autoScroll chapterCount seenEnd nearBottom st))
               = Window.end_ (scrollChapterRange st) + 1
               /\ isAutoPlaying
                    (autoScroll chapterCount seenEnd nearBottom st)
                  = isAutoPlaying st
          else autoScroll chapterCount seenEnd nearBottom st
               = {| scrollChapterRange := scrollChapterRange st;
                    isAutoPlaying := false |})).
Proof.
  unfold autoScroll, Window.invariant.
  destruct st as [[s e] playing]; cbn.
  destruct nearBottom; destruct (Z.ltb_spec seenEnd (chapterCount - 1));
    cbn; repeat split; try lia; try discriminate; intros; subst; cbn; lia.
Qed.

Example stale_frame_leaves_the_book :
  Window.end_
    (scrollChapterRange
       (autoScroll 10 8 true
          (autoScroll 10 8 true
             {| scrollChapterRange := {| Window.start := 0; Window.end_ := 8 |};
                isAutoPlaying := true |})))
  = 10.
Proof. reflexivity. Qed.

End AutoPlayFacts.


(* ================================================================== *)
(** * Facts about the selection of paragraphs *)
(* ================================================================== *)

Module SelectionFacts.

Import Reader.

Lemma has_added (s : list jsstring) (text x : jsstring) :
  has (s ++ [text]) x = has s x || jseqb x text.
Proof. unfold has. rewrite existsb_app. simpl. now rewrite orb_false_r. Qed.

Lemma has_removed (s : list jsstring) (text x : jsstring) :
  has (filter (fun y => negb (jseqb y text)) s) x
  = negb (jseqb x text) && has s x.
Proof.
  unfold has. induction s as [|y s IH]; simpl; [now rewrite andb_false_r|].
  destruct (jseqb y text) eqn:E; simpl.
  - rewrite IH. apply JSFacts.jseqb_eq in E. subst y.
    destruct (jseqb x text); reflexivity.
  - rewrite IH. destruct (jseqb x y) eqn:Ex; simpl.
    + apply JSFacts.jseqb_eq in Ex. subst y. rewrite E. reflexivity.
    + reflexivity.
Qed.

Lemma has_toggled (text : jsstring) (prev : list jsstring) (x : jsstring) :
  has (handleTogglePara text prev) x
  = if jseqb x text then negb (has prev text) else has prev x.
Proof.
  unfold handleTogglePara. destruct (has prev text) eqn:H.
  - rewrite has_removed. destruct (jseqb x text); reflexivity.
  - rewrite has_added. destruct (jseqb x text) eqn:E.
    + apply JSFacts.jseqb_eq in E. subst. rewrite H. reflexivity.
    + apply orb_false_r.
Qed.

(** X27.  The selection behaves as a set: a tap on a paragraph changes
    whether that paragraph is selected and nothing else, so a second tap
    undoes the first, and no text is selected twice.  The merged text
    depends on which paragraphs are selected only, not on the order they
    were tapped in: it is made of the selected paragraphs of the chapter in
    the order of the chapter. *)
Theorem selection_is_a_set (text : jsstring) (prev other : list jsstring)
    (paragraphs : list jsstring) :
  (forall x, has (handleTogglePara text prev) x
             = if jseqb x text then negb (has prev text) else has prev x)
  /\ (forall x, has (handleTogglePara text (handleTogglePara text prev)) x
                = has prev x)
  /\ (NoDup prev -> NoDup (handleTogglePara text prev))
  /\ ((forall x, has other x = has prev x) ->
      mergedText paragraphs other = mergedText paragraphs prev)
  /\ (forall line,
        In line (filter (has prev) paragraphs)
        <-> In line paragraphs /\ In line prev).
Proof.
  split; [apply has_toggled|]. split; [|split; [|split]].
  - intros x. rewrite !has_toggled, JSFacts.jseqb_refl.
    destruct (jseqb x text) eqn:E; [|reflexivity].
    apply JSFacts.jseqb_eq in E. subst. apply negb_involutive.
  - intros Hd. unfold handleTogglePara. destruct (has prev text) eqn:H.
    + now apply NoDup_filter.
    + apply NoDup_app; [exact Hd | repeat constructor; intros [] |].
      intros x Hx [<-|[]]. apply ReaderFacts.has_In in Hx. congruence.
  - intros Same. unfold mergedText. f_equal. apply filter_ext. exact Same.
  - intros line. rewrite filter_In, ReaderFacts.has_In. reflexivity.
Qed.

Example merged_in_chapter_order :
  mergedText [js "a"; js "b"; js "c"]
    (handleTogglePara (js "a")
       (handleTogglePara (js "b")
          (handleTogglePara (js "c")
             (handleTogglePara (js "b") []))))
  = js "a" ++ [10%N] ++ js "c".
Proof. reflexivity. Qed.

End SelectionFacts.


(* ================================================================== *)
(** * Where a paragraph goes on *)
(* ================================================================== *)

Module ContinuationFacts.

Import Pagination Layout.

Section WithMeasurer.

Variable offsetHeight : Style -> jsstring -> Q.

Variables (availableHeight fontSize lineHeight paragraphSpacing
           containerWidth : Q).

Lemma continues_at_top_push (l : list PageParagraph) (full t : jsstring)
    (b : bool) :
  continues_at_top l -> (b = false -> l = []) ->
  continues_at_top (push l (piece full b t)).
Proof.
  unfold continues_at_top, push. intros H E. destruct l as [|f l]; simpl.
  - constructor.
  - simpl in H. apply Forall_app. split; [exact H|].
    constructor; [|constructor]. simpl.
    destruct b; [reflexivity|]. now specialize (E eq_refl).
Qed.

Lemma tidy_flush (st : State) : tidy st -> tidy (flush st).
Proof.
  intros [P C]. unfold tidy, flush, push. simpl. split.
  - apply Forall_app. split; [exact P|]. now repeat constructor.
  - constructor.
Qed.

Lemma whileLoop_tidy (full : jsstring) (fuel : nat) :
  forall st remaining b st',
  tidy st -> (b = false -> currentPageParas st = []) ->
  whileLoop offsetHeight availableHeight fontSize lineHeight paragraphSpacing
    containerWidth fuel st full remaining b = Some st' ->
  tidy st'.
Proof.
  induction fuel as [|fuel IH]; intros st remaining b st' T E;
    cbn [whileLoop].
  - destruct (0 <? jslength remaining)%Z; [discriminate|].
    intros H. injection H as <-. exact T.
  - destruct (0 <? jslength remaining)%Z;
      [|intros H; injection H as <-; exact T].
    assert (Tp : forall t,
              tidy {| pages := pages st;
                      currentPageParas :=
                        push (currentPageParas st) (piece full b t);
                      currentHeight := currentHeight st |}).
    { intros t. destruct T as [P C]. split; [exact P|].
      now apply continues_at_top_push. }
    destruct (PaginationFacts.whileBody_cases offsetHeight availableHeight
                fontSize lineHeight paragraphSpacing containerWidth
                st full remaining b)
      as [[h0 ->]|[[k [_ ->]]|[[Ne ->]|[Em ->]]]].
    + intros H. injection H as <-. destruct T as [P C]. split; [exact P|].
      now apply continues_at_top_push.
    + apply IH; [apply tidy_flush, Tp | reflexivity].
    + apply IH; [now apply tidy_flush | reflexivity].
    + intros H. injection H as <-. apply tidy_flush, Tp.
Qed.

Lemma forLoop_tidy (allParagraphs : list jsstring) : forall st st',
  tidy st ->
  forLoop offsetHeight availableHeight fontSize lineHeight paragraphSpacing
    containerWidth allParagraphs st = Some st' ->
  tidy st'.
Proof.
  induction allParagraphs as [|p ps IH]; intros st st' T; cbn [forLoop].
  - intros H. injection H as <-. exact T.
  - destruct (whileLoop offsetHeight availableHeight fontSize lineHeight
                paragraphSpacing containerWidth (turns p) st p p true)
      as [st1|] eqn:E; [|discriminate].
    apply IH. apply (@whileLoop_tidy p (turns p) st p true st1 T); auto.
    discriminate.
Qed.

(** X28.  On every page the engine returns, a fragment that continues a
    paragraph of the page before is the first fragment of its page: below
    the first fragment of a page, every fragment starts its paragraph. *)
Theorem continuation_starts_the_page (allParagraphs : list jsstring)
    (chapterTitle : option jsstring) :
  exists pgs,
    paginateParagraphs offsetHeight availableHeight fontSize lineHeight
      paragraphSpacing containerWidth allParagraphs chapterTitle = Some pgs
    /\ Forall (fun pg => continues_at_top (paragraphs pg)) pgs.
Proof.
  destruct (PaginationFacts.paginateParagraphs_result offsetHeight
              availableHeight fontSize lineHeight paragraphSpacing
              containerWidth allParagraphs chapterTitle) as [pgs [E _]].
  exists pgs. split; [exact E|]. revert E. unfold paginateParagraphs.
  assert (U : Forall (fun pg => continues_at_top (paragraphs pg))
                [{| paragraphs := wrapParas allParagraphs;
                    showTitle := true |}]).
  { constructor; [|constructor]. unfold continues_at_top.
    cbn [paragraphs]. destruct allParagraphs as [|p0 ps0]; [constructor|].
    cbn [wrapParas map tl]. apply Forall_forall. intros f Hf.
    apply in_map_iff in Hf as [p [<- _]]. reflexivity. }
  destruct ((List.length allParagraphs =? 0)%nat
            || Qle_bool availableHeight 0 || Qle_bool containerWidth 0).
  { intros H. injection H as <-. exact U. }
  destruct (forLoop offsetHeight availableHeight fontSize lineHeight
              paragraphSpacing containerWidth allParagraphs _)
    as [st'|] eqn:F; [|discriminate].
  apply forLoop_tidy in F; [|split; constructor].
  cbv zeta. intros H. injection H as <-.
  assert (T2 : tidy (if (0 <? List.length (currentPageParas st'))%nat
                     then flush st' else st')).
  { destruct (0 <? List.length (currentPageParas st'))%nat;
      [now apply tidy_flush | exact F]. }
  destruct (0 <? List.length (pages _))%nat; [apply T2 | exact U].
Qed.

End WithMeasurer.

Example continuation_of_the_sample :
  option_map (map (fun pg => map isContinuation (paragraphs pg)))
    (paginateParagraphs (fixed_width 10 20) 100 18 1 (1 # 2) 300
       [first_paragraph; second_paragraph; js "end"] (Some (js "Title")))
  = Some [[false]; [true; false]; [false]].
Proof. vm_compute. reflexivity. Qed.

End ContinuationFacts.

(* ================================================================== *)
(** * The engine on the document and the engine on heights *)
(* ================================================================== *)

Module OffscreenFacts.

Import Offscreen.

Local Open Scope Q_scope.

(** ** The child at a place *)

Lemma child_at (before after : Document) (el : Element) :
  nth_error (before ++ el :: after) (List.length before) = Some el.
Proof. induction before as [|x before IH]; [reflexivity | exact IH]. Qed.

Lemma children_before (before rest : Document) :
  firstn (List.length before) (before ++ rest) = before.
Proof.
  induction before as [|x before IH]; simpl; [now destruct rest|].
  now rewrite IH.
Qed.

Lemma children_after (before after : Document) (el : Element) :
  skipn (S (List.length before)) (before ++ el :: after) = after.
Proof. induction before as [|x before IH]; [reflexivity | exact IH]. Qed.

Lemma setTextContent_at (before after : Document) (el : Element)
    (t : jsstring) :
  setTextContent (before ++ el :: after) (List.length before) t
  = before ++ {| cssText := cssText el; textContent := t |} :: after.
Proof.
  unfold setTextContent.
  now rewrite child_at, children_before, children_after.
Qed.

Lemma removeChild_at (before after : Document) (el : Element) :
  removeChild (before ++ el :: after) (List.length before) = before ++ after.
Proof.
  unfold removeChild. now rewrite children_before, children_after.
Qed.

Section WithLayout.

Variable layout : Pagination.Style -> jsstring -> Q.

Lemma offsetHeight_at (before after : Document) (el : Element) :
  offsetHeight layout (before ++ el :: after) (List.length before)
  = layout (cssText el) (textContent el).
Proof. unfold offsetHeight. now rewrite child_at. Qed.

(** ** Every height that is read is the height of what was just written

    The measuring element stays at its place, with its style sheet; only its
    text changes.  Whatever text it holds when a loop is entered, the loop
    gives what the engine on heights gives. *)

Section Measuring.

Variables (before after : Document) (style : Pagination.Style).

Let holding (t : jsstring) : Document :=
  before ++ {| cssText := style; textContent := t |} :: after.

Lemma findSplitPoint_loop_reads (text : jsstring) (maxHeight : Q)
    (fuel : nat) : forall lo hi best t,
  exists t',
    findSplitPoint_loop layout fuel text maxHeight (List.length before)
      lo hi best (holding t)
    = option_map (fun b => (b, holding t'))
        (Pagination.findSplitPoint_loop layout fuel text maxHeight style
           lo hi best).
Proof.
  induction fuel as [|fuel IH]; intros lo hi best t; simpl.
  - exists t. now destruct (lo <=? hi)%Z.
  - destruct (lo <=? hi)%Z; [|now exists t].
    unfold holding. rewrite setTextContent_at, offsetHeight_at.
    cbn [cssText textContent].
    destruct (Qle_bool _ maxHeight); apply IH.
Qed.

End Measuring.

Variables (availableHeight fontSize lineHeight paragraphSpacing
           containerWidth : Q).

Section Loops.

Variables (before after : Document).

Let holding (t : jsstring) : Document :=
  before
  ++ {| cssText := Pagination.measurer fontSize lineHeight containerWidth;
        textContent := t |} :: after.

Lemma whileBody_reads (st : Pagination.State) (full remaining : jsstring)
    (isFirstFragment : bool) (t : jsstring) :
  exists t',
    whileBody layout availableHeight fontSize lineHeight paragraphSpacing
      (List.length before) st full remaining isFirstFragment (holding t)
    = option_map (fun turn => (turn, holding t'))
        (Pagination.whileBody layout availableHeight fontSize lineHeight
           paragraphSpacing containerWidth st full remaining
           isFirstFragment).
Proof.
  unfold whileBody, Pagination.whileBody, holding.
  rewrite setTextContent_at, offsetHeight_at. cbn [cssText textContent].
  destruct (Qle_bool _ _); [now eexists|].
  destruct (Qle_bool _ _); [|now eexists].
  unfold findSplitPoint, Pagination.findSplitPoint.
  destruct (findSplitPoint_loop_reads before after
              (Pagination.measurer fontSize lineHeight containerWidth)
              remaining
              (Pagination.safeHeight availableHeight
               - Pagination.currentHeight st
               - (if (0 <? List.length (Pagination.currentPageParas st))%nat
                  then Pagination.spacingPx fontSize paragraphSpacing
                  else 0))
              (List.length remaining) 1 (jslength remaining - 1) 0 remaining)
    as [t' E].
  rewrite E. exists t'.
  destruct (Pagination.findSplitPoint_loop _ _ _ _ _ _ _ _)
    as [splitIdx|]; [|reflexivity].
  cbn [option_map]. now destruct (0 <? splitIdx)%Z.
Qed.

Lemma whileLoop_reads (full : jsstring) (fuel : nat) :
  forall st remaining isFirstFragment t,
  exists t',
    whileLoop layout availableHeight fontSize lineHeight paragraphSpacing
      fuel (List.length before) st full remaining isFirstFragment
      (holding t)
    = option_map (fun st' => (st', holding t'))
        (Pagination.whileLoop layout availableHeight fontSize lineHeight
           paragraphSpacing containerWidth fuel st full remaining
           isFirstFragment).
Proof.
  induction fuel as [|fuel IH]; intros st remaining isFirst t; simpl.
  - exists t. now destruct (0 <? jslength remaining)%Z.
  - destruct (0 <? jslength remaining)%Z; [|now exists t].
    destruct (whileBody_reads st full remaining isFirst t) as [t' E].
    rewrite E.
    destruct (Pagination.whileBody _ _ _ _ _ _ _ _ _ _)
      as [[st' remaining' isFirst'|st']|]; cbn [option_map].
    + apply IH.
    + now exists t'.
    + now exists t'.
Qed.

Lemma forLoop_reads (allParagraphs : list jsstring) : forall st t,
  exists t',
    forLoop layout availableHeight fontSize lineHeight paragraphSpacing
      (List.length before) allParagraphs st (holding t)
    = option_map (fun st' => (st', holding t'))
        (Pagination.forLoop layout availableHeight fontSize lineHeight
           paragraphSpacing containerWidth allParagraphs st).
Proof.
  induction allParagraphs as [|p ps IH]; intros st t; simpl;
    [now exists t|].
  destruct (whileLoop_reads p (Pagination.turns p) st p true t) as [t' E].
  rewrite E.
  destruct (Pagination.whileLoop _ _ _ _ _ _ _ _ _ _ _) as [st'|];
    cbn [option_map]; [apply IH | now exists t'].
Qed.

End Loops.

(** The element that measures the title is appended, read and removed. *)
Lemma titleHeight_restores (chapterTitle : option jsstring)
    (doc : Document) :
  titleHeight layout fontSize containerWidth chapterTitle doc
  = (Pagination.titleHeight layout fontSize containerWidth chapterTitle,
     doc).
Proof.
  unfold titleHeight, Pagination.titleHeight.
  destruct chapterTitle as [t|]; [|reflexivity].
  destruct (truthy t); [|reflexivity].
  unfold appended, appendChild.
  rewrite offsetHeight_at, removeChild_at, app_nil_r. reflexivity.
Qed.

(** The engine on the document returns the pages of the engine on heights,
    and leaves the document as it found it. *)
Lemma paginateParagraphs_on_document (allParagraphs : list jsstring)
    (chapterTitle : option jsstring) (doc : Document) :
  paginateParagraphs layout availableHeight fontSize lineHeight
    paragraphSpacing containerWidth allParagraphs chapterTitle doc
  = option_map (fun pgs => (pgs, doc))
      (Pagination.paginateParagraphs layout availableHeight fontSize
         lineHeight paragraphSpacing containerWidth allParagraphs
         chapterTitle).
Proof.
  unfold paginateParagraphs, Pagination.paginateParagraphs.
  destruct ((List.length allParagraphs =? 0)%nat
            || Qle_bool availableHeight 0 || Qle_bool containerWidth 0);
    [reflexivity|].
  rewrite titleHeight_restores.
  unfold appended, appendChild, measuring_element.
  destruct (forLoop_reads doc []
              allParagraphs
              {| Pagination.pages := [];
                 Pagination.currentPageParas := [];
                 Pagination.currentHeight :=
                   Pagination.titleHeight layout fontSize containerWidth
                     chapterTitle |} []) as [t' E].
  rewrite E.
  destruct (Pagination.forLoop _ _ _ _ _ _ _ _) as [st|]; [|reflexivity].
  cbn [option_map]. now rewrite removeChild_at, app_nil_r.
Qed.

End WithLayout.

(** C2.  Two invocations with the same paragraphs, title and layout
    parameters, under layout engines that give the same height for every
    style sheet and text, return the same page list, whatever the documents
    they run in hold: every height the engine reads is the height of the
    text it has just written to the element it appended itself.  Each
    invocation returns, and leaves its document as it found it, so that the
    next invocation starts from the same document. *)
Theorem same_pages_in_any_document
    (layout layout' : Pagination.Style -> jsstring -> Q)
    (availableHeight fontSize lineHeight paragraphSpacing containerWidth : Q)
    (allParagraphs : list jsstring) (chapterTitle : option jsstring)
    (doc doc' : Document) :
  (forall style text, layout style text = layout' style text) ->
  exists pgs,
    paginateParagraphs layout availableHeight fontSize lineHeight
      paragraphSpacing containerWidth allParagraphs chapterTitle doc
    = Some (pgs, doc)
    /\ paginateParagraphs layout' availableHeight fontSize lineHeight
         paragraphSpacing containerWidth allParagraphs chapterTitle doc'
       = Some (pgs, doc').
Proof.
  intros same.
  destruct (PaginationFacts.paginateParagraphs_same layout layout' same
              availableHeight fontSize lineHeight paragraphSpacing
              containerWidth allParagraphs chapterTitle)
    as [pgs [E E']].
  exists pgs. rewrite !paginateParagraphs_on_document, E, E'.
  split; reflexivity.
Qed.

Lemma same_pages_in_any_document_sample :
  exists pgs,
    paginateParagraphs (Pagination.fixed_width 10 20) 100 18 1 0 300
      [Pagination.first_paragraph; Pagination.second_paragraph]
      (Some (js "One")) []
    = Some (pgs, [])
    /\ paginateParagraphs (Pagination.fixed_width' 10 20) 100 18 1 0 300
         [Pagination.first_paragraph; Pagination.second_paragraph]
         (Some (js "One")) busy_document
       = Some (pgs, busy_document).
Proof.
  apply same_pages_in_any_document.
  intros style text. unfold Pagination.fixed_width'. now rewrite app_nil_r.
Defined.

(** The measuring element holds the text measured last when the loops are
    left; the pages do not hold it. *)
Example measurer_after_the_loops :
  forLoop (Pagination.fixed_width 10 20) 100 18 1 0
    (List.length busy_document)
    [Pagination.first_paragraph; Pagination.second_paragraph]
    {| Pagination.pages := []; Pagination.currentPageParas := [];
       Pagination.currentHeight := 0 |}
    (appendChild busy_document (measuring_element 18 1 300))
  = option_map
      (fun st =>
         (st,
          busy_document
          ++ [{| cssText := Pagination.measurer 18 1 300;
                 textContent := Pagination.second_paragraph |}]))
      (Pagination.forLoop (Pagination.fixed_width 10 20) 100 18 1 0 300
         [Pagination.first_paragraph; Pagination.second_paragraph]
         {| Pagination.pages := []; Pagination.currentPageParas := [];
            Pagination.currentHeight := 0 |}).
Proof. vm_compute. reflexivity. Qed.

End OffscreenFacts.

(* ================================================================== *)
(** * The range under all its writers *)
(* ================================================================== *)

Module RangeWritersFacts.

Import RangeWriters.

Local Open Scope Z_scope.

(** C6.  The range does not stay within the book in every state that can
    be reached.  With ten chapters and the range [{8, 8}], a scroll near the
    bottom and the frame of auto play, both made in the render that showed
    [{8, 8}], are handled one after the other: the update of the scroll
    handler looks at the range it is given and makes it [{8, 9}]; the update
    of the frame does not, and makes it [{8, 10}], so that [end] is the
    chapter count.  Two scrolls from that render leave it at [{8, 9}]. *)
Theorem auto_play_leaves_the_book :
  Window.invariant 10 last_but_one
  /\ Forall (sees last_but_one) one_frame
  /\ Window.scrollChapterRange (loader (run 10 (playing 8) one_frame))
     = {| Window.start := 8; Window.end_ := 10 |}
  /\ ~ Window.invariant 10
         (Window.scrollChapterRange (loader (run 10 (playing 8) one_frame)))
  /\ Window.scrollChapterRange
       (loader (run 10 (playing 8)
                  [Scroll last_but_one true false;
                   Scroll last_but_one true false]))
     = {| Window.start := 8; Window.end_ := 9 |}.
Proof.
  split; [unfold Window.invariant; simpl; lia|].
  split; [repeat constructor|].
  split; [reflexivity|]. split; [|reflexivity].
  unfold Window.invariant. simpl. lia.
Qed.

(** The same for every book of two chapters or more: from a range that ends
    at the last chapter but one, the two callbacks of one render put [end]
    behind the last chapter. *)
Lemma one_frame_leaves_any_book (chapterCount : Z) (st : Scrolling) :
  isAutoPlaying st = true ->
  Window.end_ (Window.scrollChapterRange (loader st)) = chapterCount - 2 ->
  Window.end_
    (Window.scrollChapterRange
       (loader
          (run chapterCount st
             [Scroll (Window.scrollChapterRange (loader st)) true false;
              AutoFrame
                (Window.end_ (Window.scrollChapterRange (loader st)))
                true])))
  = chapterCount.
Proof.
  intros Ha He. unfold run. cbn [fold_left react].
  unfold autoFrame, with_loader. cbn [isAutoPlaying loader]. rewrite Ha.
  unfold AutoPlay.autoScroll, Window.handleScroll, Window.extend_end.
  cbn [andb]. rewrite He.
  replace (chapterCount - 2 <? chapterCount - 1) with true
    by (symmetry; apply Z.ltb_lt; lia).
  cbn. lia.
Qed.

End RangeWritersFacts.
